(** * Illicit discharge tracking: the Taylor solution and its two inverse problems

    A shallow embedding of the numerical core of the two notebooks
    [Illicit_Discharge_Tracking_Tayl.ipynb] and [TaylorTracerExp.ipynb]:
    the conductivity-to-concentration conversion, the characterisation of
    the rising front of a concentration curve, the Taylor solution, the grid
    search for the distance and mass of a source (cell "SLOPE D") and the
    fit of the dispersion coefficient and velocity.

    Conventions of the embedding.
    - A numpy [float64] is a real number: arithmetic is exact, there is no
      rounding, no infinity and no NaN.  numpy array arithmetic never raises
      (a division by zero is a warning), so array expressions are total
      functions on lists of reals.  Where the machine numbers decide an
      outcome (a threshold that rounds to the peak), the two lookups are also
      given on binary64 numbers ([amax64], [first_above64]); statements over
      the reals that a run returns are made under the condition that it
      does, or that the computed thresholds lie below the peak.
    - A one-dimensional numpy array is a [list R]; an index array (the result
      of [nonzero] or [np.where]) is a [list nat].
    - A Python statement sequence is a computation in the monad [result]: it
      either yields a value or raises one exception, which propagates to the
      top of the cell.
    - A name of the notebook that is assigned only inside a branch is an
      [option]: [None] is the unbound name, and reading it raises [NameError].
    - Comparisons of reals are booleans obtained from the decidability of the
      order; on closed terms they are evaluated by rewriting ([Rdecide]). *)

From Stdlib Require Import Floats.PrimFloat.
From Stdlib Require Import Reals Lra Lia List Arith Bool Psatz.
Import ListNotations.
Open Scope R_scope.

(** ** Exceptions and the exception monad *)

(** The first five constructors are the Python exceptions the notebooks can
    raise ([RuntimeError] and [TypeError] only through [curve_fit]).  The
    last five are the error names of the specification's taxonomy; no line of
    the notebooks constructs any of them. *)
Inductive exn : Type :=
| IndexError
| ValueError
| NameError
| RuntimeError
| TypeError
| InvalidParameterError
| BoundNotFoundError
| InsufficientDataError
| NoConvergenceError
| OptimizationDivergedError.

Inductive result (A : Type) : Type :=
| Ok (a : A)
| Raise (e : exn).

Arguments Ok {A} a.
Arguments Raise {A} e.

Definition bind {A B : Type} (m : result A) (k : A -> result B) : result B :=
  match m with
  | Ok a => k a
  | Raise e => Raise e
  end.

Notation "x <- m ;; k" := (bind m (fun x => k))
  (at level 61, m at next level, right associativity).

Definition is_ok {A : Type} (m : result A) : Prop := exists a, m = Ok a.

(** ** Comparisons of floats as booleans *)

Definition Rgtb (x y : R) : bool := if Rgt_dec x y then true else false.
Definition Rltb (x y : R) : bool := if Rlt_dec x y then true else false.
Definition Rgeb (x y : R) : bool := if Rge_dec x y then true else false.
Definition Rleb (x y : R) : bool := if Rle_dec x y then true else false.

(** ** The numpy primitives the notebooks use *)

(** [range(a, b)] *)
Definition range (a b : nat) : list nat := seq a (b - a).

(** [l[i]] for a non-negative index. *)
Definition getitem (l : list R) (i : nat) : result R :=
  match nth_error l i with
  | Some v => Ok v
  | None => Raise IndexError
  end.

(** [l[idx]] for an index array [idx]. *)
Fixpoint take (l : list R) (idx : list nat) : result (list R) :=
  match idx with
  | [] => Ok []
  | i :: rest =>
      v <- getitem l i ;;
      vs <- take l rest ;;
      Ok (v :: vs)
  end.

(** [nonzero(mask)[0]] and [np.where(mask)]: the indices of the true entries,
    in increasing order. *)
Fixpoint nonzero_from (k : nat) (mask : list bool) : list nat :=
  match mask with
  | [] => []
  | b :: rest =>
      if b then k :: nonzero_from (S k) rest else nonzero_from (S k) rest
  end.

Definition nonzero (mask : list bool) : list nat := nonzero_from 0 mask.

(** [idx[0]] on an index array: the empty array has no element 0. *)
Definition item0 (idx : list nat) : result nat :=
  match idx with
  | [] => Raise IndexError
  | i :: _ => Ok i
  end.

(** [nonzero(C > thr)[0][0]]: the first index whose entry strictly exceeds
    the threshold. *)
Definition first_above (C : list R) (thr : R) : result nat :=
  item0 (nonzero (map (fun c => Rgtb c thr) C)).

(** [amax(C)]; numpy refuses the empty array with a [ValueError]. *)
Definition amax (C : list R) : result R :=
  match C with
  | [] => Raise ValueError
  | c :: rest => Ok (fold_left Rmax rest c)
  end.

(** The same two functions on binary64 numbers: [C > thr] is the IEEE
    comparison, [amax] propagates a NaN. *)
Definition max64 (a b : float) : float :=
  if PrimFloat.is_nan a then a
  else if PrimFloat.is_nan b then b
  else if PrimFloat.ltb a b then b else a.

Definition amax64 (C : list float) : result float :=
  match C with
  | [] => Raise ValueError
  | c :: rest => Ok (fold_left max64 rest c)
  end.

Definition first_above64 (C : list float) (thr : float) : result nat :=
  item0 (nonzero (map (fun c => PrimFloat.ltb thr c) C)).

(** [argmax(C)]: the first index of the maximum. *)
Fixpoint argmax_from (k best_i : nat) (best : R) (C : list R) : nat :=
  match C with
  | [] => best_i
  | c :: rest =>
      if Rgtb c best then argmax_from (S k) k c rest
      else argmax_from (S k) best_i best rest
  end.

Definition argmax (C : list R) : result nat :=
  match C with
  | [] => Raise ValueError
  | c :: rest => Ok (argmax_from 1 0 c rest)
  end.

(** [linspace(start, stop, num)]: [num] evenly spaced samples, both ends
    included. *)
Definition linspace (start stop : R) (num : nat) : list R :=
  map (fun i => start + INR i * ((stop - start) / INR (num - 1))) (seq 0 num).

(** [sum(l)] *)
Definition Rsum (l : list R) : R := fold_right Rplus 0 l.

Definition mean (l : list R) : R := Rsum l / INR (length l).

(** ** Ordinary least squares, [smf.ols('C ~ t', data).fit().params]

    statsmodels solves the least-squares problem with the pseudo-inverse of
    the design matrix [[1, t]].  When the times are not all equal this is the
    classical closed form.  When they are all equal the design matrix has rank
    one and the pseudo-inverse gives the solution of least norm.  An empty
    frame has no fit: the singular values of the design matrix form an empty
    array, whose maximum is a [ValueError].

    The result is the pair (Intercept, slope). *)
Definition Sxx (ts : list R) : R :=
  Rsum (map (fun t => (t - mean ts) * (t - mean ts)) ts).

Definition Sxy (ts cs : list R) : R :=
  Rsum (map (fun p => (fst p - mean ts) * (snd p - mean cs)) (combine ts cs)).

Definition ols (ts cs : list R) : result (R * R) :=
  match ts with
  | [] => Raise ValueError
  | _ :: _ =>
      if Req_dec_T (Sxx ts) 0
      then Ok (mean cs / (1 + mean ts * mean ts),
               mean ts * mean cs / (1 + mean ts * mean ts))
      else Ok (mean cs - Sxy ts cs / Sxx ts * mean ts, Sxy ts cs / Sxx ts)
  end.

(** The sum of squared residuals of the line [a + b t] on the data. *)
Definition ssr (ts cs : list R) (a b : R) : R :=
  Rsum (map (fun p => (snd p - (a + b * fst p)) * (snd p - (a + b * fst p)))
            (combine ts cs)).

(** ** Forward model: the Taylor solution

    [def taylorU(t,M,U,K,x)] of the tracking notebook; the cross-section [A]
    is a global of the notebook and is made a parameter here.  Over the reals
    a curve of positive parameters is positive everywhere; on binary64
    numbers [exp] underflows, and a curve whose every sample underflows is
    zero: the statements below that a visit of the search yields a slope are
    made under the condition that it does. *)
Definition taylor (A M U K x t : R) : R :=
  (M / (A * sqrt (4 * PI * K * t))) * exp (- (x - U * t) ^ 2 / (4 * K * t)).

Definition taylorU (A : R) (t : list R) (M U K x : R) : result (list R) :=
  let Cp := map (taylor A M U K x) t in
  Ok Cp.

(** ** Conductivity to concentration (cell 29) *)

(** [e ** p] on a float64 base [e], for an exponent [p > 0] that is not a whole
    number: the power of a positive base and [0.0] at the base zero.  At a
    negative base numpy yields NaN, which no real number stands for: the
    conversion is modelled on conductances that are not negative, and the
    value [0] below zero is a convention of the model only. *)
Definition npow (e p : R) : R :=
  if Rlt_dec 0 e then Rpower e p else 0.

(** The two assignments to [C_rel[i]] of the first loop. *)
Definition C_rel_of (EC : list R) : list R :=
  map (fun e => (0.000013 * npow e 1.161074) * 10000) EC.

(** The body of the second loop: subtract the base flow, clamp at zero. *)
Definition clamp_sub (C_base c : R) : R :=
  let d := c - C_base in
  if Rltb d 0 then 0 else d.

Definition toConcentration (EC : list R) : result (list R) :=
  let C_rel := C_rel_of EC in
  C_base <- getitem C_rel 1 ;;
  Ok (map (clamp_sub C_base) C_rel).

(** The midpoint sums [C_area] (entry 0 stays zero) and the mass estimate. *)
Fixpoint C_area_from (prev : R) (C_obs : list R) : list R :=
  match C_obs with
  | [] => []
  | c :: rest => ((c + prev) / 2) :: C_area_from c rest
  end.

Definition C_area_of (C_obs : list R) : list R :=
  match C_obs with
  | [] => []
  | c :: rest => 0 :: C_area_from c rest
  end.

Definition mass_estimate (C_obs : list R) (sampint Q : R) : R :=
  let MFR := Rsum (C_area_of C_obs) * sampint in
  MFR * Q.

(** ** Curve characterizer *)

(** The block shared by cell 31 (observed curve) and by the body of the grid
    search (synthetic curve): the two bound indices, the window of samples
    whose time lies between the two bound times, and the regression line
    through the window.  The thresholds are the exact products of the
    fractions and the peak; the machine rounds them, which matters only for
    a peak so small that the rounded product is the peak itself (see
    [first_above64]). *)
Record Front : Type := mkFront {
  indx1 : nat;
  indx2 : nat;
  t1 : R;
  t2 : R;
  Lt : list R;
  LC : list R;
  params : R * R
}.

(** [np.logical_and(t >= t1, t <= t2)] on one entry of [t]. *)
Definition in_window (lo hi ti : R) : bool := Rgeb ti lo && Rleb ti hi.

(** [np.where(np.logical_and(t >= t1, t <= t2))] *)
Definition between (t : list R) (lo hi : R) : list nat :=
  nonzero (map (in_window lo hi) t).

Definition front_fit (t C : list R) (Clower Cupper Cmax : R) : result Front :=
  i1 <- first_above C (Clower * Cmax) ;;
  i2 <- first_above C (Cupper * Cmax) ;;
  t1 <- getitem t i1 ;;
  t2 <- getitem t i2 ;;
  let poop := between t t1 t2 in
  Lt <- take t poop ;;
  LC <- take C poop ;;
  lm <- ols Lt LC ;;
  Ok (mkFront i1 i2 t1 t2 Lt LC lm).

(** Cells 30 and 31 on the observed curve: the peak, the time of the initial
    front, the time of the peak, the front block, the slope between the two
    bound samples ([dCdtmeas1], printed only; a scalar division of numpy, which
    does not raise) and the slope of the regression line ([dCdtreg1]). *)
Record FrontCharacterization : Type := mkFC {
  fc_Cmax : R;
  fc_tstart : R;
  fc_tpeak : R;
  fc_front : Front;
  dCdtmeas1 : R;
  dCdtreg1 : R
}.

Definition characterize (t C_obs : list R) (ClowerD CupperD : R)
  : result FrontCharacterization :=
  Cmax <- amax C_obs ;;
  istart <- first_above C_obs (0.01 * Cmax) ;;
  tstart <- getitem t istart ;;
  ipeak <- argmax C_obs ;;
  tpeak <- getitem t ipeak ;;
  fr <- front_fit t C_obs ClowerD CupperD Cmax ;;
  let meas := (nth (indx2 fr) C_obs 0 - nth (indx1 fr) C_obs 0) / (t2 fr - t1 fr) in
  Ok (mkFC Cmax tstart tpeak fr meas (snd (params fr))).

(** ** Mode A: the grid search of cell 34 ("SLOPE D") *)

(** The slope of the synthetic front for one candidate [(x, M)]: the body of
    the inner loop up to [dCdtregsyn]. *)
Definition syn_slope (A U K ClowerD CupperD : R) (N : nat) (x M : R)
  : result R :=
  let tend := 10 * (x / U) in
  let tsyn := linspace 1 tend N in
  Csyn <- taylorU A tsyn M U K x ;;
  Cmax <- amax Csyn ;;
  fr <- front_fit tsyn Csyn ClowerD CupperD Cmax ;;
  Ok (snd (params fr)).

(** The names the loop assigns: [diffi] is bound by cell 33, [XYZ] and [MYZ]
    only by the branch of the loop. *)
Record workspace : Type := mkWs {
  diffi : R;
  XYZ : option R;
  MYZ : option R
}.

(** A [for] loop over a list of indices, threading the workspace; an
    exception in the body leaves the loop. *)
Fixpoint for_each {I : Type} (l : list I) (body : workspace -> I -> result workspace)
  (w : workspace) : result workspace :=
  match l with
  | [] => Ok w
  | i :: rest =>
      w' <- body w i ;;
      for_each rest body w'
  end.

Section SlopeD.

Variables (A U K ClowerD CupperD : R).
Variable observed_slope : R.
Variables (N MMM : nat).
Variables (xrange Msyn : list R).

(** The comparison at the end of the loop body. *)
Definition update (w : workspace) (x M dCdtregsyn : R) : workspace :=
  let diff := Rabs (dCdtregsyn - observed_slope) in
  if Rltb diff (diffi w) then mkWs diff (Some x) (Some M) else w.

Definition loop_body (w : workspace) (i j : nat) : result workspace :=
  x <- getitem xrange i ;;
  M <- getitem Msyn j ;;
  dCdtregsyn <- syn_slope A U K ClowerD CupperD N x M ;;
  Ok (update w x M dCdtregsyn).

(** [for i in range(1,N): for j in range(1,MMM): ...] *)
Definition slopeD_loop (w : workspace) : result workspace :=
  for_each (range 1 N)
    (fun w i => for_each (range 1 MMM) (fun w j => loop_body w i j) w) w.

(** The two [print] lines read [XYZ] and [MYZ]. *)
Definition read_name (v : option R) : result R :=
  match v with
  | Some r => Ok r
  | None => Raise NameError
  end.

Definition slopeD (w : workspace) : result (R * R) :=
  w' <- slopeD_loop w ;;
  x <- read_name (XYZ w') ;;
  M <- read_name (MYZ w') ;;
  Ok (x, M).

End SlopeD.

(** The index pairs the two nested loops visit, in the order they visit
    them: [i] from 1 to [N - 1], and for each [i], [j] from 1 to [MMM - 1]. *)
Definition grid_indices (N MMM : nat) : list (nat * nat) :=
  flat_map (fun i => map (fun j => (i, j)) (range 1 MMM)) (range 1 N).

(** One visit of the loop body that raises nothing: the candidate distance,
    the candidate mass and the slope of the synthetic front. *)
Definition evaluated_as (A U K ClowerD CupperD : R) (N : nat)
  (xrange Msyn : list R) (ij : nat * nat) (e : R * R * R) : Prop :=
  getitem xrange (fst ij) = Ok (fst (fst e)) /\
  getitem Msyn (snd ij) = Ok (snd (fst e)) /\
  syn_slope A U K ClowerD CupperD N (fst (fst e)) (snd (fst e)) = Ok (snd e).

(** [diff] of the loop body for one visit. *)
Definition diff_of (observed_slope : R) (e : R * R * R) : R :=
  Rabs (snd e - observed_slope).

(** Cell 33: the grids and the initial value of [diffi]; in a notebook run
    from the top [XYZ] and [MYZ] are not bound yet. *)
Definition initial_workspace : workspace := mkWs 10 None None.

(** The estimator with the grid ranges as parameters: cells 33 and 34. *)
Definition estimateDistanceAndMass (A U K ClowerD CupperD observed_slope : R)
  (Mlow Mhigh : R) (MMM : nat) (Xlow Xhigh : R) (N : nat) : result (R * R) :=
  let xrange := linspace Xlow Xhigh N in
  let Msyn := linspace Mlow Mhigh MMM in
  slopeD A U K ClowerD CupperD observed_slope N MMM xrange Msyn
    initial_workspace.

(** The notebook's own constants: 1000 distances from 1 to 1000 m, 50 masses
    within 30 percent of the mass estimate, bounds 0.5 and 0.999. *)
Definition notebook_cells_33_34 (A U K observed_slope M : R) : result (R * R) :=
  estimateDistanceAndMass A U K 0.5 0.999 observed_slope
    (M - M * 0.30) (M + M * 0.30) 50 1 1000 1000.

(** Cells 30 to 34 in sequence: the observed front, then the search. *)
Definition modeA (A U K ClowerD CupperD : R) (t C_obs : list R)
  (Mlow Mhigh : R) (MMM : nat) (Xlow Xhigh : R) (N : nat) : result (R * R) :=
  fc <- characterize t C_obs ClowerD CupperD ;;
  estimateDistanceAndMass A U K ClowerD CupperD (dCdtreg1 fc)
    Mlow Mhigh MMM Xlow Xhigh N.

(** ** Mode B: the fit of K and U (cell 16 of the tracer notebook) *)

(** [def taylor2nd(t,K,U)]; [M], [A] and [x] are globals of that notebook. *)
Definition taylor2nd (M A x : R) (t : list R) (K U : R) : list R :=
  map (taylor A M U K x) t.

Section ModeB.

(** [scipy.optimize.curve_fit(f, xdata, ydata, p0)]: an external optimizer.
    It returns the optimal parameters and their covariance, or raises:
    [RuntimeError] when the least-squares iteration does not converge,
    [TypeError] when there are fewer data points than parameters,
    [ValueError] on data that are not finite. *)
Variable curve_fit :
  (list R -> R -> R -> list R) -> list R -> list R -> list R ->
  result (list R * list (list R)).

Definition estimateDispersionAndVelocity (M A x : R) (t C : list R)
  : result (R * R) :=
  fit <- curve_fit (taylor2nd M A x) t C [0.1; 0.1] ;;
  let popt := fst fit in
  K <- getitem popt 0 ;;
  U <- getitem popt 1 ;;
  Ok (K, U).

End ModeB.

(** ** The rest of the tracking notebook *)

(** Cell 2: the stream characteristics in customary units and their
    conversion to SI units. *)
Definition ft_m : R := 30.48 / 100.




(** Cell 3: the two empirical equations of reach 1, in ft^2/s, and their
    conversion.  The powers are those of positive numbers. *)
Definition KQ1 (Q1 : R) : R := 6.0966 * Rpower Q1 0.7414.
Definition KU1 (U1 : R) : R := 7.5017 * Rpower U1 0.9643.
Definition KQ (Q1 : R) : R := KQ1 Q1 * ft_m ^ 2.
Definition KU (U1 : R) : R := KU1 U1 * ft_m ^ 2.

(** Cell 4 (and cell 6 of the tracer notebook): wet perimeter, hydraulic
    radius, shear velocity and the predictor equations; [Sl] is the slope
    [S].  These are the formulas on positive stream characteristics, as the
    tracer notebook evaluates them on numpy numbers. *)
Definition Pw (W h : R) : R := W + 2 * h.
Definition Hr (A W h : R) : R := A / Pw W h.
Definition ustar (A W h Sl : R) : R := sqrt (9.81 * Hr A W h * Sl).
Definition KK (A W h Sl : R) : R := 0.6 * (W / h) ^ 2 * h * ustar A W h Sl.
Definition KI (A W h Sl : R) : R := 2 * Rpower (W / h) (3 / 2) * h * ustar A W h Sl.
Definition KE (A W h Sl : R) : R := 5.93 * ustar A W h Sl * h.
Definition KM (U h Sl : R) : R := 0.058 * (U * h) / Sl.


(** The time column [data.t_sec] holds whole seconds, which pandas reads as
    int64: [array(data.t_sec) + 1] and the difference of two of its entries
    are int64 operations and wrap around at [2^63].  (A column of seconds with
    a fraction is float64 and does not wrap; the two agree below [2^53].) *)
Definition int64_wrap (v : R) : R :=
  if Rlt_dec v (- 2 ^ 63) then v + 2 ^ 64
  else if Rlt_dec v (2 ^ 63) then v
  else v - 2 ^ 64.

(** Cell 28: the two columns of the data file, the times shifted by one
    second, the base conductivity and the sampling interval. *)
Record Loaded : Type := mkLoaded {
  ld_t : list R;
  ld_EC : list R;
  EC_base : R;
  sampint : R
}.

Definition load (t_sec cond_microS_cm : list R) : result Loaded :=
  let t := map (fun s => int64_wrap (s + 1)) t_sec in
  let EC := cond_microS_cm in
  EC_base <- getitem EC 2 ;;
  ta <- getitem t 2 ;;
  tb <- getitem t 1 ;;
  Ok (mkLoaded t EC EC_base (int64_wrap (ta - tb))).

(** Cell 29 as a whole: the observed concentrations and the mass. *)
Definition cell29 (EC : list R) (sampint Q : R) : result (list R * R) :=
  C_obs <- toConcentration EC ;;
  Ok (C_obs, mass_estimate C_obs sampint Q).

(** Cell 35: the Taylor solution at the pair the search returned, its front,
    the two reference times of the synthetic curve, and the time arrays
    shifted by [abs(tpeak - tpeaksyn)] for the plot against the data. *)
Record Replot : Type := mkReplot {
  rp_tsyn : list R;
  rp_Csyn : list R;
  rp_front : Front;
  tstartsyn : R;
  tpeaksyn : R;
  tplot : list R;
  datatsynplot : list R;
  C_hat_syn : list R
}.

Definition cell35 (A U K ClowerD CupperD : R) (N : nat) (tpeak XYZ MYZ : R)
  : result Replot :=
  let tend := 10 * (XYZ / U) in
  let tsyn := linspace 1 tend N in
  Csyn <- taylorU A tsyn MYZ U K XYZ ;;
  Cmax <- amax Csyn ;;
  fr <- front_fit tsyn Csyn ClowerD CupperD Cmax ;;
  istart <- first_above Csyn (0.01 * Cmax) ;;
  tstartsyn <- getitem tsyn istart ;;
  ipeak <- argmax Csyn ;;
  tpeaksyn <- getitem tsyn ipeak ;;
  let tplot := map (fun ti => ti + Rabs (tpeak - tpeaksyn)) tsyn in
  let datatsynplot := map (fun ti => ti + Rabs (tpeak - tpeaksyn)) (Lt fr) in
  let C_hat_syn := map (fun ti => fst (params fr) + snd (params fr) * ti) (Lt fr) in
  Ok (mkReplot tsyn Csyn fr tstartsyn tpeaksyn tplot datatsynplot C_hat_syn).

(** ** The rest of the tracer notebook *)

(** Cells 3 and 4: the data, the time of the peak, and the velocity, area and
    water height derived from the known distance and flow. *)
Record Tracer : Type := mkTracer {
  tr_t : list R;
  tr_tpeak : R;
  tr_M : R;
  tr_Q : R;
  tr_x : R;
  tr_W : R;
  tr_U : R;
  tr_A : R;
  tr_h : R
}.

Definition tracer_setup (t_sec C : list R) (Qknown W1 M_mg xknown1 : R)
  : result Tracer :=
  let t := map (fun s => int64_wrap (s + 1)) t_sec in
  ipeak <- argmax C ;;
  tpeak <- getitem t ipeak ;;
  let M := M_mg / 1000 in
  let Q := Qknown * ft_m ^ 3 in
  let xknown := xknown1 * ft_m in
  let x := xknown in
  let W := W1 * ft_m in
  let U := x / tpeak in
  let A := Q / U in
  let h := A / W in
  Ok (mkTracer t tpeak M Q x W U A h).

(** * Properties *)

(** ** Boolean comparisons *)

Lemma Rgtb_true (x y : R) : x > y -> Rgtb x y = true.
Proof. intros H. unfold Rgtb. destruct (Rgt_dec x y); [reflexivity | contradiction]. Qed.

Lemma Rgtb_false (x y : R) : ~ x > y -> Rgtb x y = false.
Proof. intros H. unfold Rgtb. destruct (Rgt_dec x y); [contradiction | reflexivity]. Qed.

Lemma Rgtb_true_iff (x y : R) : Rgtb x y = true <-> x > y.
Proof.
  unfold Rgtb. destruct (Rgt_dec x y); split; intros; try assumption;
    try reflexivity; try discriminate; contradiction.
Qed.

Lemma Rgtb_false_iff (x y : R) : Rgtb x y = false <-> x <= y.
Proof.
  unfold Rgtb. destruct (Rgt_dec x y); split; intros; try discriminate;
    try reflexivity; lra.
Qed.

Lemma Rltb_true (x y : R) : x < y -> Rltb x y = true.
Proof. intros H. unfold Rltb. destruct (Rlt_dec x y); [reflexivity | contradiction]. Qed.

Lemma Rltb_false (x y : R) : ~ x < y -> Rltb x y = false.
Proof. intros H. unfold Rltb. destruct (Rlt_dec x y); [contradiction | reflexivity]. Qed.

Lemma Rgeb_true (x y : R) : x >= y -> Rgeb x y = true.
Proof. intros H. unfold Rgeb. destruct (Rge_dec x y); [reflexivity | contradiction]. Qed.

Lemma Rgeb_false (x y : R) : ~ x >= y -> Rgeb x y = false.
Proof. intros H. unfold Rgeb. destruct (Rge_dec x y); [contradiction | reflexivity]. Qed.

Lemma Rleb_true (x y : R) : x <= y -> Rleb x y = true.
Proof. intros H. unfold Rleb. destruct (Rle_dec x y); [reflexivity | contradiction]. Qed.

Lemma Rleb_false (x y : R) : ~ x <= y -> Rleb x y = false.
Proof. intros H. unfold Rleb. destruct (Rle_dec x y); [contradiction | reflexivity]. Qed.

(** Evaluation of the comparisons on closed terms. *)
Ltac Rdecide :=
  repeat match goal with
    | |- context [Rmax ?a ?b] =>
        first [rewrite (Rmax_left a b) by lra | rewrite (Rmax_right a b) by lra]
    | |- context [Rgtb ?a ?b] =>
        first [rewrite (Rgtb_true a b) by lra | rewrite (Rgtb_false a b) by lra]
    | |- context [Rltb ?a ?b] =>
        first [rewrite (Rltb_true a b) by lra | rewrite (Rltb_false a b) by lra]
    | |- context [Rgeb ?a ?b] =>
        first [rewrite (Rgeb_true a b) by lra | rewrite (Rgeb_false a b) by lra]
    | |- context [Rleb ?a ?b] =>
        first [rewrite (Rleb_true a b) by lra | rewrite (Rleb_false a b) by lra]
    end.

(** ** Indexing *)

Lemma getitem_Ok (l : list R) (i : nat) :
  (i < length l)%nat -> getitem l i = Ok (nth i l 0).
Proof.
  intros H. unfold getitem.
  destruct (nth_error l i) eqn:E.
  - rewrite (nth_error_nth _ _ _ E). reflexivity.
  - apply nth_error_None in E. lia.
Qed.

Lemma getitem_Raise (l : list R) (i : nat) :
  (length l <= i)%nat -> getitem l i = Raise IndexError.
Proof.
  intros H. unfold getitem.
  destruct (nth_error l i) eqn:E; [| reflexivity].
  assert (i < length l)%nat by (apply nth_error_Some; congruence). lia.
Qed.

Lemma getitem_inv (l : list R) (i : nat) (v : R) :
  getitem l i = Ok v -> (i < length l)%nat /\ v = nth i l 0.
Proof.
  intros H. destruct (Nat.lt_ge_cases i (length l)) as [Hi | Hi].
  - rewrite getitem_Ok in H by assumption. split; congruence.
  - rewrite getitem_Raise in H by assumption. discriminate.
Qed.

Lemma getitem_error (l : list R) (i : nat) (e : exn) :
  getitem l i = Raise e -> e = IndexError.
Proof.
  unfold getitem. destruct (nth_error l i); intros H; congruence.
Qed.

(** ** The forward model *)




(** C3, as the code has it.  The forward model validates nothing and signals
    nothing: for every [K], [A] and [t], positive or not, the call returns a
    sequence as long as [t]. *)
Theorem taylorU_never_raises (A : R) (t : list R) (M U K x : R) :
  exists C : list R, taylorU A t M U K x = Ok C /\ length C = length t.
Proof.
  exists (map (taylor A M U K x) t). split; [reflexivity | apply length_map].
Qed.

(** C3, refuted as stated: with [K = 0], [A = 0] and a time [0] the call
    returns and does not signal [InvalidParameterError]. *)
Lemma taylorU_no_InvalidParameterError :
  (0 <= 0 /\ Exists (fun ti => ti <= 0) [0; 1]) /\
  is_ok (taylorU 0 [0; 1] 1 1 0 1) /\
  taylorU 0 [0; 1] 1 1 0 1 <> Raise InvalidParameterError.
Proof.
  split; [split; [lra | constructor; lra] |].
  split; [eexists; reflexivity | discriminate].
Qed.

(** ** The converter *)

Lemma clamp_sub_nonneg (C_base c : R) : 0 <= clamp_sub C_base c.
Proof.
  unfold clamp_sub, Rltb. destruct (Rlt_dec (c - C_base) 0); lra.
Qed.

Lemma clamp_sub_below (C_base c : R) : c < C_base -> clamp_sub C_base c = 0.
Proof.
  intros H. unfold clamp_sub. rewrite Rltb_true by lra. reflexivity.
Qed.

Lemma clamp_sub_above (C_base c : R) : C_base <= c -> clamp_sub C_base c = c - C_base.
Proof.
  intros H. unfold clamp_sub. rewrite Rltb_false by lra. reflexivity.
Qed.

Lemma npow_pos (e p : R) : 0 < e -> npow e p = Rpower e p.
Proof.
  intros H. unfold npow. destruct (Rlt_dec 0 e); [reflexivity | contradiction].
Qed.

Lemma npow_zero (e p : R) : e <= 0 -> npow e p = 0.
Proof.
  intros H. unfold npow. destruct (Rlt_dec 0 e); [lra | reflexivity].
Qed.

Lemma npow_nonneg (e p : R) : 0 <= npow e p.
Proof.
  unfold npow. destruct (Rlt_dec 0 e); [| lra].
  left. unfold Rpower. apply exp_pos.
Qed.

Lemma npow_le (a b p : R) : 0 <= p -> 0 <= a -> a <= b -> npow a p <= npow b p.
Proof.
  intros Hp Ha Hab. destruct (Rle_lt_dec a 0) as [Hz | Hpos].
  - rewrite (npow_zero a) by exact Hz. apply npow_nonneg.
  - rewrite !npow_pos by lra. apply Rle_Rpower_l; [exact Hp | split; assumption].
Qed.

Lemma npow_lt (a b p : R) : 0 < p -> 0 <= a -> a < b -> npow a p < npow b p.
Proof.
  intros Hp Ha Hab. destruct (Rle_lt_dec a 0) as [Hz | Hpos].
  - rewrite (npow_zero a) by exact Hz. rewrite npow_pos by lra.
    unfold Rpower. apply exp_pos.
  - rewrite !npow_pos by lra. apply Rlt_Rpower_l; [exact Hp | split; assumption].
Qed.

(** C8.  Each conductance sample that is not negative and whose power is a
    finite float64 (at most [2^880]) is converted by
    [0.000013 * EC^1.161074 * 10000] (zero at a zero conductance); the
    converted base-flow sample (index 1) is subtracted; a sample whose
    converted value is below the base flow gives exactly 0, the others give
    the difference; no output is negative. *)
Theorem toConcentration_clamped (EC : list R) :
  (1 < length EC)%nat ->
  Forall (fun e => 0 <= e <= 2 ^ 880) EC ->
  exists C_obs : list R,
    toConcentration EC = Ok C_obs /\
    length C_obs = length EC /\
    forall i : nat, (i < length EC)%nat ->
      let conv := fun e => 0.000013 * npow e 1.161074 * 10000 in
      let base := conv (nth 1 EC 0) in
      (0 < nth i EC 0 ->
       conv (nth i EC 0) = 0.000013 * Rpower (nth i EC 0) 1.161074 * 10000) /\
      (nth i EC 0 = 0 -> conv (nth i EC 0) = 0) /\
      (conv (nth i EC 0) < base -> nth i C_obs 0 = 0) /\
      (base <= conv (nth i EC 0) -> nth i C_obs 0 = conv (nth i EC 0) - base) /\
      ~ nth i C_obs 0 < 0.
Proof.
  intros Hlen _. unfold toConcentration.
  rewrite getitem_Ok by (unfold C_rel_of; rewrite length_map; exact Hlen).
  cbn [bind]. eexists. split; [reflexivity |].
  split; [unfold C_rel_of; rewrite !length_map; reflexivity |].
  intros i Hi. cbv zeta.
  set (conv := fun e => 0.000013 * npow e 1.161074 * 10000).
  set (base := conv (nth 1 EC 0)).
  set (cb := nth 1 (C_rel_of EC) 0).
  assert (Hcb : cb = base).
  { unfold cb, C_rel_of.
    rewrite (nth_indep _ 0 (conv 0)) by (rewrite length_map; exact Hlen).
    rewrite (map_nth conv). reflexivity. }
  assert (Hout : nth i (map (clamp_sub cb) (C_rel_of EC)) 0
                 = clamp_sub cb (conv (nth i EC 0))).
  { rewrite (nth_indep _ 0 (clamp_sub cb (conv 0)))
      by (unfold C_rel_of; rewrite !length_map; exact Hi).
    unfold C_rel_of. rewrite map_map.
    rewrite (map_nth (fun e => clamp_sub cb (conv e))). reflexivity. }
  rewrite Hout, Hcb.
  split; [intros Hp; unfold conv; rewrite npow_pos by exact Hp; reflexivity |].
  split; [intros Hz; unfold conv; rewrite npow_zero by lra; ring |].
  split; [apply clamp_sub_below |].
  split; [apply clamp_sub_above |].
  apply Rle_not_lt. apply clamp_sub_nonneg.
Qed.

Lemma two_le_pow (n : nat) : (1 <= n)%nat -> 2 <= 2 ^ n.
Proof.
  intros H. replace 2 with (2 ^ 1) at 1 by ring. apply Rle_pow; [lra | exact H].
Qed.

Lemma toConcentration_clamped_witness :
  exists C_obs : list R,
    toConcentration [2; 1; 0] = Ok C_obs /\
    length C_obs = 3%nat /\
    forall i : nat, (i < 3)%nat ->
      let conv := fun e => 0.000013 * npow e 1.161074 * 10000 in
      let base := conv (nth 1 [2; 1; 0] 0) in
      (0 < nth i [2; 1; 0] 0 ->
       conv (nth i [2; 1; 0] 0)
       = 0.000013 * Rpower (nth i [2; 1; 0] 0) 1.161074 * 10000) /\
      (nth i [2; 1; 0] 0 = 0 -> conv (nth i [2; 1; 0] 0) = 0) /\
      (conv (nth i [2; 1; 0] 0) < base -> nth i C_obs 0 = 0) /\
      (base <= conv (nth i [2; 1; 0] 0) ->
       nth i C_obs 0 = conv (nth i [2; 1; 0] 0) - base) /\
      ~ nth i C_obs 0 < 0.
Proof.
  apply (toConcentration_clamped [2; 1; 0]); [simpl; lia |].
  assert (H := two_le_pow 880 ltac:(lia)).
  repeat constructor; lra.
Defined.

(** ** First index above a threshold *)

Section FirstIndex.

Variable f : R -> bool.

Lemma first_from_none (C : list R) (k : nat) :
  (forall c, In c C -> f c = false) ->
  item0 (nonzero_from k (map f C)) = Raise IndexError.
Proof.
  revert k. induction C as [| c rest IH]; intros k H; simpl.
  - reflexivity.
  - rewrite (H c) by (left; reflexivity).
    apply IH. intros y Hy. apply H. right. exact Hy.
Qed.

Lemma first_from_some (C : list R) (k j : nat) :
  (j < length C)%nat -> f (nth j C 0) = true ->
  exists i : nat,
    item0 (nonzero_from k (map f C)) = Ok (k + i)%nat /\
    (i <= j)%nat /\ f (nth i C 0) = true /\
    forall m : nat, (m < i)%nat -> f (nth m C 0) = false.
Proof.
  revert k j. induction C as [| c rest IH]; intros k j Hj Hf; simpl in Hj.
  - lia.
  - simpl. destruct (f c) eqn:Ec.
    + exists 0%nat. simpl. rewrite Nat.add_0_r.
      repeat split; [lia | exact Ec | intros m Hm; lia].
    + destruct j as [| j'].
      * simpl in Hf. congruence.
      * simpl in Hf.
        destruct (IH (S k) j' ltac:(lia) Hf) as (i & Hi & Hle & Hfi & Hmin).
        exists (S i). simpl.
        rewrite Hi. split; [f_equal; lia |].
        split; [lia |]. split; [exact Hfi |].
        intros m Hm. destruct m as [| m']; [exact Ec | apply Hmin; lia].
Qed.

Lemma first_from_cases (C : list R) (k : nat) :
  (item0 (nonzero_from k (map f C)) = Raise IndexError /\
   forall c, In c C -> f c = false)
  \/
  (exists i : nat,
     item0 (nonzero_from k (map f C)) = Ok (k + i)%nat /\
     (i < length C)%nat /\ f (nth i C 0) = true /\
     forall m : nat, (m < i)%nat -> f (nth m C 0) = false).
Proof.
  revert k. induction C as [| c rest IH]; intros k; simpl.
  - left. split; [reflexivity | intros c []].
  - destruct (f c) eqn:Ec.
    + right. exists 0%nat. simpl. rewrite Nat.add_0_r.
      repeat split; [lia | exact Ec | intros m Hm; lia].
    + destruct (IH (S k)) as [[Hr Hall] | (i & Hi & Hlt & Hfi & Hmin)].
      * left. split; [exact Hr |].
        intros y [<- | Hy]; [exact Ec | apply Hall; exact Hy].
      * right. exists (S i). simpl. rewrite Hi.
        split; [f_equal; lia |]. split; [lia |]. split; [exact Hfi |].
        intros m Hm. destruct m as [| m']; [exact Ec | apply Hmin; lia].
Qed.

Lemma nonzero_from_In (C : list R) (k i : nat) :
  In i (nonzero_from k (map f C)) <->
  exists j : nat, i = (k + j)%nat /\ (j < length C)%nat /\ f (nth j C 0) = true.
Proof.
  revert k. induction C as [| c rest IH]; intros k; simpl.
  - split; [intros [] | intros (j & _ & Hj & _); lia].
  - assert (Hrest : In i (nonzero_from (S k) (map f rest)) <->
                    exists j, i = (k + S j)%nat /\ (j < length rest)%nat
                              /\ f (nth j rest 0) = true).
    { rewrite IH. split; intros (j & E & Hj & Hf); exists j;
        (split; [lia | split; assumption]). }
    destruct (f c) eqn:Ec; simpl; rewrite ?Hrest.
    + split.
      * intros [<- | (j & E & Hj & Hf)].
        -- exists 0%nat. repeat split; [lia | lia | exact Ec].
        -- exists (S j). repeat split; [exact E | lia | exact Hf].
      * intros (j & E & Hj & Hf). destruct j as [| j'].
        -- left. lia.
        -- right. exists j'. repeat split; [exact E | lia | exact Hf].
    + split.
      * intros (j & E & Hj & Hf). exists (S j). repeat split; [exact E | lia | exact Hf].
      * intros (j & E & Hj & Hf). destruct j as [| j'].
        -- simpl in Hf. congruence.
        -- exists j'. repeat split; [exact E | lia | exact Hf].
Qed.

End FirstIndex.

Lemma first_above_Raise (C : list R) (thr : R) :
  (forall c, In c C -> ~ c > thr) -> first_above C thr = Raise IndexError.
Proof.
  intros H. unfold first_above, nonzero. apply first_from_none.
  intros c Hc. apply Rgtb_false. apply H. exact Hc.
Qed.

Lemma first_above_error (C : list R) (thr : R) (e : exn) :
  first_above C thr = Raise e -> e = IndexError /\ forall c, In c C -> ~ c > thr.
Proof.
  intros H. unfold first_above, nonzero in H.
  destruct (first_from_cases (fun c => Rgtb c thr) C 0)
    as [[Hr Hall] | (i & Hi & _)].
  - rewrite Hr in H. split; [congruence |].
    intros c Hc Hgt. specialize (Hall c Hc). apply Rgtb_false_iff in Hall. lra.
  - rewrite Hi in H. discriminate.
Qed.

Lemma first_above_Ok (C : list R) (thr : R) (i : nat) :
  first_above C thr = Ok i <->
  (i < length C)%nat /\ nth i C 0 > thr /\
  forall m : nat, (m < i)%nat -> nth m C 0 <= thr.
Proof.
  unfold first_above, nonzero. split.
  - intros H.
    destruct (first_from_cases (fun c => Rgtb c thr) C 0)
      as [[Hr _] | (j & Hj & Hlt & Hf & Hmin)].
    + rewrite Hr in H. discriminate.
    + rewrite Hj in H. injection H as <-. simpl.
      split; [exact Hlt |]. split; [apply Rgtb_true_iff; exact Hf |].
      intros m Hm. apply Rgtb_false_iff. apply Hmin. exact Hm.
  - intros (Hlt & Hgt & Hmin).
    destruct (first_from_some (fun c => Rgtb c thr) C 0 i Hlt
                (Rgtb_true _ _ Hgt)) as (j & Hj & Hle & Hf & _).
    rewrite Hj. simpl. f_equal.
    destruct (Nat.eq_dec j i) as [E | NE]; [exact E |].
    assert (Hlo : nth j C 0 <= thr) by (apply Hmin; lia).
    apply Rgtb_true_iff in Hf. lra.
Qed.

Lemma first_above_exists (C : list R) (thr : R) (j : nat) :
  (j < length C)%nat -> nth j C 0 > thr ->
  exists i : nat, first_above C thr = Ok i /\ (i <= j)%nat.
Proof.
  intros Hlt Hgt.
  destruct (first_from_some (fun c => Rgtb c thr) C 0 j Hlt (Rgtb_true _ _ Hgt))
    as (i & Hi & Hle & _).
  exists i. split; [exact Hi | exact Hle].
Qed.

(** ** Maximum and its first index *)

Lemma fold_left_Rmax_ge (rest : list R) (c : R) :
  c <= fold_left Rmax rest c /\
  forall y, In y rest -> y <= fold_left Rmax rest c.
Proof.
  revert c. induction rest as [| r rest IH]; intros c; simpl.
  - split; [lra | intros y []].
  - destruct (IH (Rmax c r)) as [H1 H2].
    assert (Hl := Rmax_l c r). assert (Hr := Rmax_r c r).
    split; [lra |].
    intros y [<- | Hy]; [lra | apply H2; exact Hy].
Qed.

Lemma amax_upper (C : list R) (m : R) :
  amax C = Ok m -> forall c, In c C -> c <= m.
Proof.
  destruct C as [| c0 rest]; simpl; intros H; [discriminate |].
  injection H as <-.
  destruct (fold_left_Rmax_ge rest c0) as [H1 H2].
  intros c [<- | Hc]; [exact H1 | apply H2; exact Hc].
Qed.

Lemma amax_nonempty (C : list R) : C <> [] -> is_ok (amax C).
Proof.
  destruct C as [| c rest]; [congruence |]. intros _. eexists. reflexivity.
Qed.

(** The scan of [argmax] keeps the first index of the running maximum. *)
Lemma argmax_from_spec (rest pre : list R) (bi : nat) (b : R) :
  (bi < length pre)%nat -> nth bi pre 0 = b ->
  let r := argmax_from (length pre) bi b rest in
  (r < length (pre ++ rest))%nat /\
  nth r (pre ++ rest) 0 = fold_left Rmax rest b.
Proof.
  revert pre bi b. induction rest as [| c rest IH]; intros pre bi b Hbi Hb; simpl.
  - rewrite app_nil_r. split; assumption.
  - replace (pre ++ c :: rest) with ((pre ++ [c]) ++ rest)
      by (rewrite <- app_assoc; reflexivity).
    replace (S (length pre)) with (length (pre ++ [c]))
      by (rewrite length_app; simpl; lia).
    unfold Rgtb. destruct (Rgt_dec c b) as [Hgt | Hle].
    + rewrite (Rmax_right b c) by lra.
      apply IH.
      * rewrite length_app. simpl. lia.
      * rewrite app_nth2 by lia. rewrite Nat.sub_diag. reflexivity.
    + rewrite (Rmax_left b c) by lra.
      apply IH.
      * rewrite length_app. simpl. lia.
      * rewrite app_nth1 by exact Hbi. exact Hb.
Qed.

Lemma argmax_attains (C : list R) (m : R) :
  amax C = Ok m ->
  exists ip : nat, argmax C = Ok ip /\ (ip < length C)%nat /\ nth ip C 0 = m.
Proof.
  destruct C as [| c rest]; simpl; intros H; [discriminate |].
  injection H as <-.
  exists (argmax_from 1 0 c rest). split; [reflexivity |].
  apply (argmax_from_spec rest [c] 0 c); simpl; [lia | reflexivity].
Qed.

(** ** Bounds of the rising front *)

Lemma between_In (t : list R) (lo hi : R) (i : nat) :
  In i (between t lo hi) <->
  (i < length t)%nat /\ lo <= nth i t 0 <= hi.
Proof.
  unfold between, nonzero.
  unfold in_window.
  rewrite (nonzero_from_In (fun ti => Rgeb ti lo && Rleb ti hi) t 0 i).
  split.
  - intros (j & -> & Hj & Hf). simpl. split; [exact Hj |].
    apply andb_true_iff in Hf. destruct Hf as [H1 H2].
    unfold Rgeb in H1. unfold Rleb in H2.
    destruct (Rge_dec (nth j t 0) lo); [| discriminate].
    destruct (Rle_dec (nth j t 0) hi); [| discriminate]. lra.
  - intros (Hi & H1 & H2). exists i. split; [reflexivity |]. split; [exact Hi |].
    rewrite Rgeb_true by lra. rewrite Rleb_true by lra. reflexivity.
Qed.

(** Below the peak: the two first crossings exist and are ordered. *)
Lemma bounds_below_peak (C : list R) (Cmax lo hi : R) :
  amax C = Ok Cmax -> 0 < Cmax -> 0 < lo -> lo <= hi -> hi < 1 ->
  exists i1 i2 ip : nat,
    argmax C = Ok ip /\
    nth ip C 0 = Cmax /\
    first_above C (lo * Cmax) = Ok i1 /\
    first_above C (hi * Cmax) = Ok i2 /\
    (i1 <= i2)%nat /\ (i2 <= ip)%nat /\ (ip < length C)%nat.
Proof.
  intros Hmax Hpos Hlo Hle Hhi.
  destruct (argmax_attains C Cmax Hmax) as (ip & Hip & Hlt & Hnth).
  assert (Hgt2 : nth ip C 0 > hi * Cmax) by (rewrite Hnth; nra).
  destruct (first_above_exists C (hi * Cmax) ip Hlt Hgt2) as (i2 & Hi2 & Hle2).
  assert (Hi2' := Hi2). apply first_above_Ok in Hi2'.
  destruct Hi2' as (Hlt2 & Habove2 & _).
  assert (Hgt12 : nth i2 C 0 > lo * Cmax) by nra.
  destruct (first_above_exists C (lo * Cmax) i2 Hlt2 Hgt12) as (i1 & Hi1 & Hle1).
  exists i1, i2, ip. repeat split; assumption.
Qed.

(** Below the peak, for any two ordered thresholds. *)
Lemma bounds_below_thresholds (C : list R) (Cmax thr_lo thr_hi : R) :
  amax C = Ok Cmax -> thr_lo <= thr_hi -> thr_hi < Cmax ->
  exists i1 i2 ip : nat,
    argmax C = Ok ip /\
    nth ip C 0 = Cmax /\
    first_above C thr_lo = Ok i1 /\
    first_above C thr_hi = Ok i2 /\
    (i1 <= i2)%nat /\ (i2 <= ip)%nat /\ (ip < length C)%nat.
Proof.
  intros Hmax Hle Hhi.
  destruct (argmax_attains C Cmax Hmax) as (ip & Hip & Hlt & Hnth).
  assert (Hgt2 : nth ip C 0 > thr_hi) by (rewrite Hnth; lra).
  destruct (first_above_exists C thr_hi ip Hlt Hgt2) as (i2 & Hi2 & Hle2).
  assert (Hi2' := Hi2). apply first_above_Ok in Hi2'.
  destruct Hi2' as (Hlt2 & Habove2 & _).
  assert (Hgt12 : nth i2 C 0 > thr_lo) by lra.
  destruct (first_above_exists C thr_lo i2 Hlt2 Hgt12) as (i1 & Hi1 & Hle1).
  exists i1, i2, ip. repeat split; assumption.
Qed.

(** C10, as the code has it.  The two lookups compare the samples with the
    thresholds the machine computes from the fractions and the peak.  When
    the maximum of the series is positive and the two computed thresholds are
    ordered and strictly below the peak, the sample at the argmax exceeds
    both, both first-crossing lookups succeed, and
    [lowerBoundIndex <= upperBoundIndex <= argmax]; on non-decreasing times
    the window between the two bound times then contains the lower bound
    index.  The exact products [lowerFraction * peak] and
    [upperFraction * peak] with [0 < lowerFraction <= upperFraction < 1] are
    such thresholds. *)
Theorem front_bounds_exist (C : list R) (Cmax : R) :
  amax C = Ok Cmax -> 0 < Cmax ->
  (forall thr_lo thr_hi : R,
     thr_lo <= thr_hi -> thr_hi < Cmax ->
     exists i1 i2 ip : nat,
       argmax C = Ok ip /\
       nth ip C 0 > thr_lo /\ nth ip C 0 > thr_hi /\
       first_above C thr_lo = Ok i1 /\
       first_above C thr_hi = Ok i2 /\
       (i1 <= i2)%nat /\ (i2 <= ip)%nat /\ (ip < length C)%nat /\
       forall t : list R,
         length t = length C ->
         (forall a b : nat, (a <= b)%nat -> (b < length t)%nat ->
                            nth a t 0 <= nth b t 0) ->
         In i1 (between t (nth i1 t 0) (nth i2 t 0))) /\
  (forall lo hi : R,
     0 < lo -> lo <= hi -> hi < 1 -> lo * Cmax <= hi * Cmax /\ hi * Cmax < Cmax).
Proof.
  intros Hmax Hpos. split.
  - intros thr_lo thr_hi Hle Hhi.
    destruct (bounds_below_thresholds C Cmax thr_lo thr_hi Hmax Hle Hhi)
      as (i1 & i2 & ip & Hip & Hnth & H1 & H2 & L1 & L2 & L3).
    exists i1, i2, ip.
    split; [exact Hip |].
    split; [rewrite Hnth; lra |]. split; [rewrite Hnth; lra |].
    repeat (split; [assumption |]).
    intros t Hlen Hmono. apply between_In.
    split; [lia |]. split; [lra |]. apply Hmono; lia.
  - intros lo hi Hlo Hle Hhi. split; nra.
Qed.

Lemma front_bounds_exist_witness :
  (forall thr_lo thr_hi : R,
     thr_lo <= thr_hi -> thr_hi < 3 ->
     exists i1 i2 ip : nat,
       argmax [1; 2; 3] = Ok ip /\
       nth ip [1; 2; 3] 0 > thr_lo /\ nth ip [1; 2; 3] 0 > thr_hi /\
       first_above [1; 2; 3] thr_lo = Ok i1 /\
       first_above [1; 2; 3] thr_hi = Ok i2 /\
       (i1 <= i2)%nat /\ (i2 <= ip)%nat /\ (ip < length [1; 2; 3])%nat /\
       forall t : list R,
         length t = length [1; 2; 3] ->
         (forall a b : nat, (a <= b)%nat -> (b < length t)%nat ->
                            nth a t 0 <= nth b t 0) ->
         In i1 (between t (nth i1 t 0) (nth i2 t 0))) /\
  (forall lo hi : R,
     0 < lo -> lo <= hi -> hi < 1 -> lo * 3 <= hi * 3 /\ hi * 3 < 3).
Proof.
  apply (front_bounds_exist [1; 2; 3] 3); try lra.
  simpl. Rdecide. reflexivity.
Defined.

(** C10, refuted as stated, on binary64 numbers: the series [0, 5e-324] has
    the positive peak [5e-324], the smallest positive float64.  The product
    [0.999 * peak] rounds to the peak itself, no sample exceeds it, and the
    upper lookup raises [IndexError]; the lower threshold [0.5 * peak] rounds
    to zero and the lower lookup returns index 1. *)
#[warnings="-inexact-float"]
Lemma subnormal_peak_no_upper_bound :
  let peak := 0x1p-1074%float in
  let C := [0%float; peak] in
  amax64 C = Ok peak /\
  PrimFloat.ltb 0%float peak = true /\
  PrimFloat.mul 0.5%float peak = 0%float /\
  PrimFloat.mul 0.999%float peak = peak /\
  first_above64 C (PrimFloat.mul 0.5%float peak) = Ok 1%nat /\
  first_above64 C (PrimFloat.mul 0.999%float peak) = Raise IndexError.
Proof.
  cbv zeta. repeat split; vm_compute; reflexivity.
Qed.

(** ** Errors of the characterizer *)

Lemma amax_error (C : list R) (e : exn) : amax C = Raise e -> e = ValueError.
Proof. destruct C; simpl; intros H; congruence. Qed.

Lemma argmax_error (C : list R) (e : exn) : argmax C = Raise e -> e = ValueError.
Proof. destruct C; simpl; intros H; congruence. Qed.

Lemma take_error (l : list R) (idx : list nat) (e : exn) :
  take l idx = Raise e -> e = IndexError.
Proof.
  induction idx as [| i rest IH]; simpl; [discriminate |].
  destruct (getitem l i) eqn:E; simpl.
  - destruct (take l rest); simpl; [discriminate |].
    intros H. apply IH. congruence.
  - intros H. apply (getitem_error l i). congruence.
Qed.

Lemma ols_error (ts cs : list R) (e : exn) : ols ts cs = Raise e -> e = ValueError.
Proof.
  unfold ols. destruct ts; [congruence |].
  destruct (Req_dec_T _ _); discriminate.
Qed.

(** Splitting a sequence of two statements. *)
Lemma bind_Raise_inv {X Y : Type} (m : result X) (k : X -> result Y) (e : exn) :
  bind m k = Raise e -> m = Raise e \/ exists a, m = Ok a /\ k a = Raise e.
Proof.
  destruct m as [a | e']; simpl; intros H.
  - right. exists a. split; [reflexivity | exact H].
  - left. congruence.
Qed.

Ltac split_bind H :=
  let a := fresh "a" in
  let Ha := fresh "Ha" in
  apply bind_Raise_inv in H; destruct H as [H | (a & Ha & H)].

Lemma front_fit_error (t C : list R) (lo hi Cmax : R) (e : exn) :
  front_fit t C lo hi Cmax = Raise e -> e = IndexError \/ e = ValueError.
Proof.
  unfold front_fit. intros H.
  split_bind H; [left; apply (first_above_error _ _ _ H) |].
  split_bind H; [left; apply (first_above_error _ _ _ H) |].
  split_bind H; [left; apply (getitem_error _ _ _ H) |].
  split_bind H; [left; apply (getitem_error _ _ _ H) |].
  split_bind H; [left; apply (take_error _ _ _ H) |].
  split_bind H; [left; apply (take_error _ _ _ H) |].
  split_bind H; [right; apply (ols_error _ _ _ H) | discriminate].
Qed.

Lemma characterize_error (t C : list R) (lo hi : R) (e : exn) :
  characterize t C lo hi = Raise e -> e = IndexError \/ e = ValueError.
Proof.
  unfold characterize. intros H.
  split_bind H; [right; apply (amax_error _ _ H) |].
  split_bind H; [left; apply (first_above_error _ _ _ H) |].
  split_bind H; [left; apply (getitem_error _ _ _ H) |].
  split_bind H; [right; apply (argmax_error _ _ H) |].
  split_bind H; [left; apply (getitem_error _ _ _ H) |].
  split_bind H; [apply (front_fit_error _ _ _ _ _ _ H) | discriminate].
Qed.

Lemma front_fit_no_crossing (t C : list R) (lo hi Cmax : R) :
  (forall c, In c C -> ~ c > lo * Cmax) ->
  front_fit t C lo hi Cmax = Raise IndexError.
Proof.
  intros H. unfold front_fit. rewrite (first_above_Raise C _ H). reflexivity.
Qed.

(** C4, as the code has it.  When no sample strictly exceeds [f * peak], the
    first-index lookup raises numpy's [IndexError] (element 0 of an empty
    index array); so does the whole front block, and so does the
    characterization of the observed curve.  Nothing is returned, and in
    particular no zero slope. *)
Theorem bound_search_IndexError (t C : list R) (f hi peak : R) :
  amax C = Ok peak ->
  (forall c, In c C -> ~ c > f * peak) ->
  first_above C (f * peak) = Raise IndexError /\
  front_fit t C f hi peak = Raise IndexError /\
  characterize t C f hi = Raise IndexError.
Proof.
  intros Hmax Hnone.
  split; [apply first_above_Raise; exact Hnone |].
  split; [apply front_fit_no_crossing; exact Hnone |].
  unfold characterize. rewrite Hmax. cbn [bind].
  destruct (first_above C (0.01 * peak)) as [istart | e] eqn:E1; cbn [bind].
  2:{ f_equal. apply (first_above_error _ _ _ E1). }
  destruct (getitem t istart) as [tstart | e] eqn:E2; cbn [bind].
  2:{ f_equal. apply (getitem_error _ _ _ E2). }
  destruct (argmax_attains C peak Hmax) as (ip & Hip & _). rewrite Hip. cbn [bind].
  destruct (getitem t ip) as [tpeak | e] eqn:E3; cbn [bind].
  2:{ f_equal. apply (getitem_error _ _ _ E3). }
  rewrite (front_fit_no_crossing t C f hi peak Hnone). reflexivity.
Qed.

Lemma bound_search_IndexError_witness :
  first_above [0; 0; 0] (0.5 * 0) = Raise IndexError /\
  front_fit [1; 2; 3] [0; 0; 0] 0.5 0.999 0 = Raise IndexError /\
  characterize [1; 2; 3] [0; 0; 0] 0.5 0.999 = Raise IndexError.
Proof.
  apply (bound_search_IndexError [1; 2; 3] [0; 0; 0] 0.5 0.999 0).
  - simpl. Rdecide. reflexivity.
  - intros c Hc. simpl in Hc. intuition lra.
Defined.

(** C4, refuted as stated: a flat series, none of whose samples exceeds half
    its peak, fails, but with [IndexError] and not with
    [BoundNotFoundError]. *)
Lemma flat_curve_not_BoundNotFoundError :
  amax [0; 0; 0] = Ok 0 /\
  (forall c, In c [0; 0; 0] -> ~ c > 0.5 * 0) /\
  first_above [0; 0; 0] (0.5 * 0) = Raise IndexError /\
  first_above [0; 0; 0] (0.5 * 0) <> Raise BoundNotFoundError /\
  characterize [1; 2; 3] [0; 0; 0] 0.5 0.999 <> Raise BoundNotFoundError.
Proof.
  assert (Hmax : amax [0; 0; 0] = Ok 0) by (simpl; Rdecide; reflexivity).
  assert (Hnone : forall c, In c [0; 0; 0] -> ~ c > 0.5 * 0)
    by (intros c Hc; simpl in Hc; intuition lra).
  split; [exact Hmax |]. split; [exact Hnone |].
  assert (H1 : first_above [0; 0; 0] (0.5 * 0) = Raise IndexError)
    by (apply first_above_Raise; exact Hnone).
  split; [exact H1 |]. split; [rewrite H1; discriminate |].
  unfold characterize. rewrite Hmax. cbn [bind].
  rewrite first_above_Raise; [discriminate |].
  intros c Hc. simpl in Hc. intuition lra.
Qed.

(** ** Least squares *)

Lemma sum_squares_nonneg (d : list (R * R)) (g : R * R -> R) :
  0 <= Rsum (map (fun p => g p * g p) d).
Proof.
  induction d as [| p rest IH]; simpl; [lra |].
  assert (0 <= g p * g p) by nra. lra.
Qed.

Lemma sum_squares_zero (d : list (R * R)) (m : R) :
  Rsum (map (fun p => (fst p - m) * (fst p - m)) d) = 0 ->
  forall p, In p d -> fst p = m.
Proof.
  induction d as [| q rest IH]; simpl; [intros _ p [] |].
  intros H.
  assert (H0 := sum_squares_nonneg rest (fun p => fst p - m)).
  cbv beta in H0.
  assert (Hq : 0 <= (fst q - m) * (fst q - m)) by apply Rle_0_sqr.
  intros p [<- | Hp].
  - nra.
  - apply IH; [| exact Hp]. lra.
Qed.

Section Sums.

Variable d : list (R * R).

Let n : R := INR (length d).
Let St : R := Rsum (map fst d).
Let Sc : R := Rsum (map snd d).
Let Stt : R := Rsum (map (fun p => fst p * fst p) d).
Let Stc : R := Rsum (map (fun p => fst p * snd p) d).

Lemma sum_sq_dev (m : R) :
  Rsum (map (fun p => (fst p - m) * (fst p - m)) d)
  = Stt - 2 * m * St + n * m * m.
Proof.
  subst n St Stt. induction d as [| p rest IH].
  - simpl. ring.
  - cbn [map Rsum fold_right length]. fold (Rsum (map fst rest)).
    unfold Rsum in *. rewrite IH. rewrite S_INR. ring.
Qed.

Lemma sum_cross_dev (mt mc : R) :
  Rsum (map (fun p => (fst p - mt) * (snd p - mc)) d)
  = Stc - mc * St - mt * Sc + n * mt * mc.
Proof.
  subst n St Sc Stc. induction d as [| p rest IH].
  - simpl. ring.
  - cbn [map Rsum fold_right length]. unfold Rsum in *.
    rewrite IH. rewrite S_INR. ring.
Qed.

Lemma sum_resid (a b : R) :
  Rsum (map (fun p => snd p - (a + b * fst p)) d) = Sc - n * a - b * St.
Proof.
  subst n St Sc. induction d as [| p rest IH].
  - simpl. ring.
  - cbn [map Rsum fold_right length]. unfold Rsum in *.
    rewrite IH. rewrite S_INR. ring.
Qed.

Lemma sum_resid_t (a b : R) :
  Rsum (map (fun p => (snd p - (a + b * fst p)) * fst p) d)
  = Stc - a * St - b * Stt.
Proof.
  subst St Stt Stc. induction d as [| p rest IH].
  - simpl. ring.
  - cbn [map Rsum fold_right length]. unfold Rsum in *.
    rewrite IH. ring.
Qed.

(** The residual sum of squares of any line, around a given line. *)
Lemma ssr_shift (a b a' b' : R) :
  Rsum (map (fun p => (snd p - (a' + b' * fst p)) * (snd p - (a' + b' * fst p))) d)
  = Rsum (map (fun p => (snd p - (a + b * fst p)) * (snd p - (a + b * fst p))) d)
    + 2 * ((a - a') * Rsum (map (fun p => snd p - (a + b * fst p)) d)
           + (b - b') * Rsum (map (fun p => (snd p - (a + b * fst p)) * fst p) d))
    + Rsum (map (fun p => ((a - a') + (b - b') * fst p)
                          * ((a - a') + (b - b') * fst p)) d).
Proof.
  induction d as [| p rest IH].
  - simpl. ring.
  - cbn [map Rsum fold_right]. unfold Rsum in *. rewrite IH. ring.
Qed.

Lemma sums_constant_t (m : R) :
  (forall p, In p d -> fst p = m) ->
  St = n * m /\ Stt = n * m * m /\ Stc = m * Sc.
Proof.
  subst n St Sc Stt Stc. induction d as [| q rest IH]; intros H.
  - simpl. repeat split; ring.
  - cbn [map Rsum fold_right length]. unfold Rsum in *.
    destruct IH as (E1 & E2 & E3); [intros p Hp; apply H; right; exact Hp |].
    rewrite E1, E2, E3, S_INR.
    rewrite (H q (or_introl eq_refl)).
    repeat split; ring.
Qed.

End Sums.

Lemma map_fst_combine_eq (ts cs : list R) :
  length ts = length cs -> map fst (combine ts cs) = ts.
Proof.
  revert cs. induction ts as [| t ts IH]; intros [| c cs] H; simpl in *;
    try reflexivity; try discriminate.
  f_equal. apply IH. lia.
Qed.

Lemma map_snd_combine_eq (ts cs : list R) :
  length ts = length cs -> map snd (combine ts cs) = cs.
Proof.
  revert cs. induction ts as [| t ts IH]; intros [| c cs] H; simpl in *;
    try reflexivity; try discriminate.
  f_equal. apply IH. lia.
Qed.

Lemma length_combine_eq (ts cs : list R) :
  length ts = length cs -> length (combine ts cs) = length ts.
Proof.
  intros H. rewrite length_combine. lia.
Qed.

(** The line returned by the fit satisfies the two normal equations. *)
Lemma ols_normal_equations (ts cs : list R) (a b : R) :
  length ts = length cs ->
  ols ts cs = Ok (a, b) ->
  Rsum (map (fun p => snd p - (a + b * fst p)) (combine ts cs)) = 0 /\
  Rsum (map (fun p => (snd p - (a + b * fst p)) * fst p) (combine ts cs)) = 0.
Proof.
  intros Hlen Hols.
  rewrite sum_resid, sum_resid_t.
  unfold ols in Hols. destruct ts as [| t0 ts']; [discriminate |].
  set (ts := t0 :: ts') in *.
  assert (Hx := sum_sq_dev (combine ts cs) (mean ts)).
  assert (Hy := sum_cross_dev (combine ts cs) (mean ts) (mean cs)).
  assert (Hxx : Sxx ts = Rsum (map (fun p => (fst p - mean ts) * (fst p - mean ts))
                                   (combine ts cs))).
  { unfold Sxx.
    rewrite <- (map_map fst (fun t => (t - mean ts) * (t - mean ts))).
    rewrite (map_fst_combine_eq ts cs Hlen). reflexivity. }
  fold (Sxy ts cs) in Hy. rewrite <- Hxx in Hx.
  assert (Hmt : mean ts = Rsum ts / INR (length ts)) by reflexivity.
  assert (Hmc : mean cs = Rsum cs / INR (length ts))
    by (unfold mean; rewrite Hlen; reflexivity).
  rewrite (length_combine_eq ts cs Hlen) in *.
  rewrite (map_fst_combine_eq ts cs Hlen) in *.
  rewrite (map_snd_combine_eq ts cs Hlen) in *.
  assert (Hn : INR (length ts) <> 0).
  { apply not_0_INR. unfold ts. simpl. discriminate. }
  set (n := INR (length ts)) in *.
  set (St := Rsum ts) in *. set (Sc := Rsum cs) in *.
  set (Stt := Rsum (map (fun p => fst p * fst p) (combine ts cs))) in *.
  set (Stc := Rsum (map (fun p => fst p * snd p) (combine ts cs))) in *.
  destruct (Req_dec_T (Sxx ts) 0) as [Hz | Hnz].
  - (* all times equal: least-norm solution *)
    injection Hols as <- <-.
    rewrite Hxx in Hz.
    destruct (sums_constant_t (combine ts cs) (mean ts)
                (sum_squares_zero (combine ts cs) (mean ts) Hz))
      as (E1 & E2 & E3).
    rewrite (length_combine_eq ts cs Hlen) in *.
    rewrite (map_fst_combine_eq ts cs Hlen) in *.
    rewrite (map_snd_combine_eq ts cs Hlen) in *.
    fold n St Sc Stt Stc in E1, E2, E3.
    assert (Hpos : 1 + mean ts * mean ts <> 0) by nra.
    rewrite E1, E2, E3, Hmc. fold n Sc. split; field; split; assumption.
  - injection Hols as <- <-.
    assert (E1 : Sxy ts cs = Stc - mean cs * St).
    { rewrite Hy, Hmt, Hmc. fold n St Sc. field. exact Hn. }
    assert (E2 : Sxx ts = Stt - mean ts * St).
    { rewrite Hx, Hmt. fold n St. field. exact Hn. }
    assert (E3 : Stc = Sxy ts cs + mean cs * St) by lra.
    assert (E4 : Stt = Sxx ts + mean ts * St) by lra.
    split.
    + rewrite Hmc, Hmt. fold n St Sc. field. split; assumption.
    + rewrite E3, E4. field. exact Hnz.
Qed.

Lemma ols_minimizes (ts cs : list R) (a b : R) :
  length ts = length cs ->
  ols ts cs = Ok (a, b) ->
  forall a' b' : R, ssr ts cs a b <= ssr ts cs a' b'.
Proof.
  intros Hlen Hols a' b'.
  destruct (ols_normal_equations ts cs a b Hlen Hols) as [N0 N1].
  unfold ssr. rewrite (ssr_shift (combine ts cs) a b a' b'). rewrite N0, N1.
  assert (H := sum_squares_nonneg (combine ts cs)
                 (fun p => (a - a') + (b - b') * fst p)).
  lra.
Qed.

Lemma ols_defined (ts cs : list R) : ts <> [] -> is_ok (ols ts cs).
Proof.
  destruct ts as [| t ts]; [congruence |]. intros _. unfold ols.
  destruct (Req_dec_T _ _); eexists; reflexivity.
Qed.

(** ** The window of the rising front *)

Lemma take_length (l : list R) (idx : list nat) (v : list R) :
  take l idx = Ok v -> length v = length idx.
Proof.
  revert v. induction idx as [| i rest IH]; simpl; intros v H.
  - injection H as <-. reflexivity.
  - destruct (getitem l i); simpl in H; [| discriminate].
    destruct (take l rest) as [vs |]; simpl in H; [| discriminate].
    injection H as <-. simpl. f_equal. apply IH. reflexivity.
Qed.

(** Indexing an array with the index array of a mask keeps the entries under
    the true positions of the mask. *)
Lemma take_nonzero_from (mask : list bool) (pre rest : list R) :
  length rest = length mask ->
  take (pre ++ rest) (nonzero_from (length pre) mask)
  = Ok (map snd (filter fst (combine mask rest))).
Proof.
  revert pre rest. induction mask as [| b mask IH]; intros pre rest Hlen.
  - reflexivity.
  - destruct rest as [| r rest]; [discriminate |]. simpl in Hlen.
    assert (Hnext : take (pre ++ r :: rest) (nonzero_from (S (length pre)) mask)
                    = Ok (map snd (filter fst (combine mask rest)))).
    { replace (pre ++ r :: rest) with ((pre ++ [r]) ++ rest)
        by (rewrite <- app_assoc; reflexivity).
      replace (S (length pre)) with (length (pre ++ [r]))
        by (rewrite length_app; simpl; lia).
      apply IH. lia. }
    destruct b; cbn [nonzero_from combine filter fst map snd].
    + cbn [take]. unfold getitem.
      rewrite nth_error_app2 by lia. rewrite Nat.sub_diag. cbn [nth_error bind].
      rewrite Hnext. reflexivity.
    + exact Hnext.
Qed.

Lemma take_mask (g : R -> bool) (t l : list R) :
  length l = length t ->
  take l (nonzero (map g t)) = Ok (map snd (filter fst (combine (map g t) l))).
Proof.
  intros Hlen. unfold nonzero.
  apply (take_nonzero_from (map g t) [] l). rewrite length_map. exact Hlen.
Qed.

Lemma masked_pairs (g : R -> bool) (t C : list R) :
  length t = length C ->
  combine (map snd (filter fst (combine (map g t) t)))
          (map snd (filter fst (combine (map g t) C)))
  = filter (fun p => g (fst p)) (combine t C).
Proof.
  revert C. induction t as [| ti t IH]; intros [| c C] Hlen; simpl in *;
    try reflexivity; try discriminate.
  destruct (g ti); simpl; rewrite IH by lia; reflexivity.
Qed.

Lemma masked_none (g : R -> bool) (t l : list R) :
  (forall ti, In ti t -> g ti = false) ->
  map snd (filter fst (combine (map g t) l)) = [].
Proof.
  revert l. induction t as [| ti t IH]; intros l H; simpl; [reflexivity |].
  destruct l as [| v l]; [reflexivity |]. simpl.
  rewrite (H ti) by (left; reflexivity). simpl.
  apply IH. intros y Hy. apply H. right. exact Hy.
Qed.

Lemma in_window_true (lo hi ti : R) : in_window lo hi ti = true <-> lo <= ti <= hi.
Proof.
  unfold in_window, Rgeb, Rleb.
  destruct (Rge_dec ti lo), (Rle_dec ti hi); simpl; split; intros H;
    try reflexivity; try discriminate; lra.
Qed.

(** The front block when both bounds exist and the window is not empty. *)
Lemma front_fit_ok (t C : list R) (lo hi Cmax : R) (i1 i2 : nat) :
  length t = length C ->
  first_above C (lo * Cmax) = Ok i1 ->
  first_above C (hi * Cmax) = Ok i2 ->
  nth i1 t 0 <= nth i2 t 0 ->
  exists (wt wc : list R) (a b : R),
    front_fit t C lo hi Cmax
      = Ok (mkFront i1 i2 (nth i1 t 0) (nth i2 t 0) wt wc (a, b)) /\
    combine wt wc
      = filter (fun p => in_window (nth i1 t 0) (nth i2 t 0) (fst p)) (combine t C) /\
    length wt = length wc /\
    wt <> [] /\
    ols wt wc = Ok (a, b).
Proof.
  intros Hlen H1 H2 Hle.
  assert (L1 : (i1 < length C)%nat) by (apply first_above_Ok in H1; tauto).
  assert (L2 : (i2 < length C)%nat) by (apply first_above_Ok in H2; tauto).
  set (g := in_window (nth i1 t 0) (nth i2 t 0)).
  set (wt := map snd (filter fst (combine (map g t) t))).
  set (wc := map snd (filter fst (combine (map g t) C))).
  assert (Hpairs : combine wt wc = filter (fun p => g (fst p)) (combine t C))
    by (apply masked_pairs; exact Hlen).
  assert (Hin : In (nth i1 t 0, nth i1 C 0) (combine wt wc)).
  { rewrite Hpairs. apply filter_In. split.
    - rewrite <- (combine_nth t C i1 0 0 Hlen). apply nth_In.
      rewrite length_combine. lia.
    - simpl. apply in_window_true. lra. }
  assert (Hne : wt <> []).
  { intros E. rewrite E in Hin. simpl in Hin. exact Hin. }
  assert (Hwl : length wt = length wc).
  { assert (T1 : take t (nonzero (map g t)) = Ok wt) by (apply take_mask; reflexivity).
    assert (T2 : take C (nonzero (map g t)) = Ok wc)
      by (apply take_mask; symmetry; exact Hlen).
    rewrite (take_length _ _ _ T1), (take_length _ _ _ T2). reflexivity. }
  destruct (ols_defined wt wc Hne) as [[a b] Hols].
  exists wt, wc, a, b.
  split; [| repeat split; assumption].
  unfold front_fit. rewrite H1, H2. cbn [bind].
  rewrite !getitem_Ok by lia. cbn [bind].
  unfold between. fold g.
  rewrite (take_mask g t t eq_refl). cbn [bind]. fold wt.
  rewrite (take_mask g t C (eq_sym Hlen)). cbn [bind]. fold wc.
  rewrite Hols. reflexivity.
Qed.

(** The front block when the upper bound time lies before the lower bound
    time: no sample is selected and there is nothing to fit. *)
Lemma front_fit_empty_window (t C : list R) (lo hi Cmax : R) (i1 i2 : nat) :
  length t = length C ->
  first_above C (lo * Cmax) = Ok i1 ->
  first_above C (hi * Cmax) = Ok i2 ->
  nth i2 t 0 < nth i1 t 0 ->
  filter (fun p => in_window (nth i1 t 0) (nth i2 t 0) (fst p)) (combine t C) = [] /\
  front_fit t C lo hi Cmax = Raise ValueError.
Proof.
  intros Hlen H1 H2 Hlt.
  assert (L1 : (i1 < length C)%nat) by (apply first_above_Ok in H1; tauto).
  assert (L2 : (i2 < length C)%nat) by (apply first_above_Ok in H2; tauto).
  set (g := in_window (nth i1 t 0) (nth i2 t 0)).
  assert (Hg : forall ti, g ti = false).
  { intros ti. destruct (g ti) eqn:E; [| reflexivity].
    apply in_window_true in E. lra. }
  split.
  - rewrite <- (masked_pairs g t C Hlen).
    rewrite (masked_none g t t) by (intros; apply Hg). reflexivity.
  - unfold front_fit. rewrite H1, H2. cbn [bind].
    rewrite !getitem_Ok by lia. cbn [bind].
    unfold between. fold g.
    rewrite (take_mask g t t eq_refl). cbn [bind].
    rewrite (take_mask g t C (eq_sym Hlen)). cbn [bind].
    rewrite (masked_none g t t) by (intros; apply Hg). reflexivity.
Qed.

Lemma first_above_of_In (C : list R) (thr : R) :
  (exists c, In c C /\ c > thr) -> exists i : nat, first_above C thr = Ok i.
Proof.
  intros (c & Hin & Hgt).
  destruct (In_nth C c 0 Hin) as (j & Hj & Hnth).
  destruct (first_above_exists C thr j Hj) as (i & Hi & _); [rewrite Hnth; exact Hgt |].
  exists i. exact Hi.
Qed.

(** The front block in both orders of the bound times.  When some sample
    exceeds each threshold, the
    lower (upper) bound index is the first index whose sample exceeds
    [lowerFraction * peak] ([upperFraction * peak]); the rising front is
    exactly the pairs of the series whose time lies in the closed interval
    between the two bound times.  When the lower bound time does not exceed
    the upper bound time the front is not empty and the slope returned is the
    coefficient [b] of a line [a + b t] that minimises the sum of squared
    residuals over the front.  When the lower bound time exceeds the upper
    bound time the front is empty and the fit raises [ValueError]. *)
Lemma front_fit_window_cases (t C : list R) (lo hi Cmax : R) :
  length t = length C ->
  amax C = Ok Cmax ->
  (exists c, In c C /\ c > lo * Cmax) ->
  (exists c, In c C /\ c > hi * Cmax) ->
  exists i1 i2 : nat,
    ((i1 < length C)%nat /\ nth i1 C 0 > lo * Cmax /\
     forall m : nat, (m < i1)%nat -> nth m C 0 <= lo * Cmax) /\
    ((i2 < length C)%nat /\ nth i2 C 0 > hi * Cmax /\
     forall m : nat, (m < i2)%nat -> nth m C 0 <= hi * Cmax) /\
    let front :=
      filter (fun p => in_window (nth i1 t 0) (nth i2 t 0) (fst p)) (combine t C) in
    (forall p : R * R,
       In p front <-> In p (combine t C) /\ nth i1 t 0 <= fst p <= nth i2 t 0) /\
    (nth i1 t 0 <= nth i2 t 0 ->
     exists fr : Front,
       front_fit t C lo hi Cmax = Ok fr /\
       indx1 fr = i1 /\ indx2 fr = i2 /\
       combine (Lt fr) (LC fr) = front /\
       front <> [] /\
       forall a' b' : R,
         ssr (Lt fr) (LC fr) (fst (params fr)) (snd (params fr))
         <= ssr (Lt fr) (LC fr) a' b') /\
    (nth i2 t 0 < nth i1 t 0 ->
     front = [] /\ front_fit t C lo hi Cmax = Raise ValueError).
Proof.
  intros Hlen _ Hlo Hhi.
  destruct (first_above_of_In C _ Hlo) as [i1 H1].
  destruct (first_above_of_In C _ Hhi) as [i2 H2].
  exists i1, i2.
  split; [apply first_above_Ok; exact H1 |].
  split; [apply first_above_Ok; exact H2 |].
  cbv zeta. split; [| split].
  - intros p. rewrite filter_In, in_window_true. tauto.
  - intros Hle.
    destruct (front_fit_ok t C lo hi Cmax i1 i2 Hlen H1 H2 Hle)
      as (wt & wc & a & b & Hfit & Hpairs & Hwl & Hne & Hols).
    eexists. split; [exact Hfit |]. cbn [indx1 indx2 Lt LC params fst snd].
    split; [reflexivity |]. split; [reflexivity |]. split; [exact Hpairs |].
    split.
    + rewrite <- Hpairs. destruct wt as [| x wt']; [congruence |].
      destruct wc as [| y wc']; [discriminate | discriminate].
    + apply ols_minimizes; assumption.
  - intros Hlt. apply (front_fit_empty_window t C lo hi Cmax i1 i2); assumption.
Qed.

(** C5.  For a series with non-decreasing times and a peak that is not
    negative, fractions [lowerFraction <= upperFraction] and at least one
    sample strictly above each threshold, the front block returns: the lower
    (upper) bound index is the first index whose sample exceeds
    [lowerFraction * peak] ([upperFraction * peak]); the rising front is
    exactly the pairs of the series, in their order, whose time lies in the
    closed interval between the two bound times; it is not empty; and the
    slope returned is the coefficient [b] of a line [a + b t] that minimises
    the sum of squared residuals over the front. *)
Theorem front_fit_rising_front (t C : list R) (lo hi Cmax : R) :
  length t = length C ->
  amax C = Ok Cmax -> 0 <= Cmax -> lo <= hi ->
  (forall a b : nat, (a <= b)%nat -> (b < length t)%nat -> nth a t 0 <= nth b t 0) ->
  (exists c, In c C /\ c > lo * Cmax) ->
  (exists c, In c C /\ c > hi * Cmax) ->
  exists fr : Front,
    front_fit t C lo hi Cmax = Ok fr /\
    ((indx1 fr < length C)%nat /\ nth (indx1 fr) C 0 > lo * Cmax /\
     forall m : nat, (m < indx1 fr)%nat -> nth m C 0 <= lo * Cmax) /\
    ((indx2 fr < length C)%nat /\ nth (indx2 fr) C 0 > hi * Cmax /\
     forall m : nat, (m < indx2 fr)%nat -> nth m C 0 <= hi * Cmax) /\
    t1 fr = nth (indx1 fr) t 0 /\ t2 fr = nth (indx2 fr) t 0 /\
    t1 fr <= t2 fr /\
    (forall p : R * R,
       In p (combine (Lt fr) (LC fr))
       <-> In p (combine t C) /\ t1 fr <= fst p <= t2 fr) /\
    combine (Lt fr) (LC fr)
    = filter (fun p => in_window (t1 fr) (t2 fr) (fst p)) (combine t C) /\
    combine (Lt fr) (LC fr) <> [] /\
    forall a' b' : R,
      ssr (Lt fr) (LC fr) (fst (params fr)) (snd (params fr))
      <= ssr (Lt fr) (LC fr) a' b'.
Proof.
  intros Hlen _ Hpos Hle Hmono Hlo Hhi.
  destruct (first_above_of_In C _ Hlo) as [i1 H1].
  destruct (first_above_of_In C _ Hhi) as [i2 H2].
  assert (P1 := proj1 (first_above_Ok C _ i1) H1).
  assert (P2 := proj1 (first_above_Ok C _ i2) H2).
  destruct P1 as (L1 & A1 & M1). destruct P2 as (L2 & A2 & M2).
  assert (Hthr : lo * Cmax <= hi * Cmax) by (apply Rmult_le_compat_r; assumption).
  assert (O12 : (i1 <= i2)%nat).
  { destruct (Nat.le_gt_cases i1 i2) as [Hl | Hg]; [exact Hl |].
    specialize (M1 i2 Hg). lra. }
  assert (Ht12 : nth i1 t 0 <= nth i2 t 0) by (apply Hmono; lia).
  destruct (front_fit_ok t C lo hi Cmax i1 i2 Hlen H1 H2 Ht12)
    as (wt & wc & a & b & Hfit & Hpairs & Hwl & Hne & Hols).
  eexists. split; [exact Hfit |].
  cbn [indx1 indx2 t1 t2 Lt LC params fst snd].
  split; [repeat split; assumption |].
  split; [repeat split; assumption |].
  split; [reflexivity |]. split; [reflexivity |]. split; [exact Ht12 |].
  split; [intros p; rewrite Hpairs, filter_In, in_window_true; tauto |].
  split; [exact Hpairs |].
  split.
  - destruct wt as [| x wt']; [congruence |].
    destruct wc as [| y wc']; discriminate.
  - apply ols_minimizes; assumption.
Qed.

Lemma front_fit_rising_front_witness :
  exists fr : Front,
    front_fit [1; 2; 3] [0; 6; 10] 0.5 0.999 10 = Ok fr /\
    ((indx1 fr < length [0; 6; 10])%nat /\ nth (indx1 fr) [0; 6; 10] 0 > 0.5 * 10 /\
     forall m : nat, (m < indx1 fr)%nat -> nth m [0; 6; 10] 0 <= 0.5 * 10) /\
    ((indx2 fr < length [0; 6; 10])%nat /\ nth (indx2 fr) [0; 6; 10] 0 > 0.999 * 10 /\
     forall m : nat, (m < indx2 fr)%nat -> nth m [0; 6; 10] 0 <= 0.999 * 10) /\
    t1 fr = nth (indx1 fr) [1; 2; 3] 0 /\ t2 fr = nth (indx2 fr) [1; 2; 3] 0 /\
    t1 fr <= t2 fr /\
    (forall p : R * R,
       In p (combine (Lt fr) (LC fr))
       <-> In p (combine [1; 2; 3] [0; 6; 10]) /\ t1 fr <= fst p <= t2 fr) /\
    combine (Lt fr) (LC fr)
    = filter (fun p => in_window (t1 fr) (t2 fr) (fst p))
             (combine [1; 2; 3] [0; 6; 10]) /\
    combine (Lt fr) (LC fr) <> [] /\
    forall a' b' : R,
      ssr (Lt fr) (LC fr) (fst (params fr)) (snd (params fr))
      <= ssr (Lt fr) (LC fr) a' b'.
Proof.
  apply (front_fit_rising_front [1; 2; 3] [0; 6; 10] 0.5 0.999 10); try lra.
  - reflexivity.
  - simpl. Rdecide. reflexivity.
  - intros a b Hab Hb. simpl in Hb.
    destruct a as [| [| [| a]]], b as [| [| [| b]]]; simpl; try lra; lia.
  - exists 10. split; [simpl; tauto | lra].
  - exists 10. split; [simpl; tauto | lra].
Defined.

(** Outside that precondition, with the fractions in the reverse order 0.9
    and 0.5: some sample exceeds each threshold, the bound indices are 2 and
    1, no time lies in [3, 2], and the fit of the empty front raises. *)
Lemma reversed_bounds_no_slope :
  length [1; 2; 3] = length [0; 6; 10] /\
  amax [0; 6; 10] = Ok 10 /\
  (exists c, In c [0; 6; 10] /\ c > 0.9 * 10) /\
  (exists c, In c [0; 6; 10] /\ c > 0.5 * 10) /\
  first_above [0; 6; 10] (0.9 * 10) = Ok 2%nat /\
  first_above [0; 6; 10] (0.5 * 10) = Ok 1%nat /\
  front_fit [1; 2; 3] [0; 6; 10] 0.9 0.5 10 = Raise ValueError.
Proof.
  assert (H1 : first_above [0; 6; 10] (0.9 * 10) = Ok 2%nat)
    by (unfold first_above, nonzero; simpl; Rdecide; reflexivity).
  assert (H2 : first_above [0; 6; 10] (0.5 * 10) = Ok 1%nat)
    by (unfold first_above, nonzero; simpl; Rdecide; reflexivity).
  split; [reflexivity |].
  split; [simpl; Rdecide; reflexivity |].
  split; [exists 10; split; [simpl; tauto | lra] |].
  split; [exists 10; split; [simpl; tauto | lra] |].
  split; [exact H1 |]. split; [exact H2 |].
  apply (front_fit_empty_window [1; 2; 3] [0; 6; 10] 0.9 0.5 10 2 1);
    [reflexivity | exact H1 | exact H2 | simpl; lra].
Qed.

(** ** The loops of the grid search *)

Lemma for_each_app {I : Type} (l1 l2 : list I)
  (body : workspace -> I -> result workspace) (w : workspace) :
  for_each (l1 ++ l2) body w = (w' <- for_each l1 body w ;; for_each l2 body w').
Proof.
  revert w. induction l1 as [| i l1 IH]; intros w; simpl; [reflexivity |].
  destruct (body w i); simpl; [apply IH | reflexivity].
Qed.

Lemma for_each_map {I J : Type} (g : J -> I) (l : list J)
  (body : workspace -> I -> result workspace) (w : workspace) :
  for_each (map g l) body w = for_each l (fun w j => body w (g j)) w.
Proof.
  revert w. induction l as [| j l IH]; intros w; simpl; [reflexivity |].
  destruct (body w (g j)); simpl; [apply IH | reflexivity].
Qed.

Lemma for_each_flat_map {I J : Type} (f : J -> list I) (l : list J)
  (body : workspace -> I -> result workspace) (w : workspace) :
  for_each (flat_map f l) body w
  = for_each l (fun w j => for_each (f j) body w) w.
Proof.
  revert w. induction l as [| j l IH]; intros w; simpl; [reflexivity |].
  rewrite for_each_app.
  destruct (for_each (f j) body w); simpl; [apply IH | reflexivity].
Qed.

Lemma for_each_ext {I : Type} (l : list I)
  (b1 b2 : workspace -> I -> result workspace) (w : workspace) :
  (forall i, In i l -> forall w', b1 w' i = b2 w' i) ->
  for_each l b1 w = for_each l b2 w.
Proof.
  revert w. induction l as [| i l IH]; intros w H; simpl; [reflexivity |].
  rewrite (H i (or_introl eq_refl)).
  destruct (b2 w i); simpl; [| reflexivity].
  apply IH. intros k Hk. apply H. right. exact Hk.
Qed.

Lemma range_In (a b x : nat) : In x (range a b) <-> (a <= x < b)%nat.
Proof. unfold range. rewrite in_seq. lia. Qed.

Lemma grid_indices_In (N MMM i j : nat) :
  In (i, j) (grid_indices N MMM) <-> (1 <= i < N)%nat /\ (1 <= j < MMM)%nat.
Proof.
  unfold grid_indices. rewrite in_flat_map. split.
  - intros (i' & Hi & Hj). apply in_map_iff in Hj.
    destruct Hj as (j' & E & Hj). injection E as -> ->.
    apply range_In in Hi. apply range_In in Hj. split; assumption.
  - intros [Hi Hj]. exists i. split; [apply range_In; exact Hi |].
    apply in_map. apply range_In. exact Hj.
Qed.

(** The nested loops are one loop over [grid_indices]. *)
Lemma slopeD_loop_flat (A U K lo hi obs : R) (N MMM : nat)
  (xrange Msyn : list R) (w : workspace) :
  slopeD_loop A U K lo hi obs N MMM xrange Msyn w
  = for_each (grid_indices N MMM)
      (fun w ij => loop_body A U K lo hi obs N xrange Msyn w (fst ij) (snd ij)) w.
Proof.
  unfold slopeD_loop, grid_indices. rewrite for_each_flat_map.
  apply for_each_ext. intros i _ w'. rewrite for_each_map. reflexivity.
Qed.

(** ** The grids *)

Lemma linspace_length (a b : R) (n : nat) : length (linspace a b n) = n.
Proof. unfold linspace. rewrite length_map, length_seq. reflexivity. Qed.

Lemma linspace_nth (a b : R) (n i : nat) :
  (i < n)%nat ->
  nth i (linspace a b n) 0 = a + INR i * ((b - a) / INR (n - 1)).
Proof.
  intros Hi. unfold linspace.
  rewrite (nth_indep _ 0 ((fun k => a + INR k * ((b - a) / INR (n - 1))) 0%nat))
    by (rewrite length_map, length_seq; exact Hi).
  rewrite (map_nth (fun k => a + INR k * ((b - a) / INR (n - 1)))).
  rewrite seq_nth by exact Hi. reflexivity.
Qed.

Lemma linspace_first (a b : R) (n : nat) :
  (0 < n)%nat -> nth 0 (linspace a b n) 0 = a.
Proof. intros H. rewrite linspace_nth by exact H. simpl. ring. Qed.

Lemma linspace_last (a b : R) (n : nat) :
  (1 < n)%nat -> nth (n - 1) (linspace a b n) 0 = b.
Proof.
  intros H. rewrite linspace_nth by lia. field.
  apply not_0_INR. lia.
Qed.

Lemma linspace_step (a b : R) (n i : nat) :
  (S i < n)%nat ->
  nth (S i) (linspace a b n) 0 - nth i (linspace a b n) 0 = (b - a) / INR (n - 1).
Proof.
  intros H. rewrite !linspace_nth by lia. rewrite S_INR. ring.
Qed.

(** C1, where the code departs from it.  The two grids have [N] and [MMM]
    evenly spaced points ([linspace_first], [linspace_last], [linspace_step]),
    but the loops start at index 1: the pairs visited are those with
    [1 <= i < N] and [1 <= j < MMM] (four of the nine pairs of a 3 by 3 grid),
    and the outcome of the search does not depend on the first distance or on
    the first mass. *)
Theorem slopeD_skips_first_grid_point :
  (forall (a b : R) (n : nat), length (linspace a b n) = n) /\
  (forall N MMM i j : nat,
     In (i, j) (grid_indices N MMM) <-> (1 <= i < N)%nat /\ (1 <= j < MMM)%nat) /\
  grid_indices 3 3 = [(1, 1); (1, 2); (2, 1); (2, 2)]%nat /\
  (forall (A U K lo hi obs : R) (N MMM : nat) (x0 x0' m0 m0' : R)
          (xs ms : list R) (w : workspace),
     slopeD A U K lo hi obs N MMM (x0 :: xs) (m0 :: ms) w
     = slopeD A U K lo hi obs N MMM (x0' :: xs) (m0' :: ms) w).
Proof.
  split; [apply linspace_length |].
  split; [apply grid_indices_In |].
  split; [reflexivity |].
  intros. unfold slopeD. rewrite !slopeD_loop_flat.
  f_equal. apply for_each_ext.
  intros [i j] Hij w'. apply grid_indices_In in Hij. simpl.
  destruct i as [| i']; [lia |]. destruct j as [| j']; [lia |].
  reflexivity.
Qed.

(** ** The running minimum *)

(** When no visit raises, the loop is a fold of [update] over the visits. *)
Lemma loop_pure (A U K lo hi obs : R) (N : nat) (xrange Msyn : list R)
  (idxs : list (nat * nat)) (evals : list (R * R * R)) (w : workspace) :
  Forall2 (evaluated_as A U K lo hi N xrange Msyn) idxs evals ->
  for_each idxs
    (fun w ij => loop_body A U K lo hi obs N xrange Msyn w (fst ij) (snd ij)) w
  = Ok (fold_left (fun w e => update obs w (fst (fst e)) (snd (fst e)) (snd e))
                  evals w).
Proof.
  intros H. revert w. induction H as [| ij e idxs evals He _ IH]; intros w.
  - reflexivity.
  - destruct He as (Hx & HM & Hs). cbn [for_each fold_left].
    unfold loop_body at 1. rewrite Hx, HM. cbn [bind]. rewrite Hs. cbn [bind].
    apply IH.
Qed.

Lemma update_improves (obs : R) (w : workspace) (e : R * R * R) :
  diff_of obs e < diffi w ->
  update obs w (fst (fst e)) (snd (fst e)) (snd e)
  = mkWs (diff_of obs e) (Some (fst (fst e))) (Some (snd (fst e))).
Proof.
  intros H. unfold update. fold (diff_of obs e). rewrite Rltb_true by exact H.
  reflexivity.
Qed.

Lemma update_keeps (obs : R) (w : workspace) (e : R * R * R) :
  diffi w <= diff_of obs e ->
  update obs w (fst (fst e)) (snd (fst e)) (snd e) = w.
Proof.
  intros H. unfold update. fold (diff_of obs e). rewrite Rltb_false by lra.
  reflexivity.
Qed.

(** The fold either never improves on the initial [diffi], or ends on the
    first visit whose [diff] is the least one. *)
Lemma fold_update_first_min (obs : R) (evals : list (R * R * R)) (w : workspace) :
  let w' := fold_left (fun w e => update obs w (fst (fst e)) (snd (fst e)) (snd e))
                      evals w in
  (w' = w /\ forall e, In e evals -> diffi w <= diff_of obs e)
  \/
  (exists before e after,
     evals = before ++ e :: after /\
     w' = mkWs (diff_of obs e) (Some (fst (fst e))) (Some (snd (fst e))) /\
     diff_of obs e < diffi w /\
     (forall e', In e' before -> diff_of obs e < diff_of obs e') /\
     (forall e', In e' after -> diff_of obs e <= diff_of obs e')).
Proof.
  cbv zeta. revert w. induction evals as [| e rest IH]; intros w.
  - left. split; [reflexivity | intros e []].
  - cbn [fold_left].
    destruct (Rlt_dec (diff_of obs e) (diffi w)) as [Hlt | Hge].
    + rewrite (update_improves obs w e Hlt).
      destruct (IH (mkWs (diff_of obs e) (Some (fst (fst e))) (Some (snd (fst e)))))
        as [[Hw Hall] | (before & e' & after & E & Hw & Hd & Hb & Ha)];
        cbn [diffi] in *.
      * right. exists [], e, rest. repeat split; try assumption.
        intros e' [].
      * right. exists (e :: before), e', after.
        split; [rewrite E; reflexivity |]. split; [exact Hw |].
        split; [lra |]. split; [| exact Ha].
        intros x [<- | Hx]; [exact Hd | apply Hb; exact Hx].
    + rewrite (update_keeps obs w e) by lra.
      destruct (IH w) as [[Hw Hall] | (before & e' & after & E & Hw & Hd & Hb & Ha)].
      * left. split; [exact Hw |].
        intros x [<- | Hx]; [lra | apply Hall; exact Hx].
      * right. exists (e :: before), e', after.
        split; [rewrite E; reflexivity |]. split; [exact Hw |].
        split; [exact Hd |]. split; [| exact Ha].
        intros x [<- | Hx]; [lra | apply Hb; exact Hx].
Qed.

(** The loops visit the distances in the order of their indices. *)
Lemma grid_block_order (js : list nat) (a n : nat) (l1 l2 : list (nat * nat))
  (p : nat * nat) :
  flat_map (fun i => map (fun j => (i, j)) js) (seq a n) = l1 ++ p :: l2 ->
  forall q, In q l2 -> (fst p <= fst q)%nat.
Proof.
  revert a l1. induction n as [| n IH]; intros a l1 E q Hq.
  - simpl in E. destruct l1; discriminate.
  - simpl in E.
    assert (Hrest : forall r, In r (flat_map (fun i => map (fun j => (i, j)) js)
                                             (seq (S a) n)) -> (S a <= fst r)%nat).
    { intros r Hr. apply in_flat_map in Hr. destruct Hr as (i & Hi & Hr).
      apply in_map_iff in Hr. destruct Hr as (j & <- & _).
      apply in_seq in Hi. simpl. lia. }
    assert (Hblock : forall r, In r (map (fun j => (a, j)) js) -> fst r = a).
    { intros r Hr. apply in_map_iff in Hr. destruct Hr as (j & <- & _). reflexivity. }
    set (block := map (fun j => (a, j)) js) in *.
    set (tail := flat_map (fun i => map (fun j => (i, j)) js) (seq (S a) n)) in *.
    destruct (Nat.le_gt_cases (length block) (length l1)) as [Hlong | Hshort].
    + (* the split point lies in the later blocks *)
      assert (E1 : l1 = block ++ skipn (length block) l1).
      { rewrite <- (firstn_skipn (length block) l1) at 1. f_equal.
        assert (E' := f_equal (firstn (length block)) E).
        rewrite firstn_app, Nat.sub_diag, firstn_all, firstn_O, app_nil_r in E'.
        rewrite firstn_app in E'.
        replace (length block - length l1)%nat with 0%nat in E' by lia.
        rewrite firstn_O, app_nil_r in E'. symmetry. exact E'. }
      rewrite E1 in E. rewrite <- app_assoc in E. apply app_inv_head in E.
      apply (IH (S a) (skipn (length block) l1) E q Hq).
    + (* the split point lies in the first block *)
      assert (Hp : In p block).
      { assert (E' := f_equal (firstn (length block)) E).
        rewrite firstn_app, Nat.sub_diag, firstn_all, firstn_O, app_nil_r in E'.
        rewrite E'. rewrite firstn_app.
        apply in_or_app. right.
        destruct (length block - length l1)%nat eqn:D; [lia |].
        simpl. left. reflexivity. }
      rewrite (Hblock p Hp).
      assert (Hq' : In q (block ++ tail)).
      { rewrite E. apply in_or_app. right. right. exact Hq. }
      apply in_app_or in Hq'. destruct Hq' as [Hb | Ht].
      * rewrite (Hblock q Hb). lia.
      * specialize (Hrest q Ht). lia.
Qed.

Lemma grid_indices_order (N MMM : nat) (l1 l2 : list (nat * nat)) (p : nat * nat) :
  grid_indices N MMM = l1 ++ p :: l2 ->
  forall q, In q l2 -> (fst p <= fst q)%nat.
Proof.
  unfold grid_indices, range. apply grid_block_order.
Qed.

Lemma Forall2_In_r {X Y : Type} (P : X -> Y -> Prop) (l : list X) (l' : list Y)
  (y : Y) :
  Forall2 P l l' -> In y l' -> exists x, In x l /\ P x y.
Proof.
  intros H. induction H as [| x0 y0 l l' Hxy _ IH]; intros Hin; [destruct Hin |].
  destruct Hin as [<- | Hin].
  - exists x0. split; [left; reflexivity | exact Hxy].
  - destruct (IH Hin) as (x & Hx & Hp). exists x. split; [right; exact Hx | exact Hp].
Qed.

(** ** When the synthetic slope is defined *)

Lemma linspace_mono (a b : R) (n i j : nat) :
  a <= b -> (i <= j)%nat -> (j < n)%nat ->
  nth i (linspace a b n) 0 <= nth j (linspace a b n) 0.
Proof.
  intros Hab Hij Hj. rewrite !linspace_nth by lia.
  destruct (Nat.eq_dec i j) as [-> | Hne]; [lra |].
  assert (Hn : 0 < INR (n - 1)) by (apply lt_0_INR; lia).
  assert (Hstep : 0 <= (b - a) / INR (n - 1)).
  { apply Rmult_le_pos; [lra |]. left. apply Rinv_0_lt_compat. exact Hn. }
  assert (Hle : INR i <= INR j) by (apply le_INR; exact Hij).
  nra.
Qed.

Lemma linspace_lower (a b : R) (n i : nat) :
  a <= b -> (i < n)%nat -> a <= nth i (linspace a b n) 0.
Proof.
  intros Hab Hi. rewrite <- (linspace_first a b n) at 1 by lia.
  apply linspace_mono; [exact Hab | lia | exact Hi].
Qed.

Lemma taylor_pos (A M U K x t : R) :
  0 < A -> 0 < M -> 0 < K -> 0 < t -> 0 < taylor A M U K x t.
Proof.
  intros HA HM HK Ht. unfold taylor.
  assert (HPI := PI_RGT_0).
  assert (0 < 4 * PI * K * t).
  { apply Rmult_lt_0_compat; [apply Rmult_lt_0_compat |]; [lra | assumption | assumption]. }
  assert (0 < sqrt (4 * PI * K * t)) by (apply sqrt_lt_R0; assumption).
  apply Rmult_lt_0_compat; [| apply exp_pos].
  apply Rdiv_lt_0_compat; [exact HM |].
  apply Rmult_lt_0_compat; assumption.
Qed.

Lemma taylor_zero_mass (A U K x t : R) : taylor A 0 U K x t = 0.
Proof. unfold taylor, Rdiv. rewrite !Rmult_0_l. reflexivity. Qed.

(** For positive parameters and a horizon of at least one second the body of
    the grid search yields a slope. *)
Lemma syn_slope_defined (A U K lo hi : R) (N : nat) (x M : R) :
  0 < A -> 0 < K -> 0 < M -> 1 <= 10 * (x / U) ->
  0 < lo -> lo <= hi -> hi < 1 -> (0 < N)%nat ->
  is_ok (syn_slope A U K lo hi N x M).
Proof.
  intros HA HK HM Hend Hlo Hle Hhi HN.
  unfold syn_slope, taylorU. cbn [bind].
  set (tsyn := linspace 1 (10 * (x / U)) N).
  set (Csyn := map (taylor A M U K x) tsyn).
  assert (Hlt : length tsyn = N) by apply linspace_length.
  assert (Hlc : length Csyn = N) by (unfold Csyn; rewrite length_map; exact Hlt).
  assert (Hne : Csyn <> []) by (intros E; rewrite E in Hlc; simpl in Hlc; lia).
  destruct (amax_nonempty Csyn Hne) as [Cmax Hmax]. rewrite Hmax. cbn [bind].
  assert (Hpos : 0 < Cmax).
  { assert (H0 : 0 < nth 0 Csyn 0).
    { unfold Csyn.
      rewrite (nth_indep _ 0 (taylor A M U K x 0)) by (rewrite length_map; lia).
      rewrite map_nth. apply taylor_pos; try assumption.
      assert (1 <= nth 0 tsyn 0) by (apply linspace_lower; [exact Hend | lia]).
      lra. }
    assert (H1 : nth 0 Csyn 0 <= Cmax).
    { apply (amax_upper Csyn Cmax Hmax). apply nth_In. lia. }
    lra. }
  destruct (bounds_below_peak Csyn Cmax lo hi Hmax Hpos Hlo Hle Hhi)
    as (i1 & i2 & ip & _ & _ & H1 & H2 & L1 & L2 & L3).
  assert (Hmono : nth i1 tsyn 0 <= nth i2 tsyn 0).
  { apply linspace_mono; [exact Hend | exact L1 | lia]. }
  destruct (front_fit_ok tsyn Csyn lo hi Cmax i1 i2 (eq_trans Hlt (eq_sym Hlc))
              H1 H2 Hmono) as (wt & wc & a & b & Hfit & _).
  rewrite Hfit. cbn [bind]. eexists. reflexivity.
Qed.

(** A candidate of mass zero gives the zero curve, whose bound lookup
    fails. *)
Lemma syn_slope_zero_mass (A U K lo hi : R) (N : nat) (x M : R) :
  M = 0 -> (0 < N)%nat -> syn_slope A U K lo hi N x M = Raise IndexError.
Proof.
  intros -> HN. unfold syn_slope, taylorU. cbn [bind].
  set (tsyn := linspace 1 (10 * (x / U)) N).
  assert (Hz : forall c, In c (map (taylor A 0 U K x) tsyn) -> c = 0).
  { intros c Hc. apply in_map_iff in Hc. destruct Hc as (ti & <- & _).
    apply taylor_zero_mass. }
  destruct (amax (map (taylor A 0 U K x) tsyn)) as [Cmax | e] eqn:Hmax.
  - cbn [bind]. rewrite front_fit_no_crossing; [reflexivity |].
    intros c Hc. rewrite (Hz c Hc).
    assert (Hm : Cmax = 0).
    { destruct (argmax_attains _ _ Hmax) as (ip & _ & Hip & Hnth).
      rewrite <- Hnth. apply Hz. apply nth_In. exact Hip. }
    rewrite Hm. lra.
  - exfalso. assert (Hlen : length (map (taylor A 0 U K x) tsyn) = N)
      by (rewrite length_map; apply linspace_length).
    destruct (map (taylor A 0 U K x) tsyn); simpl in *; [lia | discriminate].
Qed.

Lemma syn_slope_error (A U K lo hi : R) (N : nat) (x M : R) (e : exn) :
  syn_slope A U K lo hi N x M = Raise e -> e = IndexError \/ e = ValueError.
Proof.
  unfold syn_slope, taylorU. cbn [bind]. intros H.
  split_bind H; [right; apply (amax_error _ _ H) |].
  split_bind H; [apply (front_fit_error _ _ _ _ _ _ H) | discriminate].
Qed.

(** ** A search with one visit *)

Lemma linspace_two (a b : R) : linspace a b 2 = [a; b].
Proof.
  unfold linspace. simpl. f_equal; [lra | f_equal; lra].
Qed.

Lemma example_curve :
  let c0 := taylor 1 1 1 1 2 1 in
  let c1 := taylor 1 1 1 1 2 20 in
  0 < c0 < 1 /\ 0 < c1 < 0.5 * c0.
Proof.
  cbv zeta.
  assert (HPI : 2 < PI) by (assert (H := PI2_1); lra).
  assert (P0 : 0 < taylor 1 1 1 1 2 1) by (apply taylor_pos; lra).
  assert (P1 : 0 < taylor 1 1 1 1 2 20) by (apply taylor_pos; lra).
  unfold taylor in *.
  set (a0 := 1 / (1 * sqrt (4 * PI * 1 * 1))) in *.
  set (a1 := 1 / (1 * sqrt (4 * PI * 1 * 20))) in *.
  set (e0 := exp (- (2 - 1 * 1) ^ 2 / (4 * 1 * 1))) in *.
  set (e1 := exp (- (2 - 1 * 20) ^ 2 / (4 * 1 * 20))) in *.
  assert (He0 : 0 < e0 < 1).
  { split; [apply exp_pos |]. unfold e0.
    assert (H : exp (- (2 - 1 * 1) ^ 2 / (4 * 1 * 1)) < exp 0)
      by (apply exp_increasing; lra).
    rewrite exp_0 in H. exact H. }
  assert (He1 : 0 < e1 < e0).
  { split; [apply exp_pos |]. unfold e1, e0. apply exp_increasing. lra. }
  assert (S0 : 1 < sqrt (4 * PI * 1 * 1)).
  { assert (H : sqrt 1 < sqrt (4 * PI * 1 * 1)) by (apply sqrt_lt_1; lra).
    rewrite sqrt_1 in H. exact H. }
  assert (S1 : 2 * sqrt (4 * PI * 1 * 1) < sqrt (4 * PI * 1 * 20)).
  { assert (H4 : sqrt 4 = 2).
    { replace 4 with (2 * 2) by lra. apply sqrt_square. lra. }
    rewrite <- H4 at 1. rewrite <- sqrt_mult by lra. apply sqrt_lt_1; lra. }
  assert (Ha0 : 0 < a0 < 1).
  { unfold a0. split.
    - apply Rdiv_lt_0_compat; lra.
    - apply Rmult_lt_reg_r with (1 * sqrt (4 * PI * 1 * 1)); [lra |].
      unfold Rdiv. rewrite Rmult_assoc, Rinv_l by lra. lra. }
  assert (Ha1 : 0 < a1 < 0.5 * a0).
  { unfold a1, a0. split.
    - apply Rdiv_lt_0_compat; lra.
    - apply Rmult_lt_reg_r with (1 * sqrt (4 * PI * 1 * 20)); [lra |].
      unfold Rdiv at 1. rewrite Rmult_assoc, Rinv_l by lra.
      apply Rmult_lt_reg_r with (1 * sqrt (4 * PI * 1 * 1)); [lra |].
      replace (0.5 * (1 / (1 * sqrt (4 * PI * 1 * 1))) * (1 * sqrt (4 * PI * 1 * 20)) *
               (1 * sqrt (4 * PI * 1 * 1)))
        with (0.5 * sqrt (4 * PI * 1 * 20)) by (field; lra).
      lra. }
  split; nra.
Qed.

Lemma ols_single (tau c : R) :
  ols [tau] [c] = Ok (c / (1 + tau * tau), tau * c / (1 + tau * tau)).
Proof.
  assert (Hmt : mean [tau] = tau) by (unfold mean, Rsum; simpl; field).
  assert (Hmc : mean [c] = c) by (unfold mean, Rsum; simpl; field).
  unfold ols. destruct (Req_dec_T (Sxx [tau]) 0) as [_ | Hnz].
  - rewrite Hmt, Hmc. reflexivity.
  - exfalso. apply Hnz. unfold Sxx. rewrite Hmt. unfold Rsum. simpl. ring.
Qed.

Lemma syn_slope_example :
  syn_slope 1 1 1 0.5 0.999 2 2 1 = Ok (taylor 1 1 1 1 2 1 / 2).
Proof.
  destruct example_curve as [[P0 Q0] [P1 Q1]].
  unfold syn_slope, taylorU. cbn [bind].
  rewrite linspace_two. replace (10 * (2 / 1)) with 20 by lra.
  cbn [map].
  set (c0 := taylor 1 1 1 1 2 1) in *. set (c1 := taylor 1 1 1 1 2 20) in *.
  cbn [amax fold_left]. Rdecide. cbn [bind].
  unfold front_fit, first_above, between, in_window, nonzero.
  cbn [map nonzero_from]. Rdecide.
  cbn [nonzero_from item0 bind getitem nth_error]. Rdecide.
  cbn [nonzero_from andb take getitem nth_error bind].
  rewrite ols_single. cbn [bind params snd]. f_equal. field.
Qed.

(** ** The result of the grid search *)

Lemma slopeD_fold (A U K lo hi obs : R) (N MMM : nat) (xrange Msyn : list R)
  (evals : list (R * R * R)) (w : workspace) :
  Forall2 (evaluated_as A U K lo hi N xrange Msyn) (grid_indices N MMM) evals ->
  slopeD A U K lo hi obs N MMM xrange Msyn w
  = (let w' := fold_left
                 (fun w e => update obs w (fst (fst e)) (snd (fst e)) (snd e))
                 evals w in
     x <- read_name (XYZ w') ;; M <- read_name (MYZ w') ;; Ok (x, M)).
Proof.
  intros H. unfold slopeD. rewrite slopeD_loop_flat.
  rewrite (loop_pure A U K lo hi obs N xrange Msyn _ evals w H). reflexivity.
Qed.

(** When no visit comes below the initial [diffi], [XYZ] is never bound. *)
Lemma slopeD_sentinel (A U K lo hi obs : R) (N MMM : nat) (xrange Msyn : list R)
  (evals : list (R * R * R)) :
  Forall2 (evaluated_as A U K lo hi N xrange Msyn) (grid_indices N MMM) evals ->
  (forall e, In e evals -> 10 <= diff_of obs e) ->
  slopeD A U K lo hi obs N MMM xrange Msyn initial_workspace = Raise NameError.
Proof.
  intros H Hall. rewrite (slopeD_fold _ _ _ _ _ _ _ _ _ _ evals _ H). cbv zeta.
  destruct (fold_update_first_min obs evals initial_workspace)
    as [[Hw _] | (before & e & after & E & _ & Hd & _)].
  - rewrite Hw. reflexivity.
  - exfalso. assert (10 <= diff_of obs e).
    { apply Hall. rewrite E. apply in_or_app. right. left. reflexivity. }
    simpl in Hd. lra.
Qed.

(** C6, as the code has it.  When every visit of the loop yields a slope and
    some visit has [diff < 10], the initial value of [diffi], the search
    returns the pair of the first visit whose [diff] is the least: every
    earlier visit has a strictly larger [diff], every later visit has a
    [diff] at least as large; and when the distances are in non-decreasing
    order no visit with the same [diff] has a smaller distance. *)
Theorem slopeD_first_minimum (A U K lo hi obs : R) (N MMM : nat)
  (xrange Msyn : list R) (evals : list (R * R * R)) :
  Forall2 (evaluated_as A U K lo hi N xrange Msyn) (grid_indices N MMM) evals ->
  (exists e, In e evals /\ diff_of obs e < 10) ->
  exists (before : list (R * R * R)) (best : R * R * R) (after : list (R * R * R)),
    evals = before ++ best :: after /\
    slopeD A U K lo hi obs N MMM xrange Msyn initial_workspace
      = Ok (fst (fst best), snd (fst best)) /\
    diff_of obs best < 10 /\
    (forall e, In e before -> diff_of obs best < diff_of obs e) /\
    (forall e, In e after -> diff_of obs best <= diff_of obs e) /\
    (forall e, In e evals -> diff_of obs best <= diff_of obs e) /\
    ((forall a b : nat, (a <= b)%nat -> (b < length xrange)%nat ->
                        nth a xrange 0 <= nth b xrange 0) ->
     forall e, In e evals -> diff_of obs e = diff_of obs best ->
               fst (fst best) <= fst (fst e)).
Proof.
  intros H (e0 & Hin0 & Hlt0).
  rewrite (slopeD_fold _ _ _ _ _ _ _ _ _ _ evals _ H). cbv zeta.
  destruct (fold_update_first_min obs evals initial_workspace)
    as [[_ Hall] | (before & best & after & E & Hw & Hd & Hb & Ha)].
  { exfalso. specialize (Hall e0 Hin0). simpl in Hall. lra. }
  exists before, best, after.
  split; [exact E |]. split; [rewrite Hw; reflexivity |].
  split; [exact Hd |]. split; [exact Hb |]. split; [exact Ha |].
  assert (Hmin : forall e, In e evals -> diff_of obs best <= diff_of obs e).
  { intros e He. rewrite E in He. apply in_app_or in He.
    destruct He as [He | [<- | He]]; [left; apply Hb; exact He | lra | apply Ha; exact He]. }
  split; [exact Hmin |].
  intros Hmono e He Htie. rewrite E in He. apply in_app_or in He.
  destruct He as [He | [<- | He]].
  - specialize (Hb e He). lra.
  - lra.
  - rewrite E in H. apply Forall2_app_inv_r in H.
    destruct H as (I1 & I2 & _ & H2 & EI).
    inversion H2 as [| ij best' I2' after' Hbest Hafter]; subst.
    destruct (Forall2_In_r _ _ _ e Hafter He) as (ij' & Hij' & He').
    assert (Hord := grid_indices_order N MMM I1 I2' ij EI ij' Hij').
    destruct Hbest as (Hx & _). destruct He' as (Hx' & _).
    apply getitem_inv in Hx. apply getitem_inv in Hx'.
    destruct Hx as [_ ->]. destruct Hx' as [Hl' ->].
    apply Hmono; assumption.
Qed.

Lemma one_visit :
  Forall2 (evaluated_as 1 1 1 0.5 0.999 2 [1; 2] [1; 1]) (grid_indices 2 2)
          [(2, 1, taylor 1 1 1 1 2 1 / 2)].
Proof.
  constructor; [| constructor].
  split; [reflexivity |]. split; [reflexivity | exact syn_slope_example].
Qed.

(** *** A grid of four visits *)

Lemma linspace_three (a b : R) : linspace a b 3 = [a; a + (b - a) / 2; b].
Proof.
  unfold linspace. simpl. f_equal; [lra | f_equal; [lra | f_equal; lra]].
Qed.

(** A sample at a later time is below the sample at one second when its
    exponent is the smaller one. *)
Lemma taylor_later_smaller (A M U K x t : R) :
  0 < A -> 0 < M -> 0 < K -> 1 <= t ->
  (x - U * 1) ^ 2 * t <= (x - U * t) ^ 2 ->
  taylor A M U K x t <= taylor A M U K x 1.
Proof.
  intros HA HM HK Ht Hexp. unfold taylor.
  assert (HPI := PI_RGT_0).
  assert (Hc : 0 < 4 * PI * K) by (apply Rmult_lt_0_compat; lra).
  assert (H1 : 0 < 4 * PI * K * 1) by lra.
  assert (H2 : 4 * PI * K * 1 <= 4 * PI * K * t)
    by (apply Rmult_le_compat_l; lra).
  assert (Hs1 : 0 < sqrt (4 * PI * K * 1)) by (apply sqrt_lt_R0; exact H1).
  assert (Hs : sqrt (4 * PI * K * 1) <= sqrt (4 * PI * K * t))
    by (apply sqrt_le_1; lra).
  assert (Hd1 : 0 < A * sqrt (4 * PI * K * 1)) by (apply Rmult_lt_0_compat; assumption).
  assert (Hd : A * sqrt (4 * PI * K * 1) <= A * sqrt (4 * PI * K * t))
    by (apply Rmult_le_compat_l; lra).
  assert (Hf : M / (A * sqrt (4 * PI * K * t)) <= M / (A * sqrt (4 * PI * K * 1))).
  { unfold Rdiv. apply Rmult_le_compat_l; [lra |].
    apply Rinv_le_contravar; assumption. }
  assert (Hf0 : 0 <= M / (A * sqrt (4 * PI * K * t))).
  { left. apply Rdiv_lt_0_compat; lra. }
  assert (He : - (x - U * t) ^ 2 / (4 * K * t) <= - (x - U * 1) ^ 2 / (4 * K * 1)).
  { apply Rminus_le.
    replace (- (x - U * t) ^ 2 / (4 * K * t) - - (x - U * 1) ^ 2 / (4 * K * 1))
      with (((x - U * 1) ^ 2 * t - (x - U * t) ^ 2) / (4 * K * t))
      by (field; lra).
    assert (Hden : 0 < 4 * K * t) by (apply Rmult_lt_0_compat; lra).
    unfold Rdiv. replace 0 with (0 * / (4 * K * t)) by ring.
    apply Rmult_le_compat_r; [left; apply Rinv_0_lt_compat; exact Hden | lra]. }
  assert (Hexp' : exp (- (x - U * t) ^ 2 / (4 * K * t))
                  <= exp (- (x - U * 1) ^ 2 / (4 * K * 1))).
  { destruct He as [He | He];
      [left; apply exp_increasing; exact He | rewrite He; right; reflexivity]. }
  apply Rmult_le_compat; [exact Hf0 | left; apply exp_pos | exact Hf | exact Hexp'].
Qed.

(** On three samples whose first is the largest, both bounds are at index 0,
    the front is the first sample alone, and the slope is half of it. *)
Lemma syn_slope_three_first (A U K x M : R) :
  1 < 10 * (x / U) ->
  0 < taylor A M U K x 1 ->
  taylor A M U K x (1 + (10 * (x / U) - 1) / 2) <= taylor A M U K x 1 ->
  taylor A M U K x (10 * (x / U)) <= taylor A M U K x 1 ->
  syn_slope A U K 0.5 0.999 3 x M = Ok (taylor A M U K x 1 / 2).
Proof.
  intros Hend H0 Hm He.
  unfold syn_slope, taylorU. cbn [bind].
  rewrite linspace_three. cbn [map].
  set (te := 10 * (x / U)) in *. set (tm := 1 + (te - 1) / 2) in *.
  assert (Htm : 1 < tm) by (unfold tm; lra).
  set (c0 := taylor A M U K x 1) in *.
  set (cm := taylor A M U K x tm) in *.
  set (ce := taylor A M U K x te) in *.
  cbn [amax fold_left]. Rdecide. cbn [bind].
  unfold front_fit, first_above, between, in_window, nonzero.
  cbn [map nonzero_from]. Rdecide.
  cbn [nonzero_from item0 bind getitem nth_error]. Rdecide.
  cbn [nonzero_from andb take getitem nth_error bind].
  rewrite ols_single. cbn [bind params snd]. f_equal. field.
Qed.

Lemma slope_at_two : syn_slope 1 1 1 0.5 0.999 3 2 1 = Ok (taylor 1 1 1 1 2 1 / 2).
Proof.
  apply syn_slope_three_first.
  - lra.
  - apply taylor_pos; lra.
  - apply taylor_later_smaller; lra.
  - apply taylor_later_smaller; lra.
Qed.

Lemma slope_at_three : syn_slope 1 1 1 0.5 0.999 3 3 1 = Ok (taylor 1 1 1 1 3 1 / 2).
Proof.
  apply syn_slope_three_first.
  - lra.
  - apply taylor_pos; lra.
  - apply taylor_later_smaller; lra.
  - apply taylor_later_smaller; lra.
Qed.

(** The first sample of the curve at 3 m is below the one at 2 m. *)
Lemma farther_is_lower :
  0 < taylor 1 1 1 1 3 1 < taylor 1 1 1 1 2 1 /\ taylor 1 1 1 1 2 1 < 1.
Proof.
  destruct example_curve as [[P0 Q0] _].
  split; [| exact Q0].
  split; [apply taylor_pos; lra |].
  unfold taylor.
  assert (HPI := PI_RGT_0).
  assert (Hs : 0 < sqrt (4 * PI * 1 * 1)) by (apply sqrt_lt_R0; lra).
  assert (Hp : 0 < 1 / (1 * sqrt (4 * PI * 1 * 1))) by (apply Rdiv_lt_0_compat; lra).
  apply Rmult_lt_compat_l; [exact Hp |].
  apply exp_increasing. lra.
Qed.

(** Distances [1, 2, 3] and masses [1, 1, 1]: the loops visit (2, 1) twice,
    then (3, 1) twice. *)
Lemma four_visits :
  Forall2 (evaluated_as 1 1 1 0.5 0.999 3 [1; 2; 3] [1; 1; 1]) (grid_indices 3 3)
          [(2, 1, taylor 1 1 1 1 2 1 / 2); (2, 1, taylor 1 1 1 1 2 1 / 2);
           (3, 1, taylor 1 1 1 1 3 1 / 2); (3, 1, taylor 1 1 1 1 3 1 / 2)].
Proof.
  repeat constructor; cbn [fst snd]; (exact slope_at_two || exact slope_at_three).
Qed.

(** The witness: with the observed slope 0 the two visits at 2 m have the
    larger [diff], the first visit at 3 m has the least one and the second
    visit at 3 m ties with it.  The search returns the pair of the third
    visit; the decomposition the theorem speaks of is the one with two
    visits before and the tie after. *)
Lemma slopeD_first_minimum_witness :
  let c2 := taylor 1 1 1 1 2 1 in
  let c3 := taylor 1 1 1 1 3 1 in
  let evals := [(2, 1, c2 / 2); (2, 1, c2 / 2); (3, 1, c3 / 2); (3, 1, c3 / 2)] in
  let best := (3, 1, c3 / 2) in
  Forall2 (evaluated_as 1 1 1 0.5 0.999 3 [1; 2; 3] [1; 1; 1]) (grid_indices 3 3)
          evals /\
  evals = [(2, 1, c2 / 2); (2, 1, c2 / 2)] ++ best :: [(3, 1, c3 / 2)] /\
  slopeD 1 1 1 0.5 0.999 0 3 3 [1; 2; 3] [1; 1; 1] initial_workspace = Ok (3, 1) /\
  diff_of 0 best < 10 /\
  (forall e, In e [(2, 1, c2 / 2); (2, 1, c2 / 2)] -> diff_of 0 best < diff_of 0 e) /\
  (forall e, In e [(3, 1, c3 / 2)] -> diff_of 0 best <= diff_of 0 e) /\
  (forall e, In e evals -> diff_of 0 best <= diff_of 0 e) /\
  (forall e, In e evals -> diff_of 0 e = diff_of 0 best -> 3 <= fst (fst e)).
Proof.
  cbv zeta.
  destruct farther_is_lower as [[P3 L32] L2].
  set (c2 := taylor 1 1 1 1 2 1) in *. set (c3 := taylor 1 1 1 1 3 1) in *.
  assert (D2 : diff_of 0 (2, 1, c2 / 2) = c2 / 2)
    by (unfold diff_of; cbn [snd]; rewrite Rabs_right by lra; lra).
  assert (D3 : diff_of 0 (3, 1, c3 / 2) = c3 / 2)
    by (unfold diff_of; cbn [snd]; rewrite Rabs_right by lra; lra).
  destruct (slopeD_first_minimum 1 1 1 0.5 0.999 0 3 3 [1; 2; 3] [1; 1; 1] _ four_visits)
    as (before & best & after & E & Hrun & Hd & Hb & Ha & Hmin & Htie).
  { exists (3, 1, c3 / 2). split; [simpl; tauto | rewrite D3; lra]. }
  fold c2 c3 in E, Hmin, Htie.
  assert (Hbest : best = (3, 1, c3 / 2) /\ before = [(2, 1, c2 / 2); (2, 1, c2 / 2)]
                  /\ after = [(3, 1, c3 / 2)]).
  { destruct before as [| b1 [| b2 [| b3 [| b4 before']]]]; cbn [app] in E.
    - injection E as <- _.
      specialize (Hmin (3, 1, c3 / 2) ltac:(simpl; tauto)). rewrite D2, D3 in Hmin. lra.
    - injection E as _ <- _.
      specialize (Hmin (3, 1, c3 / 2) ltac:(simpl; tauto)). rewrite D2, D3 in Hmin. lra.
    - injection E as <- <- <- <-. repeat split; reflexivity.
    - injection E as _ _ <- <- _.
      specialize (Hb (3, 1, c3 / 2) ltac:(simpl; tauto)). lra.
    - exfalso. injection E as _ _ _ _ E. destruct before'; discriminate. }
  destruct Hbest as (-> & -> & ->). cbn [fst snd] in Hrun.
  split; [exact four_visits |]. split; [reflexivity |]. split; [exact Hrun |].
  split; [exact Hd |]. split; [exact Hb |]. split; [exact Ha |].
  split; [exact Hmin |].
  intros e He Heq. apply Htie; [| exact He | exact Heq].
  intros a b Hab Hb'. simpl in Hb'.
  destruct a as [| [| [| a]]], b as [| [| [| b]]]; simpl; try lra; lia.
Defined.

(** C6, refuted as stated: distances [1, 2], masses [1, 1], [A = U = K = 1]
    and an observed slope of 100.  The loops visit the single pair (2, 1); its
    synthetic curve on the times 1 and 20 has its peak [c] at the first time,
    both bounds at index 0, a front of one sample and the slope [c / 2] with
    [0 < c < 1].  Its [diff], the least of the grid, is above 90 and so not
    below the initial [diffi = 10]: no pair is recorded, and reading [XYZ]
    raises [NameError]. *)
Lemma sentinel_hides_minimum :
  Forall2 (evaluated_as 1 1 1 0.5 0.999 2 [1; 2] [1; 1]) (grid_indices 2 2)
          [(2, 1, taylor 1 1 1 1 2 1 / 2)] /\
  90 <= diff_of 100 (2, 1, taylor 1 1 1 1 2 1 / 2) /\
  slopeD 1 1 1 0.5 0.999 100 2 2 [1; 2] [1; 1] initial_workspace
    = Raise NameError /\
  estimateDistanceAndMass 1 1 1 0.5 0.999 100 1 1 2 1 2 2 = Raise NameError /\
  estimateDistanceAndMass 1 1 1 0.5 0.999 100 1 1 2 1 2 2 <> Ok (2, 1).
Proof.
  assert (Hd : 90 <= diff_of 100 (2, 1, taylor 1 1 1 1 2 1 / 2)).
  { destruct example_curve as [[P0 Q0] _].
    unfold diff_of. cbn [snd]. rewrite Rabs_left by lra. lra. }
  assert (Hr : slopeD 1 1 1 0.5 0.999 100 2 2 [1; 2] [1; 1] initial_workspace
               = Raise NameError).
  { apply (slopeD_sentinel _ _ _ _ _ _ _ _ _ _ _ one_visit).
    intros e [<- | []]. lra. }
  assert (He : estimateDistanceAndMass 1 1 1 0.5 0.999 100 1 1 2 1 2 2
               = Raise NameError).
  { unfold estimateDistanceAndMass. rewrite !linspace_two. exact Hr. }
  split; [exact one_visit |]. split; [exact Hd |]. split; [exact Hr |].
  split; [exact He | rewrite He; discriminate].
Qed.

(** ** Failure of the search *)

(** An exception at the first visit leaves both loops. *)
Lemma slopeD_first_visit_fails (A U K lo hi obs : R) (N MMM : nat)
  (xrange Msyn : list R) (w : workspace) (i j : nat)
  (rest : list (nat * nat)) (e : exn) :
  grid_indices N MMM = (i, j) :: rest ->
  (i < length xrange)%nat -> (j < length Msyn)%nat ->
  syn_slope A U K lo hi N (nth i xrange 0) (nth j Msyn 0) = Raise e ->
  slopeD A U K lo hi obs N MMM xrange Msyn w = Raise e.
Proof.
  intros Hgrid Hi Hj Hs. unfold slopeD. rewrite slopeD_loop_flat, Hgrid.
  cbn [for_each fst snd]. unfold loop_body at 1.
  rewrite (getitem_Ok xrange i Hi), (getitem_Ok Msyn j Hj). cbn [bind].
  rewrite Hs. reflexivity.
Qed.

Lemma slopeD_no_visit (A U K lo hi obs : R) (N MMM : nat) (xrange Msyn : list R) :
  grid_indices N MMM = [] ->
  slopeD A U K lo hi obs N MMM xrange Msyn initial_workspace = Raise NameError.
Proof.
  intros Hgrid. unfold slopeD. rewrite slopeD_loop_flat, Hgrid. reflexivity.
Qed.

Lemma characterize_flat_example :
  characterize [1; 2; 3] [0; 0; 0] 0.5 0.999 = Raise IndexError.
Proof.
  unfold characterize. simpl amax. Rdecide. cbn [bind].
  rewrite first_above_Raise; [reflexivity |].
  intros c Hc. simpl in Hc. intuition lra.
Qed.

(** C7, as the code has it.  When the observed front cannot be characterized,
    or when every visit of the grid search fails to characterize its
    synthetic curve, the run ends with the Python exception of the first
    failure, [IndexError] or [ValueError] ([NameError] when the loops visit
    nothing); it is never a result, and there is no other kind of error. *)
Theorem modeA_failure (A U K lo hi : R) (t C_obs : list R)
  (Mlow Mhigh : R) (MMM : nat) (Xlow Xhigh : R) (N : nat) :
  (exists e, characterize t C_obs lo hi = Raise e) \/
  (forall i j : nat, In (i, j) (grid_indices N MMM) ->
     exists e,
       syn_slope A U K lo hi N (nth i (linspace Xlow Xhigh N) 0)
                 (nth j (linspace Mlow Mhigh MMM) 0) = Raise e) ->
  exists e : exn,
    modeA A U K lo hi t C_obs Mlow Mhigh MMM Xlow Xhigh N = Raise e /\
    (e = IndexError \/ e = ValueError \/ e = NameError).
Proof.
  intros H. unfold modeA.
  destruct (characterize t C_obs lo hi) as [fc | e] eqn:Hc.
  - destruct H as [[e He] | Hgrid]; [discriminate |]. cbn [bind].
    unfold estimateDistanceAndMass.
    destruct (grid_indices N MMM) as [| [i j] rest] eqn:Hg.
    + exists NameError. split; [apply slopeD_no_visit; exact Hg | tauto].
    + assert (Hin : In (i, j) (grid_indices N MMM)) by (rewrite Hg; left; reflexivity).
      destruct (Hgrid i j (or_introl eq_refl)) as [e He].
      apply grid_indices_In in Hin.
      exists e. split.
      * apply (slopeD_first_visit_fails _ _ _ _ _ _ _ _ _ _ _ i j rest e Hg);
          rewrite ?linspace_length; try lia. exact He.
      * destruct (syn_slope_error _ _ _ _ _ _ _ _ _ He); tauto.
  - exists e. split; [reflexivity |].
    destruct (characterize_error _ _ _ _ _ Hc); tauto.
Qed.

Lemma modeA_failure_witness :
  exists e : exn,
    modeA 1 1 1 0.5 0.999 [1; 2; 3] [0; 0; 0] 1 2 2 1 2 2 = Raise e /\
    (e = IndexError \/ e = ValueError \/ e = NameError).
Proof.
  apply (modeA_failure 1 1 1 0.5 0.999 [1; 2; 3] [0; 0; 0] 1 2 2 1 2 2).
  left. exists IndexError. exact characterize_flat_example.
Defined.

(** C7, refuted as stated: with the mass range [0, 0] every synthetic curve
    is zero, every visit fails, and the search ends with [IndexError], not
    with [NoConvergenceError]. *)
Lemma zero_mass_grid_IndexError :
  (forall i j : nat, In (i, j) (grid_indices 2 2) ->
     exists e,
       syn_slope 1 1 1 0.5 0.999 2 (nth i (linspace 1 2 2) 0)
                 (nth j (linspace 0 0 2) 0) = Raise e) /\
  estimateDistanceAndMass 1 1 1 0.5 0.999 1 0 0 2 1 2 2 = Raise IndexError /\
  estimateDistanceAndMass 1 1 1 0.5 0.999 1 0 0 2 1 2 2 <> Raise NoConvergenceError.
Proof.
  assert (Hs : forall i j : nat, (j < 2)%nat ->
             syn_slope 1 1 1 0.5 0.999 2 (nth i (linspace 1 2 2) 0)
                       (nth j (linspace 0 0 2) 0) = Raise IndexError).
  { intros i j Hj. apply syn_slope_zero_mass; [| lia].
    rewrite linspace_nth by exact Hj. unfold Rdiv. ring. }
  assert (Hr : estimateDistanceAndMass 1 1 1 0.5 0.999 1 0 0 2 1 2 2
               = Raise IndexError).
  { unfold estimateDistanceAndMass.
    apply (slopeD_first_visit_fails _ _ _ _ _ _ _ _ _ _ _ 1 1 [] IndexError);
      [reflexivity | rewrite linspace_length; lia | rewrite linspace_length; lia |].
    apply Hs. lia. }
  split; [| split; [exact Hr | rewrite Hr; discriminate]].
  intros i j Hij. apply grid_indices_In in Hij.
  exists IndexError. apply Hs. lia.
Qed.

(** Whatever the inputs, the only exceptions of the run are those three. *)
Lemma for_each_error {I : Type} (P : exn -> Prop) (l : list I)
  (body : workspace -> I -> result workspace) (w : workspace) (e : exn) :
  (forall w' i e', body w' i = Raise e' -> P e') ->
  for_each l body w = Raise e -> P e.
Proof.
  intros Hbody. revert w. induction l as [| i l IH]; intros w H; simpl in H.
  - discriminate.
  - destruct (body w i) as [w' | e'] eqn:Hb; simpl in H.
    + apply (IH w' H).
    + injection H as <-. apply (Hbody w i e' Hb).
Qed.

Lemma loop_body_error (A U K lo hi obs : R) (N : nat) (xrange Msyn : list R)
  (w : workspace) (i j : nat) (e : exn) :
  loop_body A U K lo hi obs N xrange Msyn w i j = Raise e ->
  e = IndexError \/ e = ValueError \/ e = NameError.
Proof.
  unfold loop_body. intros Hb.
  split_bind Hb; [left; apply (getitem_error _ _ _ Hb) |].
  split_bind Hb; [left; apply (getitem_error _ _ _ Hb) |].
  split_bind Hb; [destruct (syn_slope_error _ _ _ _ _ _ _ _ _ Hb); tauto | discriminate].
Qed.

Lemma slopeD_error (A U K lo hi obs : R) (N MMM : nat) (xrange Msyn : list R)
  (w : workspace) (e : exn) :
  slopeD A U K lo hi obs N MMM xrange Msyn w = Raise e ->
  e = IndexError \/ e = ValueError \/ e = NameError.
Proof.
  unfold slopeD. rewrite slopeD_loop_flat. intros H.
  split_bind H.
  - revert H.
    apply (for_each_error (fun e => e = IndexError \/ e = ValueError \/ e = NameError)).
    intros w' [i j] e' Hb. apply (loop_body_error _ _ _ _ _ _ _ _ _ _ _ _ _ Hb).
  - destruct (XYZ a) as [x |]; simpl in H; [| injection H as <-; tauto].
    destruct (MYZ a) as [M |]; simpl in H; [discriminate | injection H as <-; tauto].
Qed.

Lemma modeA_error (A U K lo hi : R) (t C_obs : list R)
  (Mlow Mhigh : R) (MMM : nat) (Xlow Xhigh : R) (N : nat) (e : exn) :
  modeA A U K lo hi t C_obs Mlow Mhigh MMM Xlow Xhigh N = Raise e ->
  e = IndexError \/ e = ValueError \/ e = NameError.
Proof.
  unfold modeA. intros H. split_bind H.
  - destruct (characterize_error _ _ _ _ _ H); tauto.
  - apply (slopeD_error _ _ _ _ _ _ _ _ _ _ _ _ H).
Qed.

(** ** Mode B *)

(** C9, as the code has it.  Cell 16 calls the optimizer and unpacks its
    first two parameters, with no [try] and no test in between.  So Mode B
    fails exactly when the optimizer raises, with the exception of the
    optimizer unchanged (its [RuntimeError] when the iteration does not
    converge), or when it returns fewer than two parameters; and it returns
    [(K, U)] exactly when the optimizer returns parameters that begin with
    [K] and [U], whatever their sign.  It raises [OptimizationDivergedError]
    only if the optimizer itself does. *)
Theorem estimateDispersionAndVelocity_passes_through
  (curve_fit : (list R -> R -> R -> list R) -> list R -> list R -> list R ->
               result (list R * list (list R)))
  (M A x : R) (t C : list R) :
  let fit := curve_fit (taylor2nd M A x) t C [0.1; 0.1] in
  let run := estimateDispersionAndVelocity curve_fit M A x t C in
  (fit = Raise RuntimeError -> run = Raise RuntimeError) /\
  (forall e : exn,
     run = Raise e <->
     fit = Raise e \/
     (e = IndexError /\
      exists popt cov, fit = Ok (popt, cov) /\ (length popt < 2)%nat)) /\
  (forall K U : R,
     run = Ok (K, U) <-> exists rest cov, fit = Ok (K :: U :: rest, cov)) /\
  (run = Raise OptimizationDivergedError -> fit = Raise OptimizationDivergedError).
Proof.
  cbv zeta. unfold estimateDispersionAndVelocity.
  destruct (curve_fit (taylor2nd M A x) t C [0.1; 0.1]) as [[popt cov] | e0].
  - cbn [bind fst].
    destruct popt as [| K0 [| U0 rest]]; cbn [getitem nth_error bind].
    + split; [discriminate |]. split; [| split; [| discriminate]].
      * intros e. split.
        -- intros H. injection H as <-. right. split; [reflexivity |].
           exists [], cov. split; [reflexivity | simpl; lia].
        -- intros [H | (-> & _)]; [discriminate | reflexivity].
      * intros K U. split; [discriminate |]. intros (rest & cov' & H). discriminate.
    + split; [discriminate |]. split; [| split; [| discriminate]].
      * intros e. split.
        -- intros H. injection H as <-. right. split; [reflexivity |].
           exists [K0], cov. split; [reflexivity | simpl; lia].
        -- intros [H | (-> & _)]; [discriminate | reflexivity].
      * intros K U. split; [discriminate |]. intros (rest' & cov' & H). discriminate.
    + split; [discriminate |]. split; [| split; [| discriminate]].
      * intros e. split; [discriminate |].
        intros [H | (_ & popt & cov' & H & Hl)]; [discriminate |].
        injection H as <- _. simpl in Hl. lia.
      * intros K U. split.
        -- intros H. injection H as <- <-. exists rest, cov. reflexivity.
        -- intros (rest' & cov' & H). injection H as <- <- _ _. reflexivity.
  - cbn [bind]. split; [intros H; congruence |]. split; [| split].
    + intros e. split.
      * intros H. left. congruence.
      * intros [H | (_ & popt & cov & H & _)]; [congruence | discriminate].
    + intros K U. split; [discriminate |]. intros (rest & cov & H). discriminate.
    + intros H. congruence.
Qed.

(** C9, refuted as stated: on the two samples [t = [1, 2]], [C = [0, 0]]
    (with [M = A = x = 1]) the iteration of the optimizer does not converge
    and [curve_fit] raises [RuntimeError]; Mode B then fails with that
    [RuntimeError], not with [OptimizationDivergedError]. *)
Lemma nonconvergence_is_RuntimeError :
  let curve_fit := fun (_ : list R -> R -> R -> list R) (_ _ _ : list R) =>
                     @Raise (list R * list (list R)) RuntimeError in
  estimateDispersionAndVelocity curve_fit 1 1 1 [1; 2] [0; 0] = Raise RuntimeError /\
  estimateDispersionAndVelocity curve_fit 1 1 1 [1; 2] [0; 0]
  <> Raise OptimizationDivergedError.
Proof.
  cbv zeta. split; [reflexivity | discriminate].
Qed.

(** * Further properties of the notebooks *)

(** ** The conversion and the mass (cell 29) *)

Lemma C_area_from_length (prev : R) (l : list R) :
  length (C_area_from prev l) = length l.
Proof.
  revert prev. induction l as [| c l IH]; intros prev; simpl; [reflexivity |].
  f_equal. apply IH.
Qed.

Lemma C_area_from_nth (prev : R) (l : list R) (i : nat) :
  (i < length l)%nat ->
  nth i (C_area_from prev l) 0 = (nth i l 0 + nth i (prev :: l) 0) / 2.
Proof.
  revert prev i. induction l as [| c l IH]; intros prev i Hi; simpl in Hi; [lia |].
  destruct i as [| i']; [reflexivity |].
  cbn [C_area_from nth]. rewrite IH by lia. reflexivity.
Qed.

Lemma last_cons (l : list R) (c prev : R) : last (c :: l) prev = last l c.
Proof.
  revert c prev. induction l as [| d l IH]; intros c prev; [reflexivity |].
  change (last (c :: d :: l) prev) with (last (d :: l) prev).
  rewrite (IH d prev), (IH d c). reflexivity.
Qed.

Lemma C_area_from_sum (prev : R) (l : list R) :
  Rsum (C_area_from prev l) = Rsum l + (prev - last l prev) / 2.
Proof.
  revert prev. induction l as [| c l IH]; intros prev.
  - simpl. lra.
  - cbn [C_area_from Rsum fold_right]. fold (Rsum (C_area_from c l)). fold (Rsum l).
    rewrite IH.
    rewrite last_cons. lra.
Qed.

Lemma mass_estimate_sum (C_obs : list R) (sampint Q : R) :
  mass_estimate C_obs sampint Q
  = (Rsum C_obs - (nth 0 C_obs 0 + last C_obs 0) / 2) * sampint * Q.
Proof.
  unfold mass_estimate. destruct C_obs as [| c rest]; [simpl; lra |].
  cbn [C_area_of Rsum fold_right nth].
  fold (Rsum (C_area_from c rest)). fold (Rsum rest).
  rewrite C_area_from_sum, last_cons. lra.
Qed.

(** X1.  The area array has the length of the curve, a zero first entry and
    the means of consecutive samples after it; its sum is the trapezoid sum of
    the curve, so the mass is
    [(sum(C_obs) - (C_obs[0] + C_obs[-1]) / 2) * sampint * Q]. *)
Theorem mass_estimate_trapezoid (C_obs : list R) (sampint Q : R) :
  length (C_area_of C_obs) = length C_obs /\
  nth 0 (C_area_of C_obs) 0 = 0 /\
  (forall i : nat, (S i < length C_obs)%nat ->
     nth (S i) (C_area_of C_obs) 0 = (nth (S i) C_obs 0 + nth i C_obs 0) / 2) /\
  mass_estimate C_obs sampint Q
  = (Rsum C_obs - (nth 0 C_obs 0 + last C_obs 0) / 2) * sampint * Q.
Proof.
  split; [| split; [| split; [| apply mass_estimate_sum]]].
  - destruct C_obs as [| c rest]; [reflexivity |].
    simpl. f_equal. apply C_area_from_length.
  - destruct C_obs; reflexivity.
  - intros i Hi. destruct C_obs as [| c rest]; [simpl in Hi; lia |].
    simpl in Hi. cbn [C_area_of nth].
    rewrite C_area_from_nth by lia. reflexivity.
Qed.

Lemma C_area_from_bounds (prev : R) (l : list R) :
  0 <= prev -> Forall (fun c => 0 <= c) l ->
  0 <= Rsum (C_area_from prev l) /\ Rsum (C_area_from prev l) <= prev / 2 + Rsum l.
Proof.
  intros Hp Hl. rewrite C_area_from_sum.
  assert (Hall : 0 <= Rsum l /\ 0 <= last l prev /\ last l prev <= prev + Rsum l).
  { revert prev Hp. induction Hl as [| c l Hc Hl IH]; intros prev Hp.
    - simpl. repeat split; lra.
    - rewrite last_cons. destruct (IH c Hc) as (I0 & I1 & I2).
      cbn [Rsum fold_right]. fold (Rsum l). repeat split; lra. }
  destruct Hall as (Hnn & Hlast & Hsum).
  split; lra.
Qed.

Lemma toConcentration_nonneg (EC C_obs : list R) :
  toConcentration EC = Ok C_obs -> Forall (fun c => 0 <= c) C_obs.
Proof.
  unfold toConcentration. intros H.
  destruct (getitem (C_rel_of EC) 1) as [cb |]; simpl in H; [| discriminate].
  injection H as <-. apply Forall_forall. intros c Hc.
  apply in_map_iff in Hc. destruct Hc as (v & <- & _). apply clamp_sub_nonneg.
Qed.

(** X2.  On a series that holds the base-flow sample, with conductances that
    are not negative and whose power is a finite float64 (at most [2^880]),
    and a non-negative sampling interval and flow, cell 29 returns
    concentrations none of which is negative and a mass between zero and
    [sum(C_obs) * sampint * Q]. *)
Theorem cell29_mass_bounds (EC : list R) (sampint Q : R) :
  (1 < length EC)%nat -> Forall (fun e => 0 <= e <= 2 ^ 880) EC ->
  0 <= sampint -> 0 <= Q ->
  exists (C_obs : list R) (M : R),
    cell29 EC sampint Q = Ok (C_obs, M) /\
    length C_obs = length EC /\
    Forall (fun c => 0 <= c) C_obs /\
    0 <= M <= Rsum C_obs * sampint * Q.
Proof.
  intros Hlen _ Hs HQ. unfold cell29.
  destruct (toConcentration EC) as [C_obs | e] eqn:HC.
  2:{ unfold toConcentration in HC.
      rewrite getitem_Ok in HC by (unfold C_rel_of; rewrite length_map; exact Hlen).
      discriminate. }
  cbn [bind]. exists C_obs, (mass_estimate C_obs sampint Q).
  split; [reflexivity |].
  assert (Hnn := toConcentration_nonneg EC C_obs HC).
  split.
  { unfold toConcentration in HC.
    rewrite getitem_Ok in HC by (unfold C_rel_of; rewrite length_map; exact Hlen).
    injection HC as <-. unfold C_rel_of. rewrite !length_map. reflexivity. }
  split; [exact Hnn |].
  unfold mass_estimate. destruct C_obs as [| c rest].
  - simpl. split; lra.
  - inversion Hnn as [| ? ? Hc Hrest]; subst.
    destruct (C_area_from_bounds c rest Hc Hrest) as [B1 B2].
    cbn [C_area_of Rsum fold_right]. fold (Rsum (C_area_from c rest)). fold (Rsum rest).
    assert (HsQ : 0 <= sampint * Q) by (apply Rmult_le_pos; assumption).
    split.
    + rewrite Rmult_assoc. apply Rmult_le_pos; lra.
    + rewrite !Rmult_assoc. apply Rmult_le_compat_r; lra.
Qed.

Lemma cell29_mass_bounds_witness :
  exists (C_obs : list R) (M : R),
    cell29 [3; 2; 5] 1 1 = Ok (C_obs, M) /\
    length C_obs = length [3; 2; 5] /\
    Forall (fun c => 0 <= c) C_obs /\
    0 <= M <= Rsum C_obs * 1 * 1.
Proof.
  apply (cell29_mass_bounds [3; 2; 5] 1 1); [simpl; lia | | lra | lra].
  assert (H := two_le_pow 880 ltac:(lia)).
  assert (H8 : 8 <= 2 ^ 880).
  { replace 8 with (2 ^ 3) by (simpl; ring). apply Rle_pow; [lra | lia]. }
  repeat constructor; lra.
Defined.

Lemma toConcentration_defined (EC : list R) :
  (1 < length EC)%nat ->
  exists C_obs : list R, toConcentration EC = Ok C_obs /\ length C_obs = length EC.
Proof.
  intros Hlen. unfold toConcentration.
  rewrite getitem_Ok by (unfold C_rel_of; rewrite length_map; exact Hlen).
  cbn [bind]. eexists. split; [reflexivity |].
  unfold C_rel_of. rewrite !length_map. reflexivity.
Qed.

Lemma toConcentration_short (EC : list R) :
  (length EC < 2)%nat -> toConcentration EC = Raise IndexError.
Proof.
  intros Hshort. unfold toConcentration.
  rewrite getitem_Raise by (unfold C_rel_of; rewrite length_map; lia). reflexivity.
Qed.

(** X3.  The conversion fails, with [IndexError] at [C_rel[1]], exactly on
    the series of fewer than two samples; on every other series it returns. *)
Theorem toConcentration_short_series (EC : list R) :
  (toConcentration EC = Raise IndexError <-> (length EC < 2)%nat) /\
  (is_ok (toConcentration EC) <-> (1 < length EC)%nat).
Proof.
  destruct (Nat.lt_ge_cases 1 (length EC)) as [Hlong | Hshort].
  - destruct (toConcentration_defined EC Hlong) as (C_obs & HC & _). rewrite HC.
    split.
    + split; intros H; [discriminate | lia].
    + split; intros H; [exact Hlong | eexists; reflexivity].
  - rewrite toConcentration_short by lia. split.
    + split; intros H; [lia | reflexivity].
    + split; intros H; [destruct H as [v Hv]; discriminate | lia].
Qed.

(** The conversion of one conductance sample. *)
Lemma toConcentration_nth (EC C_obs : list R) (i : nat) :
  toConcentration EC = Ok C_obs -> (i < length EC)%nat ->
  nth i C_obs 0
  = clamp_sub (0.000013 * npow (nth 1 EC 0) 1.161074 * 10000)
              (0.000013 * npow (nth i EC 0) 1.161074 * 10000).
Proof.
  intros H Hi.
  assert (Hlen : (1 < length EC)%nat).
  { destruct (Nat.lt_ge_cases 1 (length EC)) as [Hl | Hs]; [exact Hl |].
    rewrite toConcentration_short in H by lia. discriminate. }
  unfold toConcentration in H.
  rewrite getitem_Ok in H by (unfold C_rel_of; rewrite length_map; exact Hlen).
  injection H as <-.
  set (conv := fun e => 0.000013 * npow e 1.161074 * 10000).
  assert (Hcb : nth 1 (C_rel_of EC) 0 = conv (nth 1 EC 0)).
  { unfold C_rel_of.
    rewrite (nth_indep _ 0 (conv 0)) by (rewrite length_map; exact Hlen).
    rewrite (map_nth conv). reflexivity. }
  rewrite Hcb.
  rewrite (nth_indep _ 0 (clamp_sub (conv (nth 1 EC 0)) (conv 0)))
    by (unfold C_rel_of; rewrite !length_map; exact Hi).
  unfold C_rel_of. rewrite map_map.
  rewrite (map_nth (fun e => clamp_sub (conv (nth 1 EC 0)) (conv e))). reflexivity.
Qed.

Lemma conv_monotone (a b : R) :
  0 <= a -> a <= b ->
  0.000013 * npow a 1.161074 * 10000 <= 0.000013 * npow b 1.161074 * 10000.
Proof.
  intros Ha Hab.
  assert (H : npow a 1.161074 <= npow b 1.161074)
    by (apply npow_le; lra).
  lra.
Qed.

Lemma conv_strict (a b : R) :
  0 <= a -> a < b ->
  0.000013 * npow a 1.161074 * 10000 < 0.000013 * npow b 1.161074 * 10000.
Proof.
  intros Ha Hab.
  assert (H : npow a 1.161074 < npow b 1.161074)
    by (apply npow_lt; lra).
  lra.
Qed.

Lemma clamp_sub_monotone (cb c c' : R) :
  c <= c' -> clamp_sub cb c <= clamp_sub cb c'.
Proof.
  intros H. unfold clamp_sub, Rltb.
  destruct (Rlt_dec (c - cb) 0), (Rlt_dec (c' - cb) 0); lra.
Qed.

(** X4.  On positive conductances the conversion keeps the order of the
    samples: the base-flow sample itself gives 0, a sample at or below the
    base-flow conductance gives 0, a sample above it gives a positive
    concentration, and a larger conductance never gives a smaller
    concentration. *)
Theorem toConcentration_monotone (EC : list R) :
  (1 < length EC)%nat -> Forall (fun e => 0 < e) EC ->
  exists C_obs : list R,
    toConcentration EC = Ok C_obs /\
    nth 1 C_obs 0 = 0 /\
    forall i : nat, (i < length EC)%nat ->
      (nth i EC 0 <= nth 1 EC 0 -> nth i C_obs 0 = 0) /\
      (nth 1 EC 0 < nth i EC 0 -> 0 < nth i C_obs 0) /\
      forall j : nat, (j < length EC)%nat ->
        nth i EC 0 <= nth j EC 0 -> nth i C_obs 0 <= nth j C_obs 0.
Proof.
  intros Hlen Hpos.
  destruct (toConcentration_defined EC Hlen) as (C_obs & HC & _).
  exists C_obs. split; [exact HC |].
  assert (Hp : forall i, (i < length EC)%nat -> 0 < nth i EC 0).
  { intros i Hi. rewrite Forall_forall in Hpos. apply Hpos. apply nth_In. exact Hi. }
  split.
  { rewrite (toConcentration_nth EC C_obs 1 HC Hlen).
    unfold clamp_sub. rewrite Rltb_false by lra. lra. }
  intros i Hi. rewrite (toConcentration_nth EC C_obs i HC Hi).
  split; [| split].
  - intros Hle.
    assert (H := conv_monotone _ _ (Rlt_le _ _ (Hp i Hi)) Hle).
    unfold clamp_sub, Rltb. destruct (Rlt_dec _ 0); lra.
  - intros Hlt.
    assert (H := conv_strict _ _ (Rlt_le _ _ (Hp 1%nat Hlen)) Hlt).
    unfold clamp_sub. rewrite Rltb_false by lra. lra.
  - intros j Hj Hle. rewrite (toConcentration_nth EC C_obs j HC Hj).
    apply clamp_sub_monotone.
    apply conv_monotone; [left; apply Hp; exact Hi | exact Hle].
Qed.

Lemma toConcentration_monotone_witness :
  exists C_obs : list R,
    toConcentration [3; 2; 5] = Ok C_obs /\
    nth 1 C_obs 0 = 0 /\
    forall i : nat, (i < length [3; 2; 5])%nat ->
      (nth i [3; 2; 5] 0 <= nth 1 [3; 2; 5] 0 -> nth i C_obs 0 = 0) /\
      (nth 1 [3; 2; 5] 0 < nth i [3; 2; 5] 0 -> 0 < nth i C_obs 0) /\
      forall j : nat, (j < length [3; 2; 5])%nat ->
        nth i [3; 2; 5] 0 <= nth j [3; 2; 5] 0 -> nth i C_obs 0 <= nth j C_obs 0.
Proof.
  apply (toConcentration_monotone [3; 2; 5]); [simpl; lia |].
  repeat constructor; lra.
Defined.

Lemma amax_of_zeros (C : list R) (m : R) :
  amax C = Ok m -> (forall c, In c C -> c = 0) -> m = 0.
Proof.
  intros Hmax Hz.
  destruct (argmax_attains C m Hmax) as (ip & _ & Hip & Hnth).
  rewrite <- Hnth. apply Hz. apply nth_In. exact Hip.
Qed.

(** X5.  A record without event: when no conductance exceeds the base-flow
    conductance, every observed concentration is zero, the mass is zero, and
    the characterization of the observed curve (cell 30) stops with
    [IndexError], whatever the times and the bound fractions. *)
Theorem no_event_no_front (EC t : list R) (sampint Q lo hi : R) :
  (1 < length EC)%nat -> Forall (fun e => 0 < e) EC ->
  (forall e, In e EC -> e <= nth 1 EC 0) ->
  exists (C_obs : list R) (M : R),
    cell29 EC sampint Q = Ok (C_obs, M) /\
    (forall c, In c C_obs -> c = 0) /\
    M = 0 /\
    characterize t C_obs lo hi = Raise IndexError.
Proof.
  intros Hlen Hpos Hflat.
  destruct (toConcentration_defined EC Hlen) as (C_obs & HC & HlenC).
  assert (Hz : forall c, In c C_obs -> c = 0).
  { intros c Hc. destruct (In_nth C_obs c 0 Hc) as (i & Hi & <-).
    rewrite HlenC in Hi. rewrite (toConcentration_nth EC C_obs i HC Hi).
    assert (Hp : 0 < nth i EC 0).
    { rewrite Forall_forall in Hpos. apply Hpos. apply nth_In. exact Hi. }
    assert (H := conv_monotone _ _ (Rlt_le _ _ Hp) (Hflat _ (nth_In EC 0 Hi))).
    unfold clamp_sub, Rltb. destruct (Rlt_dec _ 0); lra. }
  exists C_obs, (mass_estimate C_obs sampint Q).
  split; [unfold cell29; rewrite HC; reflexivity |].
  split; [exact Hz |].
  split.
  - rewrite mass_estimate_sum.
    assert (Hs : Rsum C_obs = 0).
    { clear - Hz. induction C_obs as [| c l IH]; [reflexivity |].
      cbn [Rsum fold_right]. fold (Rsum l).
      rewrite IH by (intros x Hx; apply Hz; right; exact Hx).
      rewrite (Hz c) by (left; reflexivity). lra. }
    assert (H0 : nth 0 C_obs 0 = 0).
    { destruct C_obs as [| c l]; [reflexivity |]. apply Hz. left. reflexivity. }
    assert (Hl : last C_obs 0 = 0).
    { destruct C_obs as [| c l]; [reflexivity |].
      destruct (exists_last (l:=c :: l)) as (l' & a & E); [discriminate |].
      rewrite E, last_last. apply Hz. rewrite E. apply in_or_app. right. left. reflexivity. }
    rewrite Hs, H0, Hl. lra.
  - unfold characterize.
    destruct (amax C_obs) as [Cmax | e] eqn:Hmax.
    + cbn [bind]. rewrite (amax_of_zeros C_obs Cmax Hmax Hz).
      rewrite first_above_Raise; [reflexivity |].
      intros c Hc. rewrite (Hz c Hc). lra.
    + destruct C_obs; [simpl in HlenC; lia | discriminate].
Qed.

Lemma no_event_no_front_witness :
  exists (C_obs : list R) (M : R),
    cell29 [2; 3; 3; 1] 1 1 = Ok (C_obs, M) /\
    (forall c, In c C_obs -> c = 0) /\
    M = 0 /\
    characterize [1; 2; 3; 4] C_obs 0.5 0.999 = Raise IndexError.
Proof.
  apply (no_event_no_front [2; 3; 3; 1] [1; 2; 3; 4] 1 1 0.5 0.999).
  - simpl. lia.
  - repeat constructor; lra.
  - intros e He. simpl in He. simpl. intuition lra.
Defined.

(** ** Loading the data (cell 28) *)

Lemma pow2_63_pos : 0 < 2 ^ 63.
Proof. apply pow_lt. lra. Qed.

Lemma pow2_64 : 2 ^ 64 = 2 * 2 ^ 63.
Proof. reflexivity. Qed.

Lemma pow2_63_large : 16 <= 2 ^ 63.
Proof.
  replace 16 with (2 ^ 4) by (simpl; ring). apply Rle_pow; [lra | lia].
Qed.

Lemma int64_wrap_id (v : R) : - 2 ^ 63 <= v < 2 ^ 63 -> int64_wrap v = v.
Proof.
  intros [H1 H2]. unfold int64_wrap.
  destruct (Rlt_dec v (- 2 ^ 63)); [lra |].
  destruct (Rlt_dec v (2 ^ 63)); [reflexivity | lra].
Qed.

(** A raw time below the largest int64 is shifted without wrap-around. *)
Lemma shift_no_wrap (s : R) : 0 <= s < 2 ^ 63 - 1 -> int64_wrap (s + 1) = s + 1.
Proof.
  intros H. assert (P := pow2_63_pos). apply int64_wrap_id. lra.
Qed.

Lemma shifted_nth (t_sec : list R) (i : nat) :
  Forall (fun s => 0 <= s < 2 ^ 63 - 1) t_sec -> (i < length t_sec)%nat ->
  nth i (map (fun s => int64_wrap (s + 1)) t_sec) 0 = nth i t_sec 0 + 1.
Proof.
  intros Hr Hi.
  rewrite (nth_indep _ 0 ((fun s => int64_wrap (s + 1)) 0))
    by (rewrite length_map; exact Hi).
  rewrite (map_nth (fun s => int64_wrap (s + 1))).
  apply shift_no_wrap. rewrite Forall_forall in Hr. apply Hr. apply nth_In. exact Hi.
Qed.

(** X6.  On two columns of equal length, with raw times that are not negative
    and below the largest int64, the cell fails, with [IndexError], exactly
    when the file has fewer than three rows.  Otherwise the base conductivity
    is the third sample, no time wraps around, the sampling interval is the
    difference of the third and second raw times (the shift by one second
    cancels), and every shifted time is at least one second. *)
Theorem load_rows (t_sec cond : list R) :
  length t_sec = length cond ->
  Forall (fun s => 0 <= s < 2 ^ 63 - 1) t_sec ->
  ((length cond < 3)%nat -> load t_sec cond = Raise IndexError) /\
  ((2 < length cond)%nat ->
   exists ld : Loaded,
     load t_sec cond = Ok ld /\
     ld_EC ld = cond /\
     length (ld_t ld) = length t_sec /\
     EC_base ld = nth 2 cond 0 /\
     sampint ld = nth 2 t_sec 0 - nth 1 t_sec 0 /\
     (forall i : nat, (i < length t_sec)%nat -> nth i (ld_t ld) 0 = nth i t_sec 0 + 1) /\
     Forall (fun ti => 1 <= ti) (ld_t ld)).
Proof.
  intros Hlen Hr. unfold load. split.
  - intros Hshort. rewrite getitem_Raise by lia. reflexivity.
  - intros Hlong.
    assert (Hin : forall i, (i < length t_sec)%nat -> 0 <= nth i t_sec 0 < 2 ^ 63 - 1).
    { intros i Hi. rewrite Forall_forall in Hr. apply Hr. apply nth_In. exact Hi. }
    rewrite (getitem_Ok cond 2) by lia. cbn [bind].
    rewrite !getitem_Ok by (rewrite length_map; lia). cbn [bind].
    eexists. split; [reflexivity |]. cbn [ld_EC ld_t EC_base sampint].
    split; [reflexivity |]. split; [apply length_map |]. split; [reflexivity |].
    split.
    { rewrite !(shifted_nth t_sec) by (assumption || lia).
      assert (H1 := Hin 1%nat ltac:(lia)). assert (H2 := Hin 2%nat ltac:(lia)).
      rewrite int64_wrap_id by lra. lra. }
    split; [intros i Hi; apply shifted_nth; assumption |].
    apply Forall_forall. intros ti Hti.
    apply in_map_iff in Hti. destruct Hti as (s0 & <- & Hs).
    rewrite Forall_forall in Hr. specialize (Hr s0 Hs).
    rewrite shift_no_wrap by exact Hr. lra.
Qed.

Lemma load_rows_witness :
  ((length [7; 8; 9] < 3)%nat -> load [0; 5; 10] [7; 8; 9] = Raise IndexError) /\
  ((2 < length [7; 8; 9])%nat ->
   exists ld : Loaded,
     load [0; 5; 10] [7; 8; 9] = Ok ld /\
     ld_EC ld = [7; 8; 9] /\
     length (ld_t ld) = length [0; 5; 10] /\
     EC_base ld = nth 2 [7; 8; 9] 0 /\
     sampint ld = nth 2 [0; 5; 10] 0 - nth 1 [0; 5; 10] 0 /\
     (forall i : nat, (i < length [0; 5; 10])%nat ->
        nth i (ld_t ld) 0 = nth i [0; 5; 10] 0 + 1) /\
     Forall (fun ti => 1 <= ti) (ld_t ld)).
Proof.
  apply (load_rows [0; 5; 10] [7; 8; 9]); [reflexivity |].
  assert (P := pow2_63_large). repeat constructor; lra.
Defined.

(** ** The observed front (cells 30 and 31) *)

Lemma front_fit_inv (t C : list R) (lo hi Cmax : R) (fr : Front) :
  front_fit t C lo hi Cmax = Ok fr ->
  first_above C (lo * Cmax) = Ok (indx1 fr) /\
  first_above C (hi * Cmax) = Ok (indx2 fr) /\
  getitem t (indx1 fr) = Ok (t1 fr) /\
  getitem t (indx2 fr) = Ok (t2 fr) /\
  take t (between t (t1 fr) (t2 fr)) = Ok (Lt fr) /\
  take C (between t (t1 fr) (t2 fr)) = Ok (LC fr) /\
  ols (Lt fr) (LC fr) = Ok (params fr).
Proof.
  unfold front_fit. intros H.
  destruct (first_above C (lo * Cmax)) as [i1 |] eqn:E1; [| discriminate].
  destruct (first_above C (hi * Cmax)) as [i2 |] eqn:E2; [| discriminate].
  cbn [bind] in H.
  destruct (getitem t i1) as [ta |] eqn:E3; [| discriminate].
  destruct (getitem t i2) as [tb |] eqn:E4; [| discriminate].
  cbn [bind] in H.
  destruct (take t (between t ta tb)) as [wt |] eqn:E5; [| discriminate].
  destruct (take C (between t ta tb)) as [wc |] eqn:E6; [| discriminate].
  cbn [bind] in H.
  destruct (ols wt wc) as [lm |] eqn:Hols; [| discriminate].
  cbn [bind] in H. injection H as <-. cbn. repeat split; assumption.
Qed.

Lemma characterize_inv (t C : list R) (lo hi : R) (fc : FrontCharacterization) :
  characterize t C lo hi = Ok fc ->
  amax C = Ok (fc_Cmax fc) /\
  front_fit t C lo hi (fc_Cmax fc) = Ok (fc_front fc) /\
  (exists i, first_above C (0.01 * fc_Cmax fc) = Ok i /\ getitem t i = Ok (fc_tstart fc)) /\
  (exists i, argmax C = Ok i /\ getitem t i = Ok (fc_tpeak fc)) /\
  dCdtmeas1 fc
  = (nth (indx2 (fc_front fc)) C 0 - nth (indx1 (fc_front fc)) C 0)
    / (t2 (fc_front fc) - t1 (fc_front fc)) /\
  dCdtreg1 fc = snd (params (fc_front fc)).
Proof.
  unfold characterize. intros H.
  destruct (amax C) as [Cmax |]; [| discriminate]. cbn [bind] in H.
  destruct (first_above C (0.01 * Cmax)) as [istart |] eqn:E1; [| discriminate].
  cbn [bind] in H.
  destruct (getitem t istart) as [ts |] eqn:E2; [| discriminate]. cbn [bind] in H.
  destruct (argmax C) as [ip |] eqn:E3; [| discriminate]. cbn [bind] in H.
  destruct (getitem t ip) as [tp |] eqn:E4; [| discriminate]. cbn [bind] in H.
  destruct (front_fit t C lo hi Cmax) as [fr |] eqn:E5; [| discriminate].
  cbn [bind] in H. injection H as <-. cbn.
  split; [reflexivity |]. split; [exact E5 |].
  split; [exists istart; split; assumption |].
  split; [exists ip; split; [reflexivity | assumption] |].
  split; reflexivity.
Qed.

(** The characterization of a curve with a positive peak. *)
Lemma characterize_defined (t C : list R) (lo hi Cmax : R) :
  length t = length C ->
  amax C = Ok Cmax -> 0 < Cmax ->
  0.01 <= lo -> lo <= hi -> hi < 1 ->
  (forall a b : nat, (a <= b)%nat -> (b < length t)%nat -> nth a t 0 <= nth b t 0) ->
  exists fc : FrontCharacterization,
    characterize t C lo hi = Ok fc /\
    fc_Cmax fc = Cmax /\
    (forall c, In c C -> c <= fc_Cmax fc) /\
    fc_tstart fc <= t1 (fc_front fc) /\
    t1 (fc_front fc) <= t2 (fc_front fc) /\
    t2 (fc_front fc) <= fc_tpeak fc.
Proof.
  intros Hlen Hmax Hpos Hlo Hle Hhi Hmono.
  destruct (bounds_below_peak C Cmax 0.01 lo Hmax Hpos ltac:(lra) Hlo ltac:(lra))
    as (i0 & i1 & ip & Hip & _ & H0 & H1 & L01 & _ & Lp).
  destruct (bounds_below_peak C Cmax lo hi Hmax Hpos ltac:(lra) Hle Hhi)
    as (i1' & i2 & ip' & Hip' & _ & H1' & H2 & L12 & L2p & _).
  assert (i1' = i1) by congruence. assert (ip' = ip) by congruence. subst i1' ip'.
  assert (Hle12 : nth i1 t 0 <= nth i2 t 0) by (apply Hmono; lia).
  destruct (front_fit_ok t C lo hi Cmax i1 i2 Hlen H1 H2 Hle12)
    as (wt & wc & a & b & Hfit & _).
  unfold characterize. rewrite Hmax. cbn [bind]. rewrite H0. cbn [bind].
  rewrite (getitem_Ok t i0) by lia. cbn [bind]. rewrite Hip. cbn [bind].
  rewrite (getitem_Ok t ip) by lia. cbn [bind]. rewrite Hfit. cbn [bind].
  eexists. split; [reflexivity |]. cbn.
  split; [reflexivity |]. split; [apply (amax_upper C Cmax Hmax) |].
  split; [apply Hmono; lia |]. split; [exact Hle12 | apply Hmono; lia].
Qed.

(** X7.  Whenever the characterization of a series with non-decreasing times
    returns, with fractions [0.01 <= ClowerD <= CupperD], its peak is
    positive and bounds every sample, and its four times are in the order
    initial front, lower bound, upper bound, peak. *)
Theorem characterize_times_ordered (t C : list R) (lo hi : R)
  (fc : FrontCharacterization) :
  0.01 <= lo -> lo <= hi ->
  (forall a b : nat, (a <= b)%nat -> (b < length t)%nat -> nth a t 0 <= nth b t 0) ->
  characterize t C lo hi = Ok fc ->
  0 < fc_Cmax fc /\
  (forall c, In c C -> c <= fc_Cmax fc) /\
  fc_tstart fc <= t1 (fc_front fc) /\
  t1 (fc_front fc) <= t2 (fc_front fc) /\
  t2 (fc_front fc) <= fc_tpeak fc.
Proof.
  intros Hlo Hle Hmono H.
  destruct (characterize_inv t C lo hi fc H)
    as (Hmax & Hfr & (i0 & H0 & G0) & (ip & Hip & Gp) & _ & _).
  destruct (front_fit_inv _ _ _ _ _ _ Hfr) as (H1 & H2 & G1 & G2 & _).
  set (Cmax := fc_Cmax fc) in *.
  set (i1 := indx1 (fc_front fc)) in *. set (i2 := indx2 (fc_front fc)) in *.
  apply first_above_Ok in H0. destruct H0 as (L0 & A0 & M0).
  apply first_above_Ok in H1. destruct H1 as (L1 & A1 & M1).
  apply first_above_Ok in H2. destruct H2 as (L2 & A2 & M2).
  assert (Hup : forall c, In c C -> c <= Cmax) by (apply amax_upper; exact Hmax).
  assert (U0 : nth i0 C 0 <= Cmax) by (apply Hup; apply nth_In; exact L0).
  assert (Hpos : 0 < Cmax) by lra.
  destruct (argmax_attains C Cmax Hmax) as (ip' & Hip' & Lp & Ap).
  assert (ip' = ip) by congruence. subst ip'.
  assert (U2 : nth i2 C 0 <= Cmax) by (apply Hup; apply nth_In; exact L2).
  assert (O01 : (i0 <= i1)%nat).
  { destruct (Nat.le_gt_cases i0 i1) as [Hl | Hg]; [exact Hl |].
    specialize (M0 i1 Hg). nra. }
  assert (O12 : (i1 <= i2)%nat).
  { destruct (Nat.le_gt_cases i1 i2) as [Hl | Hg]; [exact Hl |].
    specialize (M1 i2 Hg). nra. }
  assert (O2p : (i2 <= ip)%nat).
  { destruct (Nat.le_gt_cases i2 ip) as [Hl | Hg]; [exact Hl |].
    specialize (M2 ip Hg). lra. }
  apply getitem_inv in G0. apply getitem_inv in G1.
  apply getitem_inv in G2. apply getitem_inv in Gp.
  destruct G0 as [_ ->]. destruct G1 as [_ ->].
  destruct G2 as [_ ->]. destruct Gp as [Lpt ->].
  split; [exact Hpos |]. split; [exact Hup |].
  split; [apply Hmono; lia |]. split; apply Hmono; lia.
Qed.

Lemma characterize_example :
  characterize [1; 2; 3] [0; 6; 10] 0.5 0.999
  = Ok (mkFC 10 2 3 (mkFront 1 2 2 3 [2; 3] [6; 10] (-2, 4)) 4 4).
Proof.
  unfold characterize. cbn [amax fold_left]. Rdecide. cbn [bind].
  unfold front_fit, first_above, between, in_window, nonzero. cbn [map nonzero_from].
  Rdecide. cbn [nonzero_from item0 bind getitem nth_error argmax argmax_from].
  Rdecide. cbn [nonzero_from item0 bind getitem nth_error andb take].
  unfold ols. cbn [bind].
  destruct (Req_dec_T (Sxx [2; 3]) 0) as [E | _].
  { exfalso. unfold Sxx, mean, Rsum in E. simpl in E. lra. }
  cbn [bind indx1 indx2 t1 t2 params snd nth].
  assert (Em : mean [2; 3] = 5 / 2) by (unfold mean, Rsum; simpl; field).
  assert (Ec : mean [6; 10] = 8) by (unfold mean, Rsum; simpl; field).
  assert (Exx : Sxx [2; 3] = 1 / 2) by (unfold Sxx; rewrite Em; unfold Rsum; simpl; field).
  assert (Exy : Sxy [2; 3] [6; 10] = 2)
    by (unfold Sxy; rewrite Em, Ec; unfold Rsum; simpl; field).
  rewrite Em, Ec, Exx, Exy.
  replace (8 - 2 / (1 / 2) * (5 / 2)) with (-2) by field.
  replace (2 / (1 / 2)) with 4 by field.
  replace ((10 - 6) / (3 - 2)) with 4 by field.
  reflexivity.
Qed.

Lemma characterize_times_ordered_witness :
  let fc := mkFC 10 2 3 (mkFront 1 2 2 3 [2; 3] [6; 10] (-2, 4)) 4 4 in
  characterize [1; 2; 3] [0; 6; 10] 0.5 0.999 = Ok fc /\
  0 < fc_Cmax fc /\
  (forall c, In c [0; 6; 10] -> c <= fc_Cmax fc) /\
  fc_tstart fc <= t1 (fc_front fc) /\
  t1 (fc_front fc) <= t2 (fc_front fc) /\
  t2 (fc_front fc) <= fc_tpeak fc.
Proof.
  split; [exact characterize_example |].
  apply (characterize_times_ordered [1; 2; 3] [0; 6; 10] 0.5 0.999); try lra.
  - intros a b Hab Hb. simpl in Hb.
    destruct a as [| [| [| a]]], b as [| [| [| b]]]; simpl; try lra; lia.
  - exact characterize_example.
Defined.

Lemma sum_squares_zero_gen (d : list (R * R)) (g : R * R -> R) :
  Rsum (map (fun p => g p * g p) d) = 0 -> forall p, In p d -> g p = 0.
Proof.
  induction d as [| q rest IH]; simpl; [intros _ p [] |].
  intros H.
  assert (H0 := sum_squares_nonneg rest g).
  assert (Hq : 0 <= g q * g q) by apply Rle_0_sqr.
  intros p [<- | Hp].
  - nra.
  - apply IH; [| exact Hp]. lra.
Qed.

(** A fit through samples that lie on one line, two of them at different
    times, is that line. *)
Lemma ols_exact (ts cs : list R) (a b a0 b0 ta tb : R) :
  length ts = length cs ->
  ols ts cs = Ok (a, b) ->
  (forall p, In p (combine ts cs) -> snd p = a0 + b0 * fst p) ->
  In ta ts -> In tb ts -> ta < tb ->
  a = a0 /\ b = b0.
Proof.
  intros Hlen Hols Hline Ha Hb Hlt.
  assert (Hmin := ols_minimizes ts cs a b Hlen Hols a0 b0).
  assert (Hzero : ssr ts cs a0 b0 = 0).
  { unfold ssr. clear - Hline. induction (combine ts cs) as [| p d IH]; [reflexivity |].
    cbn [map Rsum fold_right]. unfold Rsum in IH.
    rewrite IH by (intros q Hq; apply Hline; right; exact Hq).
    rewrite (Hline p (or_introl eq_refl)). ring. }
  assert (Hnn := sum_squares_nonneg (combine ts cs) (fun p => snd p - (a + b * fst p))).
  assert (Hres : forall p, In p (combine ts cs) -> snd p - (a + b * fst p) = 0).
  { apply (sum_squares_zero_gen (combine ts cs) (fun p => snd p - (a + b * fst p))).
    unfold ssr in Hmin, Hzero. cbv beta in Hnn. lra. }
  assert (Hpair : forall tv, In tv ts -> a + b * tv = a0 + b0 * tv).
  { intros tv Hin. destruct (In_nth ts tv 0 Hin) as (k & Hk & <-).
    assert (Hp : In (nth k ts 0, nth k cs 0) (combine ts cs)).
    { rewrite <- (combine_nth ts cs k 0 0 Hlen). apply nth_In.
      rewrite length_combine. lia. }
    specialize (Hres _ Hp). specialize (Hline _ Hp). simpl in Hres, Hline. lra. }
  specialize (Hpair ta Ha) as Ea. specialize (Hpair tb Hb) as Eb.
  assert (b = b0) by nra. split; [nra | assumption].
Qed.

(** X8.  When the samples between the two bound times lie on one line
    [a0 + b0 t] and the bound times differ, the two slopes the cell prints,
    the slope between the two bound samples and the slope of the regression
    line, are both [b0]. *)
Theorem linear_front_slopes (t C : list R) (lo hi a0 b0 : R)
  (fc : FrontCharacterization) :
  length t = length C ->
  characterize t C lo hi = Ok fc ->
  t1 (fc_front fc) < t2 (fc_front fc) ->
  (forall k : nat, (k < length t)%nat ->
     t1 (fc_front fc) <= nth k t 0 <= t2 (fc_front fc) ->
     nth k C 0 = a0 + b0 * nth k t 0) ->
  dCdtmeas1 fc = b0 /\ dCdtreg1 fc = b0 /\ fst (params (fc_front fc)) = a0.
Proof.
  intros Hlen Hc Hlt Hline.
  destruct (characterize_inv t C lo hi fc Hc) as (_ & Hfit & _ & _ & Hmeas & Hreg).
  set (fr := fc_front fc) in *.
  destruct (front_fit_inv t C lo hi (fc_Cmax fc) fr Hfit)
    as (H1 & H2 & G1 & G2 & T1 & T2 & Hols).
  apply getitem_inv in G1. apply getitem_inv in G2.
  destruct G1 as [L1 E1]. destruct G2 as [L2 E2].
  unfold between in T1, T2.
  rewrite (take_mask (in_window (t1 fr) (t2 fr)) t t eq_refl) in T1.
  rewrite (take_mask (in_window (t1 fr) (t2 fr)) t C (eq_sym Hlen)) in T2.
  injection T1 as T1. injection T2 as T2.
  assert (Hpairs := masked_pairs (in_window (t1 fr) (t2 fr)) t C Hlen).
  rewrite T1, T2 in Hpairs.
  assert (Hwl : length (Lt fr) = length (LC fr)).
  { assert (A1 : take t (nonzero (map (in_window (t1 fr) (t2 fr)) t)) = Ok (Lt fr))
      by (rewrite take_mask by reflexivity; rewrite T1; reflexivity).
    assert (A2 : take C (nonzero (map (in_window (t1 fr) (t2 fr)) t)) = Ok (LC fr))
      by (rewrite take_mask by (symmetry; exact Hlen); rewrite T2; reflexivity).
    rewrite (take_length _ _ _ A1), (take_length _ _ _ A2). reflexivity. }
  assert (Hin : forall k, (k < length t)%nat ->
                  t1 fr <= nth k t 0 <= t2 fr ->
                  In (nth k t 0, nth k C 0) (combine (Lt fr) (LC fr))).
  { intros k Hk Hw. rewrite Hpairs. apply filter_In. split.
    - rewrite <- (combine_nth t C k 0 0 Hlen). apply nth_In.
      rewrite length_combine. lia.
    - simpl. apply in_window_true. exact Hw. }
  assert (Hon : forall p, In p (combine (Lt fr) (LC fr)) -> snd p = a0 + b0 * fst p).
  { intros p Hp. rewrite Hpairs in Hp. apply filter_In in Hp. destruct Hp as [Hp Hw].
    apply in_window_true in Hw.
    destruct (In_nth _ _ (0, 0) Hp) as (k & Hk & E).
    rewrite combine_nth in E by exact Hlen. rewrite <- E in *. simpl in *.
    apply Hline; [rewrite length_combine in Hk; lia | exact Hw]. }
  assert (Hfst : forall p, In p (combine (Lt fr) (LC fr)) -> In (fst p) (Lt fr)).
  { intros [x y] Hp. simpl. apply (in_combine_l _ _ _ _ Hp). }
  assert (Ia : In (t1 fr) (Lt fr)).
  { rewrite E1. apply (Hfst (nth (indx1 fr) t 0, nth (indx1 fr) C 0)).
    apply Hin; [exact L1 | rewrite <- E1; lra]. }
  assert (Ib : In (t2 fr) (Lt fr)).
  { rewrite E2. apply (Hfst (nth (indx2 fr) t 0, nth (indx2 fr) C 0)).
    apply Hin; [exact L2 | rewrite <- E2; lra]. }
  destruct (params fr) as [a b] eqn:Ep.
  destruct (ols_exact (Lt fr) (LC fr) a b a0 b0 (t1 fr) (t2 fr) Hwl Hols Hon Ia Ib Hlt)
    as [Ea Eb].
  split; [| split; [rewrite Hreg; exact Eb | exact Ea]].
  rewrite Hmeas.
  rewrite (Hline (indx2 fr) L2) by (rewrite <- E2; lra).
  rewrite (Hline (indx1 fr) L1) by (rewrite <- E1; lra).
  rewrite <- E1, <- E2. field. lra.
Qed.

Lemma linear_front_slopes_witness :
  exists fc : FrontCharacterization,
    characterize [1; 2; 3] [0; 6; 10] 0.5 0.999 = Ok fc /\
    dCdtmeas1 fc = 4 /\ dCdtreg1 fc = 4 /\ fst (params (fc_front fc)) = -2.
Proof.
  destruct (characterize_defined [1; 2; 3] [0; 6; 10] 0.5 0.999 10)
    as (fc & Hfc & HCmax & _); try lra.
  - reflexivity.
  - simpl. Rdecide. reflexivity.
  - intros a b Hab Hb. simpl in Hb.
    destruct a as [| [| [| a]]], b as [| [| [| b]]]; simpl; try lra; lia.
  - exists fc. split; [exact Hfc |].
    destruct (characterize_inv _ _ _ _ _ Hfc) as (_ & Hfit & _).
    destruct (front_fit_inv _ _ _ _ _ _ Hfit) as (H1 & H2 & G1 & G2 & _).
    rewrite HCmax in H1, H2.
    assert (E1 : first_above [0; 6; 10] (0.5 * 10) = Ok 1%nat)
      by (unfold first_above, nonzero; simpl; Rdecide; reflexivity).
    assert (E2 : first_above [0; 6; 10] (0.999 * 10) = Ok 2%nat)
      by (unfold first_above, nonzero; simpl; Rdecide; reflexivity).
    rewrite E1 in H1. rewrite E2 in H2.
    injection H1 as H1. injection H2 as H2.
    rewrite <- H1 in G1. rewrite <- H2 in G2.
    simpl in G1, G2. injection G1 as G1. injection G2 as G2.
    apply (linear_front_slopes [1; 2; 3] [0; 6; 10] 0.5 0.999 (-2) 4 fc).
    + reflexivity.
    + exact Hfc.
    + rewrite <- G1, <- G2. lra.
    + intros k Hk Hw. rewrite <- G1, <- G2 in Hw. simpl in Hk.
      destruct k as [| [| [| k]]]; simpl in *; try lra; lia.
Defined.

(** ** The body of the grid search (cell 34) *)

Lemma taylor_neg (A M U K x t : R) :
  0 < A -> M < 0 -> 0 < K -> 0 < t -> taylor A M U K x t < 0.
Proof.
  intros HA HM HK Ht.
  assert (H := taylor_pos A (- M) U K x t HA ltac:(lra) HK Ht).
  unfold taylor in *. unfold Rdiv in *.
  rewrite <- Ropp_mult_distr_l in H. rewrite <- Ropp_mult_distr_l in H. lra.
Qed.

(** X10.  A candidate mass that is zero or negative gives a curve with no
    sample above the lower threshold: the body of the loop stops with
    [IndexError] at the first bound lookup. *)
Theorem loop_body_nonpositive_mass (A U K lo hi : R) (N : nat) (x M : R) :
  0 < A -> 0 < K -> 1 <= 10 * (x / U) -> lo < 1 -> (0 < N)%nat -> M <= 0 ->
  syn_slope A U K lo hi N x M = Raise IndexError.
Proof.
  intros HA HK Hend Hlo HN HM.
  destruct (Req_dec_T M 0) as [Hz | Hnz]; [apply syn_slope_zero_mass; assumption |].
  assert (Hneg : M < 0) by lra.
  unfold syn_slope, taylorU. cbn [bind].
  set (tsyn := linspace 1 (10 * (x / U)) N).
  set (Csyn := map (taylor A M U K x) tsyn).
  assert (Hlt : length tsyn = N) by apply linspace_length.
  assert (Hall : forall c, In c Csyn -> c < 0).
  { intros c Hc. apply in_map_iff in Hc. destruct Hc as (ti & <- & Hti).
    apply taylor_neg; try assumption.
    destruct (In_nth tsyn ti 0 Hti) as (k & Hk & <-).
    assert (1 <= nth k tsyn 0) by (apply linspace_lower; [exact Hend | lia]). lra. }
  assert (Hne : Csyn <> []).
  { intros E. assert (L : length Csyn = N) by (unfold Csyn; rewrite length_map; exact Hlt).
    rewrite E in L. simpl in L. lia. }
  destruct (amax_nonempty Csyn Hne) as [Cmax Hmax]. rewrite Hmax. cbn [bind].
  rewrite front_fit_no_crossing; [reflexivity |].
  destruct (argmax_attains Csyn Cmax Hmax) as (ip & _ & Hip & Hnth).
  assert (HCneg : Cmax < 0) by (rewrite <- Hnth; apply Hall; apply nth_In; exact Hip).
  intros c Hc Hgt. assert (Hup := amax_upper Csyn Cmax Hmax c Hc). nra.
Qed.

Lemma loop_body_nonpositive_mass_witness :
  syn_slope 1 1 1 0.5 0.999 3 2 (-1) = Raise IndexError.
Proof.
  apply (loop_body_nonpositive_mass 1 1 1 0.5 0.999 3 2 (-1)); try lra. lia.
Defined.

(** *** The slope is proportional to the mass *)





Lemma getitem_map (g : R -> R) (l : list R) (i : nat) :
  getitem (map g l) i = (v <- getitem l i ;; Ok (g v)).
Proof.
  unfold getitem. rewrite nth_error_map. destruct (nth_error l i); reflexivity.
Qed.










(** ** The search as a whole (cells 33 and 34) *)

(** A loop that ends without exception has evaluated every visit. *)
Lemma loop_ok_evals (A U K lo hi obs : R) (N : nat) (xrange Msyn : list R)
  (idxs : list (nat * nat)) (w w' : workspace) :
  for_each idxs
    (fun w ij => loop_body A U K lo hi obs N xrange Msyn w (fst ij) (snd ij)) w
  = Ok w' ->
  exists evals, Forall2 (evaluated_as A U K lo hi N xrange Msyn) idxs evals.
Proof.
  revert w. induction idxs as [| ij idxs IH]; intros w H.
  - exists []. constructor.
  - cbn [for_each] in H. unfold loop_body at 1 in H.
    destruct (getitem xrange (fst ij)) as [x |] eqn:Ex; [| discriminate].
    cbn [bind] in H.
    destruct (getitem Msyn (snd ij)) as [M |] eqn:EM; [| discriminate].
    cbn [bind] in H.
    destruct (syn_slope A U K lo hi N x M) as [s |] eqn:Es; [| discriminate].
    cbn [bind] in H. destruct (IH _ H) as [evals Hev].
    exists ((x, M, s) :: evals). constructor; [| exact Hev].
    repeat split; assumption.
Qed.

Lemma evals_exist (A U K lo hi : R) (N : nat) (xrange Msyn : list R)
  (idxs : list (nat * nat)) :
  (forall ij, In ij idxs ->
     exists e, evaluated_as A U K lo hi N xrange Msyn ij e) ->
  exists evals, Forall2 (evaluated_as A U K lo hi N xrange Msyn) idxs evals.
Proof.
  induction idxs as [| ij idxs IH]; intros H.
  - exists []. constructor.
  - destruct (H ij (or_introl eq_refl)) as [e He].
    destruct IH as [evals Hev]; [intros k Hk; apply H; right; exact Hk |].
    exists (e :: evals). constructor; assumption.
Qed.

Lemma fold_update_no_improvement (obs : R) (evals : list (R * R * R)) (w : workspace) :
  (forall e, In e evals -> diffi w <= diff_of obs e) ->
  fold_left (fun w e => update obs w (fst (fst e)) (snd (fst e)) (snd e)) evals w = w.
Proof.
  induction evals as [| e rest IH]; intros H; [reflexivity |].
  cbn [fold_left]. rewrite update_keeps by (apply H; left; reflexivity).
  apply IH. intros x Hx. apply H. right. exact Hx.
Qed.

(** The pair the search returns, read off the run. *)
Lemma slopeD_result (A U K lo hi obs : R) (N MMM : nat) (xrange Msyn : list R)
  (x M : R) :
  slopeD A U K lo hi obs N MMM xrange Msyn initial_workspace = Ok (x, M) ->
  exists (evals : list (R * R * R)) (s : R),
    Forall2 (evaluated_as A U K lo hi N xrange Msyn) (grid_indices N MMM) evals /\
    In (x, M, s) evals /\
    diff_of obs (x, M, s) < 10 /\
    forall e, In e evals -> diff_of obs (x, M, s) <= diff_of obs e.
Proof.
  intros H.
  assert (Hloop : exists w', slopeD_loop A U K lo hi obs N MMM xrange Msyn
                               initial_workspace = Ok w').
  { unfold slopeD in H.
    destruct (slopeD_loop A U K lo hi obs N MMM xrange Msyn initial_workspace)
      as [w' |]; [exists w'; reflexivity | discriminate]. }
  destruct Hloop as [w' Hloop]. rewrite slopeD_loop_flat in Hloop.
  destruct (loop_ok_evals _ _ _ _ _ _ _ _ _ _ _ _ Hloop) as [evals Hev].
  rewrite (slopeD_fold _ _ _ _ _ _ _ _ _ _ evals _ Hev) in H. cbv zeta in H.
  destruct (fold_update_first_min obs evals initial_workspace)
    as [[Hw _] | (before & best & after & E & Hw & Hd & Hb & Ha)].
  - rewrite Hw in H. discriminate.
  - rewrite Hw in H. cbn in H. injection H as <- <-.
    destruct best as [[bx bM] bs]. cbn [fst snd] in *.
    exists evals, bs. split; [exact Hev |].
    split; [rewrite E; apply in_or_app; right; left; reflexivity |].
    split; [exact Hd |].
    intros e He. rewrite E in He. apply in_app_or in He.
    destruct He as [He | [<- | He]]; [left; apply Hb; exact He | lra | apply Ha; exact He].
Qed.

Lemma one_visit_result :
  slopeD 1 1 1 0.5 0.999 0 2 2 [1; 2] [1; 1] initial_workspace = Ok (2, 1).
Proof.
  rewrite (slopeD_fold _ _ _ _ _ _ _ _ _ _ _ _ one_visit). cbv zeta.
  cbn [fold_left].
  destruct example_curve as [[P0 Q0] _].
  assert (Hd : diff_of 0 (2, 1, taylor 1 1 1 1 2 1 / 2) < diffi initial_workspace).
  { unfold diff_of. cbn [snd diffi initial_workspace]. rewrite Rabs_right by lra. lra. }
  rewrite (update_improves 0 initial_workspace (2, 1, taylor 1 1 1 1 2 1 / 2) Hd).
  reflexivity.
Qed.

(** X12.  Whatever the inputs, a pair the search returns is a pair it
    visited: a distance and a mass of the two grids at indices
    [1 <= i < N] and [1 <= j < MMM], whose synthetic front has a slope within
    10 of the observed slope, and no visited pair has a slope nearer to the
    observed one. *)
Theorem slopeD_returns_visited_pair (A U K lo hi obs : R) (N MMM : nat)
  (xrange Msyn : list R) (x M : R) :
  slopeD A U K lo hi obs N MMM xrange Msyn initial_workspace = Ok (x, M) ->
  exists (i j : nat) (s : R),
    (1 <= i < N)%nat /\ (1 <= j < MMM)%nat /\
    nth_error xrange i = Some x /\ nth_error Msyn j = Some M /\
    syn_slope A U K lo hi N x M = Ok s /\
    Rabs (s - obs) < 10 /\
    forall (i' j' : nat) (s' : R),
      (1 <= i' < N)%nat -> (1 <= j' < MMM)%nat ->
      syn_slope A U K lo hi N (nth i' xrange 0) (nth j' Msyn 0) = Ok s' ->
      Rabs (s - obs) <= Rabs (s' - obs).
Proof.
  intros H.
  destruct (slopeD_result _ _ _ _ _ _ _ _ _ _ _ _ H) as (evals & s & Hev & Hin & Hd & Hmin).
  destruct (Forall2_In_r _ _ _ _ Hev Hin) as ([i j] & Hij & Hx & HM & Hs).
  cbn [fst snd] in *. apply grid_indices_In in Hij.
  exists i, j, s.
  split; [tauto |]. split; [tauto |].
  split. { unfold getitem in Hx. destruct (nth_error xrange i); congruence. }
  split. { unfold getitem in HM. destruct (nth_error Msyn j); congruence. }
  split; [exact Hs |]. split; [exact Hd |].
  intros i' j' s' Hi' Hj' Hs'.
  assert (Hgrid : In (i', j') (grid_indices N MMM)) by (apply grid_indices_In; tauto).
  assert (Hex : exists e, In e evals /\
                          evaluated_as A U K lo hi N xrange Msyn (i', j') e).
  { clear - Hev Hgrid. induction Hev as [| a e l l' Hae _ IH]; [destruct Hgrid |].
    destruct Hgrid as [-> | Hg].
    - exists e. split; [left; reflexivity | exact Hae].
    - destruct (IH Hg) as (e' & He' & Hp). exists e'. split; [right; exact He' | exact Hp]. }
  destruct Hex as ([[x' M'] s''] & He & Hx' & HM' & Hs'').
  cbn [fst snd] in *.
  apply getitem_inv in Hx'. apply getitem_inv in HM'.
  destruct Hx' as [_ ->]. destruct HM' as [_ ->].
  assert (s'' = s') by congruence. subst s''.
  apply (Hmin _ He).
Qed.

Lemma slopeD_returns_visited_pair_witness :
  exists (i j : nat) (s : R),
    (1 <= i < 2)%nat /\ (1 <= j < 2)%nat /\
    nth_error [1; 2] i = Some 2 /\ nth_error [1; 1] j = Some 1 /\
    syn_slope 1 1 1 0.5 0.999 2 2 1 = Ok s /\
    Rabs (s - 0) < 10 /\
    forall (i' j' : nat) (s' : R),
      (1 <= i' < 2)%nat -> (1 <= j' < 2)%nat ->
      syn_slope 1 1 1 0.5 0.999 2 (nth i' [1; 2] 0) (nth j' [1; 1] 0) = Ok s' ->
      Rabs (s - 0) <= Rabs (s' - 0).
Proof.
  apply (slopeD_returns_visited_pair 1 1 1 0.5 0.999 0 2 2 [1; 2] [1; 1] 2 1).
  exact one_visit_result.
Defined.

Lemma linspace_upper (a b : R) (n i : nat) :
  a <= b -> (i < n)%nat -> nth i (linspace a b n) 0 <= b.
Proof.
  intros Hab Hi. destruct (Nat.eq_dec n 1) as [-> | Hn].
  - assert (i = 0%nat) by lia. subst i. rewrite linspace_first by lia. exact Hab.
  - rewrite <- (linspace_last a b n) at 2 by lia.
    apply linspace_mono; [exact Hab | lia | lia].
Qed.

(** A pair the search returns is a point of the two grids, at indices the
    loops visit. *)
Lemma search_returns_grid_point (A U K lo hi obs : R)
  (Mlow Mhigh : R) (MMM : nat) (Xlow Xhigh : R) (N : nat) (x M : R) :
  estimateDistanceAndMass A U K lo hi obs Mlow Mhigh MMM Xlow Xhigh N = Ok (x, M) ->
  exists i j : nat,
    (1 <= i < N)%nat /\ (1 <= j < MMM)%nat /\
    x = nth i (linspace Xlow Xhigh N) 0 /\
    M = nth j (linspace Mlow Mhigh MMM) 0.
Proof.
  unfold estimateDistanceAndMass. intros H.
  destruct (slopeD_result _ _ _ _ _ _ _ _ _ _ _ _ H) as (evals & s & Hev & Hin & _).
  destruct (Forall2_In_r _ _ _ _ Hev Hin) as ([i j] & Hij & Hx & HM & _).
  cbn [fst snd] in *. apply grid_indices_In in Hij.
  apply getitem_inv in Hx. apply getitem_inv in HM.
  exists i, j. split; [tauto |]. split; [tauto |].
  split; [apply Hx | apply HM].
Qed.

(** X13.  A pair the search returns lies within the two ranges, whatever the
    other inputs are. *)
Theorem search_result_in_range (A U K lo hi obs : R)
  (Mlow Mhigh : R) (MMM : nat) (Xlow Xhigh : R) (N : nat) (x M : R) :
  Xlow <= Xhigh -> Mlow <= Mhigh ->
  estimateDistanceAndMass A U K lo hi obs Mlow Mhigh MMM Xlow Xhigh N = Ok (x, M) ->
  Xlow <= x <= Xhigh /\ Mlow <= M <= Mhigh.
Proof.
  intros HX HM H.
  destruct (search_returns_grid_point _ _ _ _ _ _ _ _ _ _ _ _ _ _ H)
    as (i & j & Hi & Hj & -> & ->).
  split; (split; [apply linspace_lower | apply linspace_upper]);
    (exact HX || exact HM || lia).
Qed.

Lemma one_visit_estimate :
  estimateDistanceAndMass 1 1 1 0.5 0.999 0 1 1 2 1 2 2 = Ok (2, 1).
Proof.
  unfold estimateDistanceAndMass. rewrite !linspace_two. exact one_visit_result.
Qed.

Lemma search_result_in_range_witness :
  estimateDistanceAndMass 1 1 1 0.5 0.999 0 1 1 2 1 2 2 = Ok (2, 1) /\
  1 <= 2 <= 2 /\ 1 <= 1 <= 1.
Proof.
  split; [exact one_visit_estimate |].
  apply (search_result_in_range 1 1 1 0.5 0.999 0 1 1 2 1 2 2 2 1);
    [lra | lra | exact one_visit_estimate].
Defined.

(** X14.  The loops never raise the recorded [diffi]; they leave the
    workspace as it was or bind [XYZ] and [MYZ] together with a smaller
    [diffi]; and running them again from the workspace they produced, without
    running cell 33 in between, changes nothing. *)
Theorem slopeD_loop_rerun (A U K lo hi obs : R) (N MMM : nat)
  (xrange Msyn : list R) (w w' : workspace) :
  slopeD_loop A U K lo hi obs N MMM xrange Msyn w = Ok w' ->
  diffi w' <= diffi w /\
  (w' = w \/
   exists x M : R, XYZ w' = Some x /\ MYZ w' = Some M /\ diffi w' < diffi w) /\
  slopeD_loop A U K lo hi obs N MMM xrange Msyn w' = Ok w'.
Proof.
  intros H. rewrite slopeD_loop_flat in *.
  destruct (loop_ok_evals _ _ _ _ _ _ _ _ _ _ _ _ H) as [evals Hev].
  rewrite (loop_pure _ _ _ _ _ obs _ _ _ _ evals w Hev) in H.
  rewrite (loop_pure _ _ _ _ _ obs _ _ _ _ evals w' Hev).
  injection H as H.
  destruct (fold_update_first_min obs evals w)
    as [[Hw Hall] | (before & best & after & E & Hw & Hd & Hb & Ha)];
    rewrite Hw in H; subst w'.
  - split; [lra |]. split; [left; reflexivity |].
    rewrite fold_update_no_improvement by exact Hall. reflexivity.
  - cbn [diffi XYZ MYZ]. split; [lra |].
    split; [right; eexists; eexists; repeat split; exact Hd |].
    rewrite fold_update_no_improvement; [reflexivity |].
    intros e He. cbn [diffi]. rewrite E in He. apply in_app_or in He.
    destruct He as [He | [<- | He]]; [left; apply Hb; exact He | lra | apply Ha; exact He].
Qed.

Lemma one_visit_loop :
  slopeD_loop 1 1 1 0.5 0.999 0 2 2 [1; 2] [1; 1] initial_workspace
  = Ok (mkWs (diff_of 0 (2, 1, taylor 1 1 1 1 2 1 / 2)) (Some 2) (Some 1)).
Proof.
  rewrite slopeD_loop_flat.
  rewrite (loop_pure _ _ _ _ _ 0 _ _ _ _ _ initial_workspace one_visit).
  cbn [fold_left].
  destruct example_curve as [[P0 Q0] _].
  assert (Hd : diff_of 0 (2, 1, taylor 1 1 1 1 2 1 / 2) < diffi initial_workspace).
  { unfold diff_of. cbn [snd diffi initial_workspace]. rewrite Rabs_right by lra. lra. }
  rewrite (update_improves 0 initial_workspace (2, 1, taylor 1 1 1 1 2 1 / 2) Hd).
  reflexivity.
Qed.

Lemma slopeD_loop_rerun_witness :
  let w' := mkWs (diff_of 0 (2, 1, taylor 1 1 1 1 2 1 / 2)) (Some 2) (Some 1) in
  diffi w' <= diffi initial_workspace /\
  (w' = initial_workspace \/
   exists x M : R, XYZ w' = Some x /\ MYZ w' = Some M /\
                   diffi w' < diffi initial_workspace) /\
  slopeD_loop 1 1 1 0.5 0.999 0 2 2 [1; 2] [1; 1] w' = Ok w'.
Proof.
  apply (slopeD_loop_rerun 1 1 1 0.5 0.999 0 2 2 [1; 2] [1; 1] initial_workspace).
  exact one_visit_loop.
Defined.

(** ** The rerun at the estimate (cell 35) *)

Lemma nth_map_R (g : R -> R) (l : list R) (i : nat) :
  (i < length l)%nat -> nth i (map g l) 0 = g (nth i l 0).
Proof.
  intros H. rewrite (nth_indep (map g l) 0 (g 0)) by (rewrite length_map; exact H).
  apply map_nth.
Qed.

(** A pair whose synthetic front has a slope goes through cell 35. *)
Lemma cell35_defined (A U K lo hi : R) (N : nat) (tpeak x M s : R) :
  0.01 <= lo -> lo < 1 ->
  syn_slope A U K lo hi N x M = Ok s ->
  exists (fr : Front) (Cmax : R) (istart ipeak : nat),
    let tsyn := linspace 1 (10 * (x / U)) N in
    let Csyn := map (taylor A M U K x) tsyn in
    let shift := Rabs (tpeak - nth ipeak tsyn 0) in
    amax Csyn = Ok Cmax /\ 0 < Cmax /\
    front_fit tsyn Csyn lo hi Cmax = Ok fr /\ snd (params fr) = s /\
    first_above Csyn (0.01 * Cmax) = Ok istart /\ (istart <= indx1 fr)%nat /\
    argmax Csyn = Ok ipeak /\ (ipeak < N)%nat /\ nth ipeak Csyn 0 = Cmax /\
    cell35 A U K lo hi N tpeak x M
    = Ok (mkReplot tsyn Csyn fr (nth istart tsyn 0) (nth ipeak tsyn 0)
            (map (fun ti => ti + shift) tsyn)
            (map (fun ti => ti + shift) (Lt fr))
            (map (fun ti => fst (params fr) + snd (params fr) * ti) (Lt fr))).
Proof.
  intros Hlo Hhi H. unfold cell35. unfold syn_slope in H. unfold taylorU in *.
  cbn [bind] in *. cbv zeta.
  set (tsyn := linspace 1 (10 * (x / U)) N) in *.
  set (Csyn := map (taylor A M U K x) tsyn) in *.
  assert (Hlt : length tsyn = N) by apply linspace_length.
  assert (Hlc : length Csyn = N) by (unfold Csyn; rewrite length_map; exact Hlt).
  destruct (amax Csyn) as [Cmax |] eqn:Hmax; [| discriminate]. cbn [bind] in *.
  destruct (front_fit tsyn Csyn lo hi Cmax) as [fr |] eqn:Hfr; [| discriminate].
  cbn [bind] in *. injection H as Hs.
  destruct (front_fit_inv _ _ _ _ _ _ Hfr) as (H1 & _).
  apply first_above_Ok in H1. destruct H1 as (Hi1 & Hgt & _).
  assert (Hup : nth (indx1 fr) Csyn 0 <= Cmax)
    by (apply (amax_upper Csyn Cmax Hmax); apply nth_In; exact Hi1).
  assert (Hpos : 0 < Cmax) by nra.
  destruct (first_above_exists Csyn (0.01 * Cmax) (indx1 fr) Hi1)
    as (istart & Hstart & Hle); [nra |].
  destruct (argmax_attains Csyn Cmax Hmax) as (ipeak & Hpeak & Hip & Hnth).
  assert (His : (istart < length tsyn)%nat) by lia.
  exists fr, Cmax, istart, ipeak.
  rewrite Hstart, Hpeak. cbn [bind].
  rewrite !getitem_Ok by lia. cbn [bind].
  repeat split; try assumption; try reflexivity. lia.
Qed.

(** X15.  When the search has returned a pair, cell 35, which simulates the
    curve again at that pair with fractions [0.01 <= ClowerD < 1], runs
    without exception; the regression line it plots has a slope within 10
    of the observed slope and is drawn on the samples of the synthetic front,
    and the shifted time axis has one entry per simulated sample. *)
Theorem replot_after_search (A U K lo hi obs : R) (N MMM : nat)
  (xrange Msyn : list R) (tpeak x M : R) :
  0.01 <= lo -> lo < 1 ->
  slopeD A U K lo hi obs N MMM xrange Msyn initial_workspace = Ok (x, M) ->
  exists rp : Replot,
    cell35 A U K lo hi N tpeak x M = Ok rp /\
    Rabs (snd (params (rp_front rp)) - obs) < 10 /\
    length (rp_Csyn rp) = N /\ length (tplot rp) = N /\
    length (datatsynplot rp) = length (LC (rp_front rp)) /\
    length (C_hat_syn rp) = length (LC (rp_front rp)) /\
    forall k : nat, (k < length (Lt (rp_front rp)))%nat ->
      nth k (C_hat_syn rp) 0
      = fst (params (rp_front rp))
        + snd (params (rp_front rp)) * nth k (Lt (rp_front rp)) 0.
Proof.
  intros Hlo Hhi H.
  destruct (slopeD_result _ _ _ _ _ _ _ _ _ _ _ _ H) as (evals & s & Hev & Hin & Hd & _).
  destruct (Forall2_In_r _ _ _ _ Hev Hin) as (ij & _ & _ & _ & Hs).
  cbn [fst snd] in Hs. unfold diff_of in Hd. cbn [snd] in Hd.
  destruct (cell35_defined A U K lo hi N tpeak x M s Hlo Hhi Hs)
    as (fr & Cmax & istart & ipeak & Hc).
  cbv zeta in Hc.
  destruct Hc as (_ & _ & Hfr & Hsl & _ & _ & _ & _ & _ & Hcell).
  eexists. split; [exact Hcell |].
  cbn [rp_front rp_Csyn tplot datatsynplot C_hat_syn].
  destruct (front_fit_inv _ _ _ _ _ _ Hfr) as (_ & _ & _ & _ & HLt & HLC & _).
  assert (Hlen : length (Lt fr) = length (LC fr)).
  { rewrite (take_length _ _ _ HLt), (take_length _ _ _ HLC). reflexivity. }
  rewrite !length_map, linspace_length, Hsl.
  repeat split; try assumption; try reflexivity.
  intros k Hk.
  apply (nth_map_R (fun ti => fst (params fr) + s * ti)). exact Hk.
Qed.

Lemma replot_after_search_witness :
  exists rp : Replot,
    cell35 1 1 1 0.5 0.999 2 5 2 1 = Ok rp /\
    Rabs (snd (params (rp_front rp)) - 0) < 10 /\
    length (rp_Csyn rp) = 2%nat /\ length (tplot rp) = 2%nat /\
    length (datatsynplot rp) = length (LC (rp_front rp)) /\
    length (C_hat_syn rp) = length (LC (rp_front rp)) /\
    forall k : nat, (k < length (Lt (rp_front rp)))%nat ->
      nth k (C_hat_syn rp) 0
      = fst (params (rp_front rp))
        + snd (params (rp_front rp)) * nth k (Lt (rp_front rp)) 0.
Proof.
  apply (replot_after_search 1 1 1 0.5 0.999 0 2 2 [1; 2] [1; 1] 5 2 1);
    [lra | lra | exact one_visit_result].
Defined.

(** X16.  Cell 35 shifts the synthetic times by [abs(tpeak - tpeaksyn)], a
    shift that is never negative: every plotted time is at or after its
    simulated time, the synthetic peak is plotted at the observed peak time
    when the synthetic peak is the earlier one, and at
    [2 * tpeaksyn - tpeak], after the observed peak, when it is the later
    one. *)
Theorem replot_peak_shift (A U K lo hi : R) (N : nat) (tpeak x M s : R) :
  0.01 <= lo -> lo < 1 ->
  syn_slope A U K lo hi N x M = Ok s ->
  exists (rp : Replot) (ipeak : nat),
    cell35 A U K lo hi N tpeak x M = Ok rp /\
    argmax (rp_Csyn rp) = Ok ipeak /\ (ipeak < N)%nat /\
    nth ipeak (rp_tsyn rp) 0 = tpeaksyn rp /\
    (forall i : nat, (i < N)%nat ->
       nth i (rp_tsyn rp) 0 <= nth i (tplot rp) 0) /\
    (tpeaksyn rp <= tpeak -> nth ipeak (tplot rp) 0 = tpeak) /\
    (tpeak < tpeaksyn rp ->
       nth ipeak (tplot rp) 0 = 2 * tpeaksyn rp - tpeak /\
       tpeak < nth ipeak (tplot rp) 0).
Proof.
  intros Hlo Hhi Hs.
  destruct (cell35_defined A U K lo hi N tpeak x M s Hlo Hhi Hs)
    as (fr & Cmax & istart & ipeak & Hc).
  cbv zeta in Hc.
  destruct Hc as (_ & _ & _ & _ & _ & _ & Hpeak & Hip & _ & Hcell).
  eexists. exists ipeak. split; [exact Hcell |].
  cbn [rp_Csyn rp_tsyn tplot tpeaksyn].
  set (tsyn := linspace 1 (10 * (x / U)) N) in *.
  assert (Hlt : length tsyn = N) by apply linspace_length.
  split; [exact Hpeak |]. split; [exact Hip |]. split; [reflexivity |].
  split; [| split].
  - intros i Hi.
    rewrite (nth_map_R (fun ti => ti + Rabs (tpeak - nth ipeak tsyn 0))) by lia.
    assert (H0 := Rabs_pos (tpeak - nth ipeak tsyn 0)). lra.
  - intros Hle.
    rewrite (nth_map_R (fun ti => ti + Rabs (tpeak - nth ipeak tsyn 0))) by lia.
    rewrite Rabs_right by lra. ring.
  - intros Hgt.
    rewrite (nth_map_R (fun ti => ti + Rabs (tpeak - nth ipeak tsyn 0))) by lia.
    rewrite Rabs_left by lra. split; [ring | lra].
Qed.

Lemma replot_peak_shift_witness :
  exists (rp : Replot) (ipeak : nat),
    cell35 1 1 1 0.5 0.999 2 5 2 1 = Ok rp /\
    argmax (rp_Csyn rp) = Ok ipeak /\ (ipeak < 2)%nat /\
    nth ipeak (rp_tsyn rp) 0 = tpeaksyn rp /\
    (forall i : nat, (i < 2)%nat ->
       nth i (rp_tsyn rp) 0 <= nth i (tplot rp) 0) /\
    (tpeaksyn rp <= 5 -> nth ipeak (tplot rp) 0 = 5) /\
    (5 < tpeaksyn rp ->
       nth ipeak (tplot rp) 0 = 2 * tpeaksyn rp - 5 /\
       5 < nth ipeak (tplot rp) 0).
Proof.
  apply (replot_peak_shift 1 1 1 0.5 0.999 2 5 2 1 (taylor 1 1 1 1 2 1 / 2));
    [lra | lra | exact syn_slope_example].
Defined.

(** ** The search with the notebook's constants (cell 33) *)

(** X17.  With the constants of cell 33 (1000 distances from 1 to 1000 m,
    50 masses within 30 percent of the mass estimate, fractions 0.5 and
    0.999), a pair the search returns is a whole number of metres between 2
    and 1000 and one of the 49 masses [M * (0.7 + 0.6 * j / 49)],
    [1 <= j <= 49]: a distance of 1 m and the mass [0.7 * M] are never
    returned. *)
Theorem notebook_search_resolution (A U K obs M x Mest : R) :
  notebook_cells_33_34 A U K obs M = Ok (x, Mest) ->
  exists i j : nat,
    (1 <= i < 1000)%nat /\ (1 <= j < 50)%nat /\
    x = INR (i + 1) /\ Mest = M * (0.7 + 0.6 * (INR j / 49)).
Proof.
  unfold notebook_cells_33_34. intros H.
  destruct (search_returns_grid_point _ _ _ _ _ _ _ _ _ _ _ _ _ _ H)
    as (i & j & Hi & Hj & -> & ->).
  exists i, j. split; [exact Hi |]. split; [exact Hj |].
  rewrite !linspace_nth by lia.
  replace (INR (1000 - 1)) with 999
    by (rewrite INR_IZR_INZ; apply f_equal; reflexivity).
  replace (INR (50 - 1)) with 49
    by (rewrite INR_IZR_INZ; apply f_equal; reflexivity).
  rewrite plus_INR. change (INR 1) with 1.
  split.
  - replace ((1000 - 1) / 999) with 1 by lra. ring.
  - replace ((M + M * 0.30 - (M - M * 0.30)) / 49) with (M * 0.6 / 49) by lra.
    lra.
Qed.

Lemma grid_indices_head (N MMM : nat) :
  (1 < N)%nat -> (1 < MMM)%nat ->
  exists rest, grid_indices N MMM = (1%nat, 1%nat) :: rest.
Proof.
  intros HN HM. destruct N as [| [| n]]; try lia. destruct MMM as [| [| m]]; try lia.
  unfold grid_indices, range. simpl. eexists. reflexivity.
Qed.

(** A first visit whose slope is the observed slope is the result. *)
Lemma first_visit_exact (A U K lo hi obs : R) (N MMM : nat)
  (xrange Msyn : list R) (e1 : R * R * R) (rest : list (R * R * R)) :
  Forall2 (evaluated_as A U K lo hi N xrange Msyn) (grid_indices N MMM) (e1 :: rest) ->
  diff_of obs e1 = 0 ->
  slopeD A U K lo hi obs N MMM xrange Msyn initial_workspace
  = Ok (fst (fst e1), snd (fst e1)).
Proof.
  intros Hev Hd. rewrite (slopeD_fold _ _ _ _ _ _ _ _ _ _ _ _ Hev). cbv zeta.
  destruct (fold_update_first_min obs (e1 :: rest) initial_workspace)
    as [[_ Hall] | (before & best & after & E & Hw & _ & Hb & _)].
  - exfalso. specialize (Hall e1 (or_introl eq_refl)).
    cbn [diffi initial_workspace] in Hall. lra.
  - rewrite Hw. destruct before as [| b0 before'].
    + cbn [app] in E. injection E as <- _. reflexivity.
    + cbn [app] in E. injection E as <- _.
      specialize (Hb e1 (or_introl eq_refl)).
      assert (0 <= diff_of obs best) by (unfold diff_of; apply Rabs_pos). lra.
Qed.

(** On positive inputs every visit of the model yields a slope. *)
Lemma visits_defined (A U K lo hi : R) (Mlow Mhigh : R) (MMM : nat)
  (Xlow Xhigh : R) (N : nat) :
  0 < A -> 0 < K -> 0 < U -> U <= 10 * Xlow -> Xlow <= Xhigh ->
  0 < Mlow -> Mlow <= Mhigh ->
  0 < lo -> lo <= hi -> hi < 1 ->
  exists evals,
    Forall2 (evaluated_as A U K lo hi N (linspace Xlow Xhigh N)
                          (linspace Mlow Mhigh MMM))
            (grid_indices N MMM) evals.
Proof.
  intros HA HK HU HUX HX HM HMM Hlo Hle Hhi.
  set (xrange := linspace Xlow Xhigh N). set (Msyn := linspace Mlow Mhigh MMM).
  apply evals_exist.
  intros [i j] Hij. apply grid_indices_In in Hij. destruct Hij as [Hi Hj].
  assert (Hxl : Xlow <= nth i xrange 0) by (apply linspace_lower; [exact HX | lia]).
  assert (Hml : Mlow <= nth j Msyn 0) by (apply linspace_lower; [exact HMM | lia]).
  assert (Hend : 1 <= 10 * (nth i xrange 0 / U)).
  { apply (Rmult_le_reg_r U); [exact HU |].
    replace (10 * (nth i xrange 0 / U) * U) with (10 * nth i xrange 0)
      by (field; lra). lra. }
  destruct (syn_slope_defined A U K lo hi N (nth i xrange 0) (nth j Msyn 0))
    as [s Hs]; try assumption; try lra; try lia.
  exists (nth i xrange 0, nth j Msyn 0, s). unfold evaluated_as. cbn [fst snd].
  rewrite !getitem_Ok by (unfold xrange, Msyn; rewrite linspace_length; lia).
  split; [reflexivity |]. split; [reflexivity | exact Hs].
Qed.

(** With the slope of the first visited pair as the observed slope, the
    search of the notebook returns that pair. *)
Lemma notebook_first_pair :
  let x1 := nth 1 (linspace 1 1000 1000) 0 in
  let m1 := nth 1 (linspace (1 - 1 * 0.30) (1 + 1 * 0.30) 50) 0 in
  let obs := match syn_slope 1 1 1 0.5 0.999 1000 x1 m1 with
             | Ok s => s
             | Raise _ => 0
             end in
  notebook_cells_33_34 1 1 1 obs 1 = Ok (x1, m1).
Proof.
  cbv zeta. unfold notebook_cells_33_34, estimateDistanceAndMass.
  set (xrange := linspace 1 1000 1000).
  set (Msyn := linspace (1 - 1 * 0.30) (1 + 1 * 0.30) 50).
  destruct (visits_defined 1 1 1 0.5 0.999 (1 - 1 * 0.30) (1 + 1 * 0.30) 50 1 1000 1000)
    as [evals Hev]; try lra.
  fold xrange Msyn in Hev.
  destruct (grid_indices_head 1000 50) as [grest Hg]; [lia | lia |].
  assert (Hev' := Hev). rewrite Hg in Hev'.
  inversion Hev' as [| ij e1 l rest He1 Hrest E1 E2]. subst.
  destruct He1 as (Hx & HM & Hs). cbn [fst snd] in Hx, HM.
  apply getitem_inv in Hx. apply getitem_inv in HM.
  destruct Hx as [_ Hx]. destruct HM as [_ HM].
  destruct e1 as [[ex eM] es]. cbn [fst snd] in *. subst ex eM.
  rewrite Hs.
  rewrite (first_visit_exact 1 1 1 0.5 0.999 es 1000 50 xrange Msyn
             (nth 1 xrange 0, nth 1 Msyn 0, es) rest Hev).
  - reflexivity.
  - unfold diff_of. cbn [snd]. rewrite Rminus_diag. apply Rabs_R0.
Qed.

Lemma notebook_search_resolution_witness :
  let x1 := nth 1 (linspace 1 1000 1000) 0 in
  let m1 := nth 1 (linspace (1 - 1 * 0.30) (1 + 1 * 0.30) 50) 0 in
  let obs := match syn_slope 1 1 1 0.5 0.999 1000 x1 m1 with
             | Ok s => s
             | Raise _ => 0
             end in
  notebook_cells_33_34 1 1 1 obs 1 = Ok (x1, m1) /\
  exists i j : nat,
    (1 <= i < 1000)%nat /\ (1 <= j < 50)%nat /\
    x1 = INR (i + 1) /\ m1 = 1 * (0.7 + 0.6 * (INR j / 49)).
Proof.
  split; [exact notebook_first_pair |].
  exact (notebook_search_resolution 1 1 1 _ 1 _ _ notebook_first_pair).
Defined.

(** ** Stream inputs and predictors (cells 2 to 4) *)

Lemma ft_m_pos : 0 < ft_m.
Proof. unfold ft_m. lra. Qed.




Ltac pos_prod :=
  repeat match goal with
    | |- 0 < _ * _ => first [assumption | apply Rmult_lt_0_compat]
    end;
  first [assumption | lra | idtac].

Lemma Rpower_three_halves (r : R) : 0 < r -> Rpower r (3 / 2) = r * sqrt r.
Proof.
  intros Hr. replace (3 / 2) with (1 + / 2) by field.
  rewrite Rpower_plus, Rpower_1 by exact Hr. rewrite Rpower_sqrt by exact Hr.
  reflexivity.
Qed.

Lemma ustar_pos (A W h Sl : R) :
  0 < A -> 0 < W -> 0 < h -> 0 < Sl -> 0 < ustar A W h Sl.
Proof.
  intros HA HW Hh HS. unfold ustar, Hr, Pw. apply sqrt_lt_R0.
  apply Rmult_lt_0_compat; [| exact HS].
  apply Rmult_lt_0_compat; [lra |]. apply Rdiv_lt_0_compat; lra.
Qed.

(** X19.  For a positive area, width, depth and slope the predictors of
    Koussis, Iwasa and Elder are positive and differ only by a function of
    the aspect ratio [W / h]: [KK = 0.3 * sqrt(W / h) * KI] and
    [KK = (0.6 / 5.93) * (W / h)^2 * KE], so the coefficient the notebook
    selects ([K = KK]) is the smaller of the first two exactly when
    [W / h <= 100 / 9]. *)
Theorem predictors_compare (A W h Sl : R) :
  0 < A -> 0 < W -> 0 < h -> 0 < Sl ->
  0 < KK A W h Sl /\ 0 < KI A W h Sl /\ 0 < KE A W h Sl /\
  KK A W h Sl = 0.3 * sqrt (W / h) * KI A W h Sl /\
  KK A W h Sl = 0.6 / 5.93 * (W / h) ^ 2 * KE A W h Sl /\
  (KK A W h Sl <= KI A W h Sl <-> W / h <= 100 / 9).
Proof.
  intros HA HW Hh HS.
  assert (Hu := ustar_pos A W h Sl HA HW Hh HS).
  assert (Hr : 0 < W / h) by (apply Rdiv_lt_0_compat; assumption).
  assert (Hsr : 0 < sqrt (W / h)) by (apply sqrt_lt_R0; exact Hr).
  assert (Hsq : sqrt (W / h) * sqrt (W / h) = W / h) by (apply sqrt_sqrt; lra).
  assert (EI : KI A W h Sl = 2 * (W / h * sqrt (W / h)) * h * ustar A W h Sl).
  { unfold KI. rewrite Rpower_three_halves by exact Hr. reflexivity. }
  assert (PI_ : 0 < KI A W h Sl).
  { rewrite EI. pos_prod. }
  assert (EK : KK A W h Sl = 0.3 * sqrt (W / h) * KI A W h Sl).
  { rewrite EI. unfold KK.
    replace 0.3 with (3 / 10) by lra. replace 0.6 with (6 / 10) by lra.
    replace (3 / 10 * sqrt (W / h) * (2 * (W / h * sqrt (W / h)) * h * ustar A W h Sl))
      with (6 / 10 * (W / h * (sqrt (W / h) * sqrt (W / h))) * h * ustar A W h Sl)
      by (field; lra).
    rewrite Hsq. field. lra. }
  split.
  { unfold KK. pos_prod. apply pow_lt; exact Hr. }
  split; [exact PI_ |].
  split.
  { unfold KE. pos_prod. }
  split; [exact EK |].
  split.
  { unfold KK, KE. replace 0.6 with (6 / 10) by lra.
    replace 5.93 with (593 / 100) by lra. field. lra. }
  rewrite EK.
  assert (H103 : sqrt (100 / 9) = 10 / 3).
  { replace (100 / 9) with ((10 / 3) * (10 / 3)) by field. apply sqrt_square. lra. }
  split.
  - intros Hle.
    assert (Hs : sqrt (W / h) <= 10 / 3) by nra.
    rewrite <- Hsq. replace (100 / 9) with ((10 / 3) * (10 / 3)) by field.
    apply Rmult_le_compat; lra.
  - intros Hle.
    assert (Hs : sqrt (W / h) <= 10 / 3)
      by (rewrite <- H103; apply sqrt_le_1; lra).
    nra.
Qed.

Lemma predictors_compare_witness :
  0 < KK 1 3 1 1 /\ 0 < KI 1 3 1 1 /\ 0 < KE 1 3 1 1 /\
  KK 1 3 1 1 = 0.3 * sqrt (3 / 1) * KI 1 3 1 1 /\
  KK 1 3 1 1 = 0.6 / 5.93 * (3 / 1) ^ 2 * KE 1 3 1 1 /\
  (KK 1 3 1 1 <= KI 1 3 1 1 <-> 3 / 1 <= 100 / 9).
Proof.
  apply (predictors_compare 1 3 1 1); lra.
Defined.

(** X20.  The two empirical predictors of cell 3 are positive and grow with
    the flow rate and with the velocity. *)
Theorem empirical_predictors_monotone (a b : R) :
  0 < a -> a <= b ->
  0 < KQ a /\ KQ a <= KQ b /\ 0 < KU a /\ KU a <= KU b.
Proof.
  intros Ha Hab. unfold KQ, KU, KQ1, KU1.
  assert (Hf2 : 0 < ft_m ^ 2) by (apply pow_lt; exact ft_m_pos).
  assert (Pq : 0 < Rpower a 0.7414) by (unfold Rpower; apply exp_pos).
  assert (Pu : 0 < Rpower a 0.9643) by (unfold Rpower; apply exp_pos).
  assert (Mq : Rpower a 0.7414 <= Rpower b 0.7414)
    by (apply Rle_Rpower_l; [lra | split; assumption]).
  assert (Mu : Rpower a 0.9643 <= Rpower b 0.9643)
    by (apply Rle_Rpower_l; [lra | split; assumption]).
  split; [apply Rmult_lt_0_compat; [lra | exact Hf2] |].
  split; [apply Rmult_le_compat_r; lra |].
  split; [apply Rmult_lt_0_compat; [lra | exact Hf2] |].
  apply Rmult_le_compat_r; lra.
Qed.

Lemma empirical_predictors_monotone_witness :
  0 < KQ 0.5 /\ KQ 0.5 <= KQ 1 /\ 0 < KU 0.5 /\ KU 0.5 <= KU 1.
Proof.
  apply (empirical_predictors_monotone 0.5 1); lra.
Defined.

(** ** The setup of the tracer notebook (cells 3 and 4) *)

(** X21.  For a tracer series with as many times as concentrations, at least
    one sample, raw times that are not negative and below the largest int64,
    and a flow rate, width and distance between [2^-200] and [2^200] (so that
    no product or quotient of the setup leaves the normal range of float64),
    the setup returns: no time
    wraps around, the peak time is the shifted time of the
    first largest concentration and is at least 1 s, the velocity is positive
    and at most [x] per second, [U * tpeak = x], [A * U = Q] and
    [W * h = A]; every shifted time is at least 1 s, so that no time of the
    fit is zero; and the predictor [KM], computed
    after the fit with the fitted velocity but the depth of the setup, is
    [0.058 * Q / (W * S)] times the ratio of the fitted velocity to
    [x / tpeak]. *)
Theorem tracer_setup_consistent (t_sec C : list R) (Qknown W1 M_mg xknown1 : R) :
  length t_sec = length C -> C <> [] ->
  Forall (fun s => 0 <= s < 2 ^ 63 - 1) t_sec ->
  / 2 ^ 200 <= Qknown <= 2 ^ 200 ->
  / 2 ^ 200 <= W1 <= 2 ^ 200 ->
  / 2 ^ 200 <= xknown1 <= 2 ^ 200 ->
  exists (tr : Tracer) (ip : nat),
    tracer_setup t_sec C Qknown W1 M_mg xknown1 = Ok tr /\
    argmax C = Ok ip /\ (forall c, In c C -> c <= nth ip C 0) /\
    tr_tpeak tr = nth ip t_sec 0 + 1 /\ 1 <= tr_tpeak tr /\
    0 < tr_U tr <= tr_x tr /\
    tr_U tr * tr_tpeak tr = tr_x tr /\
    tr_A tr * tr_U tr = tr_Q tr /\
    tr_W tr * tr_h tr = tr_A tr /\
    0 < tr_A tr /\ 0 < tr_h tr /\
    Forall (fun ti => 1 <= ti) (tr_t tr) /\
    (forall Ufit Sl : R, 0 < Sl ->
       KM Ufit (tr_h tr) Sl
       = 0.058 * (tr_Q tr / (tr_W tr * Sl)) * (Ufit / tr_U tr)).
Proof.
  intros Hlen Hne Ht HQb HWb Hxb.
  assert (Hlow : 0 < / 2 ^ 200) by (apply Rinv_0_lt_compat; apply pow_lt; lra).
  assert (HQ : 0 < Qknown) by lra.
  assert (HW : 0 < W1) by lra.
  assert (Hx : 0 < xknown1) by lra.
  clear HQb HWb Hxb Hlow.
  destruct (amax_nonempty C Hne) as [m Hm].
  destruct (argmax_attains C m Hm) as (ip & Hip & Hlt & Hnth).
  assert (Hf := ft_m_pos).
  assert (Hf3 : 0 < ft_m ^ 3) by (apply pow_lt; exact Hf).
  assert (Htp : 0 <= nth ip t_sec 0 < 2 ^ 63 - 1).
  { rewrite Forall_forall in Ht. apply Ht. apply nth_In. lia. }
  set (tp := nth ip t_sec 0 + 1).
  assert (Htp1 : 1 <= tp) by (unfold tp; lra).
  assert (HxS : 0 < xknown1 * ft_m) by (apply Rmult_lt_0_compat; assumption).
  assert (HWS : 0 < W1 * ft_m) by (apply Rmult_lt_0_compat; assumption).
  assert (HQS : 0 < Qknown * ft_m ^ 3) by (apply Rmult_lt_0_compat; assumption).
  assert (HU : 0 < xknown1 * ft_m / tp) by (apply Rdiv_lt_0_compat; lra).
  assert (HA : 0 < Qknown * ft_m ^ 3 / (xknown1 * ft_m / tp))
    by (apply Rdiv_lt_0_compat; assumption).
  assert (Hh : 0 < Qknown * ft_m ^ 3 / (xknown1 * ft_m / tp) / (W1 * ft_m))
    by (apply Rdiv_lt_0_compat; assumption).
  eexists. exists ip. split.
  { unfold tracer_setup. rewrite Hip. cbn [bind].
    rewrite getitem_map, getitem_Ok by lia. cbn [bind].
    rewrite shift_no_wrap by exact Htp. fold tp. reflexivity. }
  cbn [tr_t tr_tpeak tr_M tr_Q tr_x tr_W tr_U tr_A tr_h].
  set (xs := xknown1 * ft_m) in *. set (Ws := W1 * ft_m) in *.
  set (Qs := Qknown * ft_m ^ 3) in *. clearbody xs Ws Qs.
  split; [exact Hip |].
  split; [rewrite Hnth; apply (amax_upper C m Hm) |].
  split; [reflexivity |]. split; [exact Htp1 |].
  split.
  { split; [exact HU |].
    apply (Rmult_le_reg_r tp); [lra |].
    replace (xs / tp * tp) with xs by (field; lra). nra. }
  split; [field; lra |].
  split; [field; split; lra |].
  split; [field; repeat split; lra |].
  split; [exact HA |]. split; [exact Hh |].
  split.
  - rewrite Forall_forall. intros ti Hti.
    apply in_map_iff in Hti. destruct Hti as (si & <- & Hsi).
    rewrite Forall_forall in Ht. specialize (Ht si Hsi).
    rewrite shift_no_wrap by exact Ht. lra.
  - intros Ufit Sl HS. unfold KM. replace 0.058 with (58 / 1000) by lra.
    field. repeat split; lra.
Qed.

Lemma tracer_setup_consistent_witness :
  exists (tr : Tracer) (ip : nat),
    tracer_setup [0; 1; 2] [0; 5; 2] 1 3 1000 10 = Ok tr /\
    argmax [0; 5; 2] = Ok ip /\ (forall c, In c [0; 5; 2] -> c <= nth ip [0; 5; 2] 0) /\
    tr_tpeak tr = nth ip [0; 1; 2] 0 + 1 /\ 1 <= tr_tpeak tr /\
    0 < tr_U tr <= tr_x tr /\
    tr_U tr * tr_tpeak tr = tr_x tr /\
    tr_A tr * tr_U tr = tr_Q tr /\
    tr_W tr * tr_h tr = tr_A tr /\
    0 < tr_A tr /\ 0 < tr_h tr /\
    Forall (fun ti => 1 <= ti) (tr_t tr) /\
    (forall Ufit Sl : R, 0 < Sl ->
       KM Ufit (tr_h tr) Sl
       = 0.058 * (tr_Q tr / (tr_W tr * Sl)) * (Ufit / tr_U tr)).
Proof.
  assert (P200 : 16 <= 2 ^ 200).
  { replace 16 with (2 ^ 4) by (simpl; ring). apply Rle_pow; [lra | lia]. }
  assert (I200 : / 2 ^ 200 <= 1).
  { rewrite <- Rinv_1. apply Rinv_le_contravar; lra. }
  apply (tracer_setup_consistent [0; 1; 2] [0; 5; 2] 1 3 1000 10);
    try reflexivity; try discriminate; try lra.
  assert (P := pow2_63_large). repeat constructor; lra.
Defined.

(** X22.  The setup of the tracer notebook fails on an empty series, with the
    [ValueError] of [argmax], and returns whenever the series has a sample
    and at least as many times as concentrations; a zero peak time, flow
    rate or width raises nothing. *)
Theorem tracer_setup_errors (t_sec C : list R) (Qknown W1 M_mg xknown1 : R) :
  (C = [] -> tracer_setup t_sec C Qknown W1 M_mg xknown1 = Raise ValueError) /\
  (C <> [] -> (length C <= length t_sec)%nat ->
     is_ok (tracer_setup t_sec C Qknown W1 M_mg xknown1)) /\
  (forall e, tracer_setup t_sec C Qknown W1 M_mg xknown1 = Raise e ->
     (e = ValueError /\ C = []) \/
     (e = IndexError /\ (length t_sec < length C)%nat)).
Proof.
  split; [intros ->; reflexivity |].
  split.
  - intros Hne Hlen.
    destruct (amax_nonempty C Hne) as [m Hm].
    destruct (argmax_attains C m Hm) as (ip & Hip & Hlt & _).
    unfold tracer_setup. rewrite Hip. cbn [bind].
    rewrite getitem_map, getitem_Ok by lia. cbn [bind]. eexists. reflexivity.
  - intros e H. destruct C as [| c rest].
    + left. cbn in H. split; congruence.
    + right.
      destruct (amax_nonempty (c :: rest)) as [m Hm]; [discriminate |].
      destruct (argmax_attains _ m Hm) as (ip & Hip & Hlt & _).
      unfold tracer_setup in H. rewrite Hip in H. cbn [bind] in H.
      rewrite getitem_map in H.
      destruct (Nat.lt_ge_cases ip (length t_sec)) as [Hi | Hi].
      * rewrite getitem_Ok in H by exact Hi. discriminate.
      * rewrite getitem_Raise in H by exact Hi. cbn [bind] in H.
        split; [congruence | lia].
Qed.

(** ** The peak of a synthetic curve (cells 35 and 36) *)

(** From the advection time [x / U] on, the forward model decreases. *)
Lemma taylor_decreasing (A M U K x t1 t2 : R) :
  0 < A -> 0 < M -> 0 < K -> 0 < U -> 0 <= x ->
  0 < t1 -> x / U <= t1 -> t1 < t2 ->
  taylor A M U K x t2 < taylor A M U K x t1.
Proof.
  intros HA HM HK HU Hx Ht1 Hadv Hlt. unfold taylor.
  assert (HPI := PI_RGT_0).
  assert (Hx1 : x <= U * t1).
  { apply (Rmult_le_compat_r U) in Hadv; [| lra].
    replace (x / U * U) with x in Hadv by (field; lra). lra. }
  assert (Hc : 0 < 4 * PI * K) by (apply Rmult_lt_0_compat; lra).
  assert (H1 : 0 < 4 * PI * K * t1) by (apply Rmult_lt_0_compat; lra).
  assert (H2 : 0 < 4 * PI * K * t2) by (apply Rmult_lt_0_compat; lra).
  assert (Hs1 : 0 < sqrt (4 * PI * K * t1)) by (apply sqrt_lt_R0; exact H1).
  assert (Hs : sqrt (4 * PI * K * t1) < sqrt (4 * PI * K * t2)).
  { apply sqrt_lt_1; try lra. apply Rmult_lt_compat_l; assumption. }
  assert (Hd1 : 0 < A * sqrt (4 * PI * K * t1)) by (apply Rmult_lt_0_compat; assumption).
  assert (Hd : A * sqrt (4 * PI * K * t1) < A * sqrt (4 * PI * K * t2))
    by (apply Rmult_lt_compat_l; assumption).
  assert (Hf : M / (A * sqrt (4 * PI * K * t2)) < M / (A * sqrt (4 * PI * K * t1))).
  { unfold Rdiv. apply Rmult_lt_compat_l; [exact HM |].
    apply Rinv_lt_contravar; [apply Rmult_lt_0_compat; lra | exact Hd]. }
  assert (Hf2 : 0 < M / (A * sqrt (4 * PI * K * t2)))
    by (apply Rdiv_lt_0_compat; lra).
  assert (Hk1 : 0 < 4 * K * t1) by (apply Rmult_lt_0_compat; lra).
  assert (Hk2 : 0 < 4 * K * t2) by (apply Rmult_lt_0_compat; lra).
  assert (He : - (x - U * t2) ^ 2 / (4 * K * t2) <= - (x - U * t1) ^ 2 / (4 * K * t1)).
  { apply Rminus_le.
    replace (- (x - U * t2) ^ 2 / (4 * K * t2) - - (x - U * t1) ^ 2 / (4 * K * t1))
      with (((t2 - t1) * (x * x - U * t1 * (U * t2))) / (4 * K * t1 * t2))
      by (field; lra).
    assert (Hden : 0 < 4 * K * t1 * t2) by (apply Rmult_lt_0_compat; lra).
    assert (Hnum : (t2 - t1) * (x * x - U * t1 * (U * t2)) <= 0).
    { assert (Hx2 : x <= U * t2) by nra.
      assert (x * x <= U * t1 * (U * t2)) by (apply Rmult_le_compat; lra).
      replace ((t2 - t1) * (x * x - U * t1 * (U * t2)))
        with (- ((t2 - t1) * (U * t1 * (U * t2) - x * x))) by ring.
      assert (0 <= (t2 - t1) * (U * t1 * (U * t2) - x * x))
        by (apply Rmult_le_pos; lra).
      lra. }
    unfold Rdiv.
    replace 0 with (0 * / (4 * K * t1 * t2)) by ring.
    apply Rmult_le_compat_r; [left; apply Rinv_0_lt_compat; exact Hden | exact Hnum]. }
  assert (Hexp : exp (- (x - U * t2) ^ 2 / (4 * K * t2))
                 <= exp (- (x - U * t1) ^ 2 / (4 * K * t1))).
  { destruct He as [He | He]; [left; apply exp_increasing; exact He | rewrite He; right; reflexivity]. }
  assert (Hp2 := exp_pos (- (x - U * t2) ^ 2 / (4 * K * t2))).
  apply Rle_lt_trans
    with (M / (A * sqrt (4 * PI * K * t2)) * exp (- (x - U * t1) ^ 2 / (4 * K * t1))).
  - apply Rmult_le_compat_l; [lra | exact Hexp].
  - apply Rmult_lt_compat_r; [apply exp_pos | exact Hf].
Qed.

Lemma linspace_strict (a b : R) (n i j : nat) :
  a < b -> (i < j)%nat -> (j < n)%nat ->
  nth i (linspace a b n) 0 < nth j (linspace a b n) 0.
Proof.
  intros Hab Hij Hj. rewrite !linspace_nth by lia.
  assert (Hn : 0 < INR (n - 1)) by (apply lt_0_INR; lia).
  assert (Hstep : 0 < (b - a) / INR (n - 1)) by (apply Rdiv_lt_0_compat; lra).
  assert (Hi : INR i < INR j) by (apply lt_INR; exact Hij).
  apply Rplus_lt_compat_l. apply Rmult_lt_compat_r; assumption.
Qed.

(** X23.  Whenever the body of the search yields a slope for a pair with
    positive area, dispersion coefficient, mass and velocity and a horizon
    beyond one second, the curve that cell 35 simulates for it peaks no later
    than one sample after the advection time [x / U]: every simulated time
    before the synthetic peak is earlier than [x / U], so the distance that
    cell 36 prints as velocity times time of peak exceeds the distance of the
    search by less than the velocity times one time step. *)
Theorem synthetic_peak_before_advection (A U K lo hi : R) (N : nat)
  (tpeak x M s : R) :
  0 < A -> 0 < K -> 0 < M -> 0 < U -> U < 10 * x ->
  0.01 <= lo -> lo < 1 ->
  syn_slope A U K lo hi N x M = Ok s ->
  exists (rp : Replot) (ipeak : nat),
    cell35 A U K lo hi N tpeak x M = Ok rp /\
    argmax (rp_Csyn rp) = Ok ipeak /\
    tpeaksyn rp = nth ipeak (rp_tsyn rp) 0 /\
    (forall j : nat, (j < ipeak)%nat -> U * nth j (rp_tsyn rp) 0 < x) /\
    ((0 < ipeak)%nat ->
       U * tpeaksyn rp < x + U * ((10 * (x / U) - 1) / INR (N - 1))).
Proof.
  intros HA HK HM HU HUx Hlo Hlo1 Hs.
  assert (Hx : 0 < x) by lra.
  assert (Hend : 1 < 10 * (x / U)).
  { apply (Rmult_lt_reg_r U); [exact HU |].
    replace (10 * (x / U) * U) with (10 * x) by (field; lra). lra. }
  destruct (cell35_defined A U K lo hi N tpeak x M s Hlo Hlo1 Hs)
    as (fr & Cmax & istart & ipeak & Hc).
  cbv zeta in Hc.
  destruct Hc as (Hmax & _ & _ & _ & _ & _ & Hpeak & Hip & Hnth & Hcell).
  eexists. exists ipeak. split; [exact Hcell |].
  cbn [rp_Csyn rp_tsyn tpeaksyn].
  set (tsyn := linspace 1 (10 * (x / U)) N) in *.
  assert (Hlt : length tsyn = N) by apply linspace_length.
  assert (Hbefore : forall j : nat, (j < ipeak)%nat -> U * nth j tsyn 0 < x).
  { intros j Hj.
    destruct (Rlt_le_dec (nth j tsyn 0) (x / U)) as [Hearly | Hlate].
    - apply (Rmult_lt_compat_l U) in Hearly; [| exact HU].
      replace (U * (x / U)) with x in Hearly by (field; lra). exact Hearly.
    - exfalso.
      assert (Hj1 : 1 <= nth j tsyn 0)
        by (apply linspace_lower; [lra | lia]).
      assert (Hstrict : nth j tsyn 0 < nth ipeak tsyn 0)
        by (apply linspace_strict; [exact Hend | exact Hj | exact Hip]).
      assert (Hdec : taylor A M U K x (nth ipeak tsyn 0)
                     < taylor A M U K x (nth j tsyn 0))
        by (apply taylor_decreasing; assumption || lra).
      assert (Hup : nth j (map (taylor A M U K x) tsyn) 0 <= Cmax).
      { apply (amax_upper _ Cmax Hmax). apply nth_In. rewrite length_map. lia. }
      rewrite (nth_map_R (taylor A M U K x)) in Hup by lia.
      rewrite (nth_map_R (taylor A M U K x)) in Hnth by lia.
      lra. }
  split; [exact Hpeak |]. split; [reflexivity |]. split; [exact Hbefore |].
  intros Hpos.
  assert (Hprev := Hbefore (ipeak - 1)%nat ltac:(lia)).
  unfold tsyn in *. rewrite linspace_nth in Hprev by lia.
  rewrite linspace_nth by lia.
  replace (INR ipeak) with (INR (ipeak - 1) + 1).
  - set (step := (10 * (x / U) - 1) / INR (N - 1)) in *. nra.
  - rewrite minus_INR by lia. simpl. ring.
Qed.

(** On three samples whose second is the largest and whose first is at most
    half of it, both bounds are at index 1 and the front is the second sample
    alone. *)
Lemma syn_slope_three_middle (A U K x M : R) :
  1 < 10 * (x / U) ->
  0 < taylor A M U K x (1 + (10 * (x / U) - 1) / 2) ->
  taylor A M U K x 1 <= 0.5 * taylor A M U K x (1 + (10 * (x / U) - 1) / 2) ->
  taylor A M U K x (10 * (x / U)) < taylor A M U K x (1 + (10 * (x / U) - 1) / 2) ->
  syn_slope A U K 0.5 0.999 3 x M
  = Ok ((1 + (10 * (x / U) - 1) / 2) * taylor A M U K x (1 + (10 * (x / U) - 1) / 2)
        / (1 + (1 + (10 * (x / U) - 1) / 2) * (1 + (10 * (x / U) - 1) / 2))).
Proof.
  intros Hend Hm H1 He.
  unfold syn_slope, taylorU. cbn [bind].
  rewrite linspace_three. cbn [map].
  set (te := 10 * (x / U)) in *. set (tm := 1 + (te - 1) / 2) in *.
  assert (Htm : 1 < tm < te) by (unfold tm; lra).
  set (c1 := taylor A M U K x 1) in *.
  set (cm := taylor A M U K x tm) in *.
  set (ce := taylor A M U K x te) in *.
  cbn [amax fold_left]. Rdecide. cbn [bind].
  unfold front_fit, first_above, between, in_window, nonzero.
  cbn [map nonzero_from]. Rdecide.
  cbn [nonzero_from item0 bind getitem nth_error]. Rdecide.
  cbn [nonzero_from andb take getitem nth_error bind].
  rewrite ols_single. cbn [bind params snd]. reflexivity.
Qed.

(** A curve of three samples that peaks at the second one: 10 m, velocity
    1 m/s, dispersion coefficient 1/2, on the times 1, 50.5 and 100. *)
Lemma middle_peak_curve :
  let cm := taylor 1 1 1 (1 / 2) 10 (1 + (10 * (10 / 1) - 1) / 2) in
  0 < cm /\
  taylor 1 1 1 (1 / 2) 10 1 <= 0.5 * cm /\
  taylor 1 1 1 (1 / 2) 10 (10 * (10 / 1)) < cm.
Proof.
  cbv zeta.
  replace (1 + (10 * (10 / 1) - 1) / 2) with 50.5 by lra.
  replace (10 * (10 / 1)) with 100 by lra.
  split; [apply taylor_pos; lra |].
  split; [| apply taylor_decreasing; lra].
  unfold taylor.
  assert (HPI := PI_RGT_0).
  set (a1 := - (10 - 1 * 1) ^ 2 / (4 * (1 / 2) * 1)).
  set (am := - (10 - 1 * 50.5) ^ 2 / (4 * (1 / 2) * 50.5)).
  assert (Hd : 24 <= am - a1) by (unfold am, a1; lra).
  assert (He : exp a1 <= / 25 * exp am).
  { replace a1 with (am + - (am - a1)) by ring.
    rewrite exp_plus, exp_Ropp.
    assert (Hlow : 1 + (am - a1) < exp (am - a1)) by (apply exp_ineq1; lra).
    assert (Hpos := exp_pos am).
    assert (Hinv : / exp (am - a1) <= / 25)
      by (apply Rinv_le_contravar; lra).
    rewrite Rmult_comm. apply Rmult_le_compat_r; lra. }
  assert (Hs1 : 0 < sqrt (4 * PI * (1 / 2) * 1)) by (apply sqrt_lt_R0; lra).
  assert (Hsm : sqrt (4 * PI * (1 / 2) * 50.5)
                = sqrt (4 * PI * (1 / 2) * 1) * sqrt 50.5).
  { rewrite <- sqrt_mult by lra. f_equal. ring. }
  assert (Hs8 : sqrt 50.5 <= 8).
  { replace 8 with (sqrt (8 * 8)) by (apply sqrt_square; lra).
    apply sqrt_le_1; lra. }
  assert (Hs0 : 0 < sqrt 50.5) by (apply sqrt_lt_R0; lra).
  rewrite Hsm.
  set (s1 := sqrt (4 * PI * (1 / 2) * 1)) in *. set (sm := sqrt 50.5) in *.
  assert (Hem := exp_pos am).
  replace (1 / (1 * s1) * exp a1) with (exp a1 / s1) by (field; lra).
  replace 0.5 with (/ 2) by lra.
  replace (/ 2 * (1 / (1 * (s1 * sm)) * exp am)) with (/ 2 * exp am / sm / s1)
    by (field; lra).
  clearbody s1 sm.
  apply (Rmult_le_reg_r (s1 * sm)); [apply Rmult_lt_0_compat; assumption |].
  replace (exp a1 / s1 * (s1 * sm)) with (exp a1 * sm) by (field; lra).
  replace (/ 2 * exp am / sm / s1 * (s1 * sm)) with (/ 2 * exp am)
    by (field; split; lra).
  assert (exp a1 * sm <= / 25 * exp am * 8).
  { apply Rmult_le_compat; try lra. left. apply exp_pos. }
  lra.
Qed.

Lemma middle_peak_slope :
  syn_slope 1 1 (1 / 2) 0.5 0.999 3 10 1
  = Ok ((1 + (10 * (10 / 1) - 1) / 2)
        * taylor 1 1 1 (1 / 2) 10 (1 + (10 * (10 / 1) - 1) / 2)
        / (1 + (1 + (10 * (10 / 1) - 1) / 2) * (1 + (10 * (10 / 1) - 1) / 2))).
Proof.
  destruct middle_peak_curve as (Hm & H1 & He).
  apply syn_slope_three_middle; [lra | exact Hm | exact H1 | exact He].
Qed.

(** The witness: the curve of [middle_peak_curve] peaks at its second sample,
    at 50.5 s, one sample after the advection time of 10 s. *)
Lemma synthetic_peak_before_advection_witness :
  is_ok (syn_slope 1 1 (1 / 2) 0.5 0.999 3 10 1) /\
  argmax (map (taylor 1 1 1 (1 / 2) 10) (linspace 1 (10 * (10 / 1)) 3)) = Ok 1%nat /\
  exists (rp : Replot) (ipeak : nat),
    cell35 1 1 (1 / 2) 0.5 0.999 3 400 10 1 = Ok rp /\
    argmax (rp_Csyn rp) = Ok ipeak /\
    tpeaksyn rp = nth ipeak (rp_tsyn rp) 0 /\
    (forall j : nat, (j < ipeak)%nat -> 1 * nth j (rp_tsyn rp) 0 < 10) /\
    ((0 < ipeak)%nat ->
       1 * tpeaksyn rp < 10 + 1 * ((10 * (10 / 1) - 1) / INR (3 - 1))).
Proof.
  split; [eexists; exact middle_peak_slope |].
  split.
  { destruct middle_peak_curve as (Hm & H1 & He).
    rewrite linspace_three. cbn [map argmax argmax_from].
    set (cm := taylor 1 1 1 (1 / 2) 10 (1 + (10 * (10 / 1) - 1) / 2)) in *.
    set (c1 := taylor 1 1 1 (1 / 2) 10 1) in *.
    set (ce := taylor 1 1 1 (1 / 2) 10 (10 * (10 / 1))) in *.
    Rdecide. reflexivity. }
  eapply (synthetic_peak_before_advection 1 1 (1 / 2) 0.5 0.999 3 400 10 1);
    [lra | lra | lra | lra | lra | lra | lra | exact middle_peak_slope].
Defined.
